(** * scripts/validate_versions.py: the changelog validator and release-notes extractor

    A shallow embedding of the script and the properties of its specification.

    Conventions of the embedding.
    - A Python [str] is a Rocq [string]; a character is a code point below 256.
      On that range Python's [\d] is the ten ASCII digits and [\s] (which is
      also what [str.strip] removes) is the set given by [isspace].
    - [Path.read_text] is the only effect of the functions other than [main]:
      such a computation is a function of the file system, which gives for a
      path the text that [read_text] returns, and a call that raises yields
      [Raise].  [main] also prints and writes a file: its runs are functions
      of a [World].
    - Python integers are [Z]; [int] refuses a run of more than 4300 decimal
      digits, the limit that the interpreter sets by default. *)

From Stdlib Require Import ZArith Ascii String.
From stdpp Require Import base decidable option list strings gmap.

Local Open Scope Z_scope.

(** ** Characters and the [str] methods the script calls *)

Definition LF : ascii := "010"%char.

Definition isspace (c : ascii) : bool :=
  let n := N_of_ascii c in
  ((9 <=? n) && (n <=? 13) || (28 <=? n) && (n <=? 32) || (n =? 133) || (n =? 160))%N.

Definition isdecimal (c : ascii) : bool :=
  let n := N_of_ascii c in ((48 <=? n) && (n <=? 57))%N.

Definition digit_value (c : ascii) : Z := Z.of_N (N_of_ascii c) - 48.

Fixpoint startswith (s prefix : string) : bool :=
  match prefix, s with
  | EmptyString, _ => true
  | String p prefix', String c s' => bool_decide (p = c) && startswith s' prefix'
  | String _ _, EmptyString => false
  end.

Fixpoint lstrip (s : string) : string :=
  match s with
  | String c s' => if isspace c then lstrip s' else s
  | EmptyString => EmptyString
  end.

Fixpoint rstrip (s : string) : string :=
  match s with
  | String c s' =>
      match rstrip s' with
      | EmptyString => if isspace c then EmptyString else String c EmptyString
      | t => String c t
      end
  | EmptyString => EmptyString
  end.

Definition strip (s : string) : string := rstrip (lstrip s).

Fixpoint split (sep : ascii) (s : string) : list string :=
  match s with
  | EmptyString => [EmptyString]
  | String c s' =>
      if bool_decide (c = sep) then EmptyString :: split sep s'
      else match split sep s' with
           | x :: xs => String c x :: xs
           | [] => [String c EmptyString]
           end
  end.

Fixpoint drop_str (n : nat) (s : string) : string :=
  match n, s with
  | S n', String _ s' => drop_str n' s'
  | _, _ => s
  end.

(** [s[i:j]] for [0 <= i], [0 <= j]. *)
Definition slice (s : string) (i j : nat) : string := substring i (j - i) s.

Fixpoint int_digits (acc : Z) (s : string) : option Z :=
  match s with
  | EmptyString => Some acc
  | String c s' =>
      if isdecimal c then int_digits (10 * acc + digit_value c) s' else None
  end.

(** [sys.int_max_str_digits], as the interpreter sets it: the longest run of
    digits that [int] converts. *)
Definition int_max_str_digits : nat := 4300.

(** [int(s)] on the strings the script passes to it, runs of decimal digits;
    a run of more than [int_max_str_digits] digits is refused.  [None] is
    [ValueError]. *)
Definition int (s : string) : option Z :=
  match s with
  | EmptyString => None
  | _ => if (String.length s <=? int_max_str_digits)%nat then int_digits 0 s else None
  end.

(** ** [re]: a backtracking matcher for the patterns of the script

    Matching follows the library: alternatives are tried in priority order,
    repetitions are greedy, [search] returns the leftmost match, and under
    [re.MULTILINE] [^] holds at the start of the string and after each line
    feed, [$] at the end of the string and before each line feed. *)
Module Re.

Inductive cls := Space | Digit.

Definition cls_mem (c : cls) : ascii → bool :=
  match c with Space => isspace | Digit => isdecimal end.

Inductive regex :=
| Eps
| Bol
| Eol
| Chr (c : ascii)
| Rep (c : cls) (lo : nat) (hi : option nat)
| Cat (r1 r2 : regex)
| Group (name : string) (r : regex).

Record cursor := Cursor {
  before : option ascii;
  rest : string;
  pos : nat;
  groups : list (string * string)
}.

Definition at_bol (b : option ascii) : bool :=
  match b with None => true | Some c => bool_decide (c = LF) end.

Definition at_eol (s : string) : bool :=
  match s with EmptyString => true | String c _ => bool_decide (c = LF) end.

Fixpoint greedy (p : ascii → bool) (lo : nat) (hi : option nat)
    (k : cursor → option cursor) (g : list (string * string))
    (b : option ascii) (n : nat) (s : string) : option cursor :=
  let stop := match lo with O => k (Cursor b s n g) | S _ => None end in
  match s with
  | String c s' =>
      if p c && negb (bool_decide (hi = Some O)) then
        match greedy p (Nat.pred lo) (Nat.pred <$> hi) k g (Some c) (S n) s' with
        | Some r => Some r
        | None => stop
        end
      else stop
  | EmptyString => stop
  end.

Fixpoint m (r : regex) (k : cursor → option cursor) (st : cursor) : option cursor :=
  match r with
  | Eps => k st
  | Bol => if at_bol (before st) then k st else None
  | Eol => if at_eol (rest st) then k st else None
  | Chr c =>
      match rest st with
      | String c' s' =>
          if bool_decide (c = c')
          then k (Cursor (Some c') s' (S (pos st)) (groups st))
          else None
      | EmptyString => None
      end
  | Rep c lo hi => greedy (cls_mem c) lo hi k (groups st) (before st) (pos st) (rest st)
  | Cat r1 r2 => m r1 (m r2 k) st
  | Group name r' =>
      m r' (λ st', k (Cursor (before st') (rest st') (pos st')
                        ((name, substring 0 (pos st' - pos st) (rest st)) :: groups st')))
        st
  end.

Record Match := MkMatch {
  m_start : nat;
  m_end : nat;
  m_groups : list (string * string)
}.

Fixpoint lookup_group (name : string) (gs : list (string * string)) : string :=
  match gs with
  | [] => EmptyString
  | (n, text) :: gs' => if bool_decide (n = name) then text else lookup_group name gs'
  end.

(** [mt.group(name)] *)
Definition group (mt : Match) (name : string) : string := lookup_group name (m_groups mt).

Definition match_at (r : regex) (b : option ascii) (n : nat) (s : string) : option Match :=
  (λ st, MkMatch n (pos st) (groups st)) <$> m r Some (Cursor b s n []).

Fixpoint search_from (r : regex) (b : option ascii) (n : nat) (s : string) : option Match :=
  match match_at r b n s with
  | Some mt => Some mt
  | None =>
      match s with
      | String c s' => search_from r (Some c) (S n) s'
      | EmptyString => None
      end
  end.

(** [re.search(pattern, s, re.MULTILINE)] *)
Definition search (r : regex) (s : string) : option Match := search_from r None O s.

(** [pattern.finditer(s)]: the successive non-overlapping matches, left to
    right.  After a match the scan resumes at its end: [skip] counts the
    positions still covered by the last match.  (No pattern of the script
    matches the empty string, so the library's rule for empty matches is not
    modelled.) *)
Fixpoint finditer_from (r : regex) (b : option ascii) (n : nat) (skip : nat)
    (s : string) : list Match :=
  match skip with
  | S skip' =>
      match s with
      | String c s' => finditer_from r (Some c) (S n) skip' s'
      | EmptyString => []
      end
  | O =>
      match match_at r b n s with
      | Some mt =>
          mt :: match s with
                | String c s' => finditer_from r (Some c) (S n) (m_end mt - n - 1) s'
                | EmptyString => []
                end
      | None =>
          match s with
          | String c s' => finditer_from r (Some c) (S n) O s'
          | EmptyString => []
          end
      end
  end.

Definition finditer (r : regex) (s : string) : list Match := finditer_from r None O O s.

(** The text of a pattern that matches [s] literally, as [re.escape(s)] does. *)
Fixpoint escape (s : string) : regex :=
  match s with
  | EmptyString => Eps
  | String c s' => Cat (Chr c) (escape s')
  end.

End Re.

Import Re.

Declare Scope re_scope.
Delimit Scope re_scope with re.
Bind Scope re_scope with regex.
Infix "⋅" := Cat (at level 41, right associativity) : re_scope.
Notation "\s+" := (Rep Space 1 None) : re_scope.
Notation "\s*" := (Rep Space 0 None) : re_scope.
Notation "\d+" := (Rep Digit 1 None) : re_scope.
Notation "\d{ n }" := (Rep Digit n%nat (Some n%nat)) (n at level 0) : re_scope.
Notation "^^" := Bol : re_scope.
Notation "$$" := Eol : re_scope.

(** ** [datetime.date.fromisoformat]

    The standard library's calendar: years 1 to 9999, the Gregorian leap-year
    rule.  The pattern only ever passes strings of the shape [YYYY-MM-DD];
    every other string is rejected here ([None] is [ValueError]). *)

Definition is_leap (year : Z) : bool :=
  (year mod 4 =? 0) && (negb (year mod 100 =? 0) || (year mod 400 =? 0)).

Definition days_in_month (year month : Z) : Z :=
  if (month =? 2) && is_leap year then 29
  else nth (Z.to_nat month) [0; 31; 28; 31; 30; 31; 30; 31; 31; 30; 31; 30; 31] 0.

Definition date_fromisoformat (s : string) : option (Z * Z * Z) :=
  if bool_decide (String.length s = 10%nat ∧ String.get 4 s = Some "-"%char
                  ∧ String.get 7 s = Some "-"%char) then
    year ← int (substring 0 4 s);
    month ← int (substring 5 2 s);
    day ← int (substring 8 2 s);
    if (1 <=? year) && (year <=? 9999) && (1 <=? month) && (month <=? 12)
       && (1 <=? day) && (day <=? days_in_month year month)
    then Some (year, month, day) else None
  else None.

(** ** Outcomes and the file system *)

Inductive exn :=
| ValueError (msg : string)   (* raised by the script, with its message *)
| LibraryError.               (* raised inside a library call: by [read_text],
                                 [write_text], and by [int] in [parse_semver] *)

Inductive outcome (A : Type) :=
| Return (a : A)
| Raise (e : exn).
Arguments Return {A} a.
Arguments Raise {A} e.

Definition Path := string.
Definition FileSystem := Path → option string.

Definition IO (A : Type) : Type := FileSystem → outcome A.

Global Instance IO_ret : MRet IO := λ A a _, Return a.
Global Instance IO_bind : MBind IO := λ A B f c fs,
  match c fs with
  | Return a => f a fs
  | Raise e => Raise e
  end.

Definition raise {A} (e : exn) : IO A := λ _, Raise e.

(** [path.read_text(encoding="utf-8")] *)
Definition read_text (path : Path) : IO string := λ fs,
  match fs path with
  | Some content => Return content
  | None => Raise LibraryError
  end.

(** ** The script *)

Definition HEADING_RE : regex :=
  (^^ ⋅ escape "##" ⋅ \s+
      ⋅ Group "version" (\d+ ⋅ Chr "." ⋅ \d+ ⋅ Chr "." ⋅ \d+)
      ⋅ \s+ ⋅ Chr "-" ⋅ \s+
      ⋅ Group "date" (\d{4} ⋅ Chr "-" ⋅ \d{2} ⋅ Chr "-" ⋅ \d{2})
      ⋅ \s* ⋅ $$)%re.

Definition semver : Type := Z * Z * Z.

(** The comparison [a >= b] of two triples of integers. *)
Definition tuple_ge (a b : semver) : bool :=
  let '(a1, a2, a3) := a in
  let '(b1, b2, b3) := b in
  (b1 <? a1) || (b1 =? a1) && ((b2 <? a2) || (b2 =? a2) && (b3 <=? a3)).

Definition parse_semver (version : string) : option semver :=
  match split "." version with
  | [major; minor; patch] =>
      a ← int major; b ← int minor; c ← int patch; Some (a, b, c)
  | _ => None
  end.

Definition load_headings (path : Path) : IO (list (string * string)) :=
  content ← read_text path;
  mret ((λ mt, (group mt "version", group mt "date")) <$> finditer HEADING_RE content).

(** One iteration of the loop of [validate_changelog]: either the function
    returns ([inl]) or the loop goes on with the updated [seen] and
    [previous_version] ([inr]). *)
Definition loop_body (seen : gset string) (previous_version : option semver)
    (heading : string * string)
    : outcome (bool * string) + gset string * option semver :=
  let '(version, date_value) := heading in
  if bool_decide (version ∈ seen) then
    inl (Return (false, "Duplicate changelog version heading found: " +:+ version))
  else
    let seen := {[version]} ∪ seen in
    match date_fromisoformat date_value with
    | None =>
        inl (Return (false, "Invalid changelog date for " +:+ version +:+ ": " +:+ date_value))
    | Some _ =>
        match parse_semver version with
        | None => inl (Raise LibraryError)
        | Some semver =>
            if match previous_version with
               | Some previous => tuple_ge semver previous
               | None => false
               end
            then inl (Return (false, "Changelog versions must be strictly descending (newest first)."))
            else inr (seen, Some semver)
        end
    end.

Fixpoint for_headings (seen : gset string) (previous_version : option semver)
    (headings : list (string * string)) (after : outcome (bool * string))
    : outcome (bool * string) :=
  match headings with
  | [] => after
  | heading :: headings' =>
      match loop_body seen previous_version heading with
      | inl result => result
      | inr (seen', previous_version') => for_headings seen' previous_version' headings' after
      end
  end.

Definition validate_changelog (path : Path) : IO (bool * string) :=
  content ← read_text path;
  if negb (startswith content "# Changelog") then
    mret (false, "CHANGELOG.md must start with '# Changelog'.")
  else
    headings ← load_headings path;
    match headings with
    | [] => mret (false, "No release headings found. Expected: '## X.Y.Z - YYYY-MM-DD'.")
    | first :: _ => λ _, for_headings ∅ None headings (Return (true, first.1))
    end.

Definition latest_version (path : Path) : IO string :=
  '(ok, info) ← validate_changelog path;
  if negb ok then raise (ValueError info) else mret info.

Definition release_pattern (version : string) : regex :=
  (^^ ⋅ escape "##" ⋅ \s+ ⋅ escape version ⋅ \s+ ⋅ Chr "-" ⋅ \s+
      ⋅ \d{4} ⋅ Chr "-" ⋅ \d{2} ⋅ Chr "-" ⋅ \d{2} ⋅ \s* ⋅ $$)%re.

Definition any_release_pattern : regex :=
  (^^ ⋅ escape "##" ⋅ \s+ ⋅ \d+ ⋅ Chr "." ⋅ \d+ ⋅ Chr "." ⋅ \d+ ⋅ \s+ ⋅ Chr "-" ⋅ \s+
      ⋅ \d{4} ⋅ Chr "-" ⋅ \d{2} ⋅ Chr "-" ⋅ \d{2} ⋅ \s* ⋅ $$)%re.

Definition extract_release_notes (path : Path) (version : string) : IO string :=
  content ← read_text path;
  match search (release_pattern version) content with
  | None => raise (ValueError ("No changelog entry for " +:+ version))
  | Some match_ =>
      let start := m_end match_ in
      let next_match := search any_release_pattern (drop_str start content) in
      let end_ :=
        match next_match with
        | Some next => (start + m_start next)%nat
        | None => String.length content
        end in
      let notes := strip (slice content start end_) in
      mret (if bool_decide (notes = "") then "Release v" +:+ version else notes)
  end.

(** ** What a match is, declaratively *)

Fixpoint last_char (b : option ascii) (t : string) : option ascii :=
  match t with
  | EmptyString => b
  | String c t' => last_char (Some c) t'
  end.

Fixpoint all_chars (p : ascii → bool) (t : string) : bool :=
  match t with
  | EmptyString => true
  | String c t' => p c && all_chars p t'
  end.

(** [Matches r b t s g]: after the character [b], the pattern [r] matches the
    text [t] when [s] follows it, and records the groups [g]. *)
Inductive Matches : regex → option ascii → string → string → list (string * string) → Prop :=
| M_Eps b s : Matches Eps b "" s []
| M_Bol b s : at_bol b = true → Matches Bol b "" s []
| M_Eol b s : at_eol s = true → Matches Eol b "" s []
| M_Chr c b s : Matches (Chr c) b (String c "") s []
| M_Rep c lo hi b t s :
    all_chars (cls_mem c) t = true →
    (lo ≤ String.length t)%nat →
    (∀ h, hi = Some h → (String.length t ≤ h)%nat) →
    Matches (Rep c lo hi) b t s []
| M_Cat r1 r2 b t1 t2 s g1 g2 :
    Matches r1 b t1 (t2 +:+ s) g1 →
    Matches r2 (last_char b t1) t2 s g2 →
    Matches (Cat r1 r2) b (t1 +:+ t2) s (g2 ++ g1)
| M_Group name r b t s g :
    Matches r b t s g → Matches (Group name r) b t s ((name, t) :: g).

(** A non-empty run of decimal digits. *)
Definition is_digits (t : string) : bool :=
  all_chars isdecimal t && negb (bool_decide (t = "")).

(** The shape [\d+\.\d+\.\d+] of the group [version]. *)
Definition version_shape (v : string) : Prop :=
  ∃ a b c, v = a +:+ "." +:+ b +:+ "." +:+ c
    ∧ is_digits a = true ∧ is_digits b = true ∧ is_digits c = true.

(** The shape [\d{4}-\d{2}-\d{2}] of the group [date]. *)
Definition date_shape (d : string) : Prop :=
  ∃ y mo da, d = y +:+ "-" +:+ mo +:+ "-" +:+ da
    ∧ all_chars isdecimal y = true ∧ String.length y = 4%nat
    ∧ all_chars isdecimal mo = true ∧ String.length mo = 2%nat
    ∧ all_chars isdecimal da = true ∧ String.length da = 2%nat.

(** ** Notions of the specification *)

(** A heading, as [load_headings] returns it. *)
Definition heading : Type := string * string.

Definition ERR_TITLE : string := "CHANGELOG.md must start with '# Changelog'.".
Definition ERR_NO_HEADINGS : string :=
  "No release headings found. Expected: '## X.Y.Z - YYYY-MM-DD'.".
Definition ERR_ORDER : string :=
  "Changelog versions must be strictly descending (newest first).".
Definition err_duplicate (version : string) : string :=
  "Duplicate changelog version heading found: " +:+ version.
Definition err_date (version date_value : string) : string :=
  "Invalid changelog date for " +:+ version +:+ ": " +:+ date_value.
Definition err_not_found (version : string) : string :=
  "No changelog entry for " +:+ version.

Definition valid_date (h : heading) : Prop := is_Some (date_fromisoformat h.2).

(** [version_lt a b]: both versions are numeric triples and the triple of [a]
    is strictly below that of [b]; [version_le] likewise, for "at most". *)
Definition version_lt (a b : string) : Prop :=
  ∃ ta tb, parse_semver a = Some ta ∧ parse_semver b = Some tb ∧ tuple_ge ta tb = false.
Definition version_le (a b : string) : Prop :=
  ∃ ta tb, parse_semver a = Some ta ∧ parse_semver b = Some tb ∧ tuple_ge tb ta = true.

(** Strictly descending, top to bottom: every version is below the one just
    above it. *)
Definition descending (versions : list string) : Prop :=
  ∀ i a b, versions !! i = Some a → versions !! S i = Some b → version_lt b a.

(** The state of the loop of [validate_changelog] after the headings [hs], when
    every one of them passes the three checks; [None] when one of them makes
    the function return. *)
Fixpoint loop_state (seen : gset string) (previous_version : option semver)
    (hs : list heading) : option (gset string * option semver) :=
  match hs with
  | [] => Some (seen, previous_version)
  | h :: hs' =>
      match loop_body seen previous_version h with
      | inl _ => None
      | inr (seen', previous_version') => loop_state seen' previous_version' hs'
      end
  end.

(** The lines of a text: what stands between its line feeds. *)
Definition lines (s : string) : list string := split LF s.

(** A line matches a pattern when the pattern matches that line taken alone. *)
Definition line_matches (r : regex) (line : string) : bool :=
  bool_decide (is_Some (search r line)).

(** The release notes as section 4.3 of the specification words them, line by
    line: the text from the end of the first heading line of [version] up to
    the start of the next line that is a release heading (of any version), or
    up to the end of the document; trimmed; replaced by a placeholder when
    empty. *)
Fixpoint spec_body (ls : list string) : string :=
  match ls with
  | [] => ""
  | l :: ls' =>
      String LF (if line_matches any_release_pattern l then "" else l +:+ spec_body ls')
  end.

Fixpoint spec_find_body (version : string) (ls : list string) : option string :=
  match ls with
  | [] => None
  | l :: ls' =>
      if line_matches (release_pattern version) l then Some (spec_body ls')
      else spec_find_body version ls'
  end.

Definition spec_release_notes (content version : string) : outcome string :=
  match spec_find_body version (lines content) with
  | None => Raise (ValueError (err_not_found version))
  | Some body =>
      let notes := strip body in
      Return (if bool_decide (notes = "") then "Release v" +:+ version else notes)
  end.

(** What [load_headings] keeps of a match. *)
Definition heading_of_match (mt : Match) : heading :=
  (group mt "version", group mt "date").

(** The headings of a text: what [load_headings] returns for a file with that
    content. *)
Definition headings_of (content : string) : list heading :=
  heading_of_match <$> finditer HEADING_RE content.

(** ** Example documents *)

Definition CHANGELOG : Path := "CHANGELOG.md".

(** A file system holding one file. *)
Definition single_file (path : Path) (content : string) : FileSystem :=
  λ p, if bool_decide (p = path) then Some content else None.

(** The example of section 8 of the specification. *)
Definition doc_example : string :=
"# Changelog

## 2.0.0 - 2024-06-01
Breaking change.

## 1.0.0 - 2024-01-01
Initial release.
".

(** The same with the two sections swapped. *)
Definition doc_ascending : string :=
"# Changelog

## 1.0.0 - 2024-01-01
Initial release.

## 2.0.0 - 2024-06-01
Breaking change.
".

Definition doc_ten_above_two : string :=
"# Changelog

## 10.0.0 - 2024-06-01
Tenth major release.

## 2.0.0 - 2024-01-01
Second major release.
".

(** The version 1.0.0 twice, one heading right under the other. *)
Definition doc_repeated : string :=
"# Changelog

## 1.0.0 - 2024-06-01
Second take.

## 1.0.0 - 2024-01-01
First take.
".

(** An ascending pair of headings above a heading with the date 2024-02-30. *)
Definition doc_bad_date_after_ascent : string :=
"# Changelog

## 1.0.0 - 2024-01-01
## 2.0.0 - 2024-01-02
## 0.5.0 - 2024-02-30
".

(** A descending pair of headings above a heading with the date 2024-02-30. *)
Definition doc_bad_date : string :=
"# Changelog

## 2.0.0 - 2024-01-02
## 1.0.0 - 2024-01-01
## 0.5.0 - 2024-02-30
".

(** Somewhere in the list a version is not below the version just above it. *)
Definition adjacent_violation (versions : list string) : Prop :=
  ∃ i a b, versions !! i = Some a ∧ versions !! S i = Some b ∧ version_le a b.

(** A heading broken across two lines: the version on one line, the dash and
    the date on the next. *)
Definition doc_only_broken : string :=
"# Changelog

## 1.0.0
- 2024-01-01
".

Definition doc_broken_heading : string :=
"# Changelog

## 2.0.0 - 2024-06-01
Breaking change.

## 1.0.0
- 2024-01-01
".

(** A broken heading above the two headings of [doc_example]. *)
Definition doc_broken_on_top : string :=
"# Changelog

## 9.9.9
- 2024-12-31

## 2.0.0 - 2024-06-01
Breaking change.

## 1.0.0 - 2024-01-01
Initial release.
".

(** Two headings for 1.0.0 with a broken heading between them. *)
Definition doc_repeated_broken : string :=
"# Changelog

## 1.0.0 - 2024-06-01
Second take.

## 0.9.0
- 2024-03-01

## 1.0.0 - 2024-01-01
First take.
".

(** Lines that look like headings and are not: a version of two parts, a date
    with one-digit fields, an [Unreleased] section. *)
Definition doc_near_misses : string :=
"# Changelog

## Unreleased
Work in progress.

## 1.0 - 2024-01-01
Two parts.

## 1.0.0 - 2024-1-1
Short date.
".

Definition doc_near_misses_in_body : string :=
"# Changelog

## 2.0.0 - 2024-06-01
Breaking change.
## Unreleased
## 1.0 - 2024-01-01
## 1.0.0 - 2024-1-1
More.

## 1.0.0 - 2024-01-01
Initial release.
".

(** ** Headings line by line

    For the comparison of the patterns, which see the whole text, with the
    line-by-line reading of the specification. *)

Definition spaces (t : string) : Prop := all_chars isspace t = true.

Definition no_lf (t : string) : Prop :=
  all_chars (λ c, negb (bool_decide (c = LF))) t = true.

(** The text of a heading: [##], the version (a text satisfying [P]), a dash
    and a date, separated by non-empty runs of white space and followed by any
    run of white space. *)
Definition heading_text (P : string → Prop) (t : string) : Prop :=
  ∃ ws1 v ws2 ws3 d ws4,
    t = "##" +:+ ws1 +:+ v +:+ ws2 +:+ "-" +:+ ws3 +:+ d +:+ ws4
    ∧ spaces ws1 ∧ ws1 ≠ "" ∧ P v ∧ spaces ws2 ∧ ws2 ≠ "" ∧ spaces ws3 ∧ ws3 ≠ ""
    ∧ date_shape d ∧ spaces ws4.

(** A pattern [r] is a heading pattern for the versions [P] when it matches,
    at the start of a line and up to the end of a line, exactly the heading
    texts for [P]. *)
Definition heading_pattern (r : regex) (P : string → Prop) : Prop :=
  ∀ b t s, (∃ g, Matches r b t s g)
           ↔ at_bol b = true ∧ at_eol s = true ∧ heading_text P t.

(** The beginnings of a heading that end a line: [##] alone, [##] and a
    version, [##], a version and the dash.  A line of one of these forms,
    followed by lines that supply the rest, is what the patterns of the script
    accept as a heading although no line of the text is one. *)
Definition BROKEN_AFTER_HASHES : regex :=
  (^^ ⋅ escape "##" ⋅ \s* ⋅ $$)%re.
Definition BROKEN_AFTER_VERSION : regex :=
  (^^ ⋅ escape "##" ⋅ \s+ ⋅ \d+ ⋅ Chr "." ⋅ \d+ ⋅ Chr "." ⋅ \d+ ⋅ \s* ⋅ $$)%re.
Definition BROKEN_AFTER_DASH : regex :=
  (^^ ⋅ escape "##" ⋅ \s+ ⋅ \d+ ⋅ Chr "." ⋅ \d+ ⋅ Chr "." ⋅ \d+ ⋅ \s+ ⋅ Chr "-" ⋅ \s* ⋅ $$)%re.

Definition broken_heading_line (l : string) : bool :=
  line_matches BROKEN_AFTER_HASHES l || line_matches BROKEN_AFTER_VERSION l
  || line_matches BROKEN_AFTER_DASH l.

(** No line of the text is the beginning of a broken heading. *)
Definition no_broken_headings (content : string) : Prop :=
  Forall (λ l, broken_heading_line l = false) (lines content).

(** The text with the given lines. *)
Fixpoint unlines (ls : list string) : string :=
  match ls with
  | [] => ""
  | [l] => l
  | l :: ls' => l +:+ String LF (unlines ls')
  end.

(** [matches_here r b s]: after the character [b], the pattern [r] matches a
    prefix of [s]. *)
Definition matches_here (r : regex) (b : option ascii) (s : string) : Prop :=
  ∃ t s' g, s = t +:+ s' ∧ Matches r b t s' g.

(** The text that follows the lines [ls], each preceded by its line feed. *)
Fixpoint post_of (ls : list string) : string :=
  match ls with
  | [] => ""
  | l :: ls' => String LF (l +:+ post_of ls')
  end.

(** The text up to the next release heading, as [extract_release_notes] cuts
    it from the text after the heading it found. *)
Definition until_next (s : string) : string :=
  match search any_release_pattern s with
  | Some next => substring 0 (m_start next) s
  | None => s
  end.

(** The headings as section 4.1 of the specification words them: one for
    every line that matches the heading pattern, in order. *)
Definition heading_of_line (l : string) : option heading :=
  heading_of_match <$> search HEADING_RE l.

Definition spec_headings (content : string) : list heading :=
  omap heading_of_line (lines content).

(** [t] is a heading text with the version [v] and the date [d]. *)
Definition heading_parts (v d t : string) : Prop :=
  ∃ ws1 ws2 ws3 ws4,
    t = "##" +:+ ws1 +:+ v +:+ ws2 +:+ "-" +:+ ws3 +:+ d +:+ ws4
    ∧ spaces ws1 ∧ ws1 ≠ "" ∧ version_shape v ∧ spaces ws2 ∧ ws2 ≠ "" ∧ spaces ws3 ∧ ws3 ≠ ""
    ∧ date_shape d ∧ spaces ws4.

(** [starts_outside p x]: the text [x] does not begin with a character of the
    class [p]. *)
Definition starts_outside (p : ascii → bool) (x : string) : Prop :=
  match x with EmptyString => True | String c _ => p c = false end.

(** The characters of a version: digits and the dot. *)
Definition version_char (c : ascii) : bool := isdecimal c || bool_decide (c = "."%char).

(** The first line of the text is the title line, [# Changelog] and nothing
    else. *)
Definition has_title_line (content : string) : Prop :=
  head (lines content) = Some "# Changelog".

(** A title line that goes on after [# Changelog]. *)
Definition doc_long_title : string :=
"# Changelog of the project

## 1.0.0 - 2024-01-01
Initial release.
".

(** ** Where a heading stands in a text *)

(** [t] stands in [content] from the start of a line to the end of a line: it
    begins at the start of the text or after a line feed, and it ends at the
    end of the text or before a line feed. *)
Definition occurs_on_lines (t content : string) : Prop :=
  ∃ pre post, content = pre +:+ t +:+ post
    ∧ at_bol (last_char None pre) = true ∧ at_eol post = true.

(** The loop of [validate_changelog] reaches a heading on which
    [parse_semver] raises: the headings above it pass the three checks, and
    the heading itself passes the duplicate check and the date check. *)
Definition reaches_unparsed_version (content : string) : Prop :=
  ∃ pre h rest,
    headings_of content = pre ++ h :: rest
    ∧ NoDup pre.*1
    ∧ Forall valid_date pre
    ∧ descending pre.*1
    ∧ Forall (λ h, is_Some (parse_semver h.1)) pre
    ∧ (h.1 ∉ pre.*1)
    ∧ valid_date h
    ∧ parse_semver h.1 = None.

(** The text has no [#]. *)
Definition no_hash (t : string) : Prop :=
  all_chars (λ c, negb (bool_decide (c = "#"%char))) t = true.

(** The number that a run of decimal digits denotes. *)
Fixpoint decimal (s : string) : Z :=
  match s with
  | EmptyString => 0
  | String c s' => digit_value c * 10 ^ Z.of_nat (String.length s') + decimal s'
  end.

(** The number of occurrences of a character in a text: one less than the
    number of parts into which [split] cuts the text at that character. *)
Fixpoint count_char (c : ascii) (s : string) : nat :=
  match s with
  | EmptyString => 0
  | String x s' => (if bool_decide (x = c) then 1 else 0) + count_char c s'
  end.

(** ** [main]: the command line

    [main] is modelled from the namespace that [parser.parse_args()] returns
    on.  Besides reading files it prints on the two streams and writes one
    file, so a run is a function of a world: the file system, the paths that
    can be written, and the text printed so far on [sys.stdout] and
    [sys.stderr]. *)

(** The namespace of the parsed arguments: the flag [--latest-version], and
    the values of [--release-notes-version] and [--release-notes-output],
    [None] when the option is not given. *)
Record Namespace := {
  args_latest_version : bool;
  args_release_notes_version : option string;
  args_release_notes_output : option string
}.

Record World := {
  files : FileSystem;
  writable : Path → bool;
  stdout : string;
  stderr : string
}.

Definition Prog (A : Type) : Type := World → outcome A * World.

Global Instance Prog_ret : MRet Prog := λ A a w, (Return a, w).
Global Instance Prog_bind : MBind Prog := λ A B f c w,
  match c w with
  | (Return a, w') => f a w'
  | (Raise e, w') => (Raise e, w')
  end.

(** A computation that only reads the file system. *)
Definition lift {A} (c : IO A) : Prog A := λ w, (c (files w), w).

(** [print(text)] and [print(text, file=sys.stderr)]: the text and a line
    feed. *)
Definition print (text : string) : Prog unit := λ w,
  (Return (),
   {| files := files w; writable := writable w;
      stdout := stdout w +:+ text +:+ String LF ""; stderr := stderr w |}).

Definition print_stderr (text : string) : Prog unit := λ w,
  (Return (),
   {| files := files w; writable := writable w;
      stdout := stdout w; stderr := stderr w +:+ text +:+ String LF "" |}).

(** The file system after [data] has been written at [path]. *)
Definition fs_write (path : Path) (data : string) (fs : FileSystem) : FileSystem :=
  λ p, if bool_decide (p = path) then Some data else fs p.

(** [path.write_text(data, encoding="utf-8")]; where the file cannot be
    opened for writing the call raises and nothing changes. *)
Definition write_text (path : Path) (data : string) : Prog unit := λ w,
  if writable w path then
    (Return (),
     {| files := fs_write path data (files w); writable := writable w;
        stdout := stdout w; stderr := stderr w |})
  else (Raise LibraryError, w).

Section main.

(** [Path(text)]: the file that a path given on the command line names. *)
Variable Path_of : string → Path.

(** The tests [if args.release_notes_version] and
    [if not args.release_notes_output] take an option for given when it is
    neither [None] nor the empty string. *)
Definition main (args : Namespace) : Prog Z :=
  '(ok, info) ← lift (validate_changelog CHANGELOG);
  if negb ok then
    print_stderr info;; mret 1
  else if args_latest_version args then
    print info;; mret 0
  else
    match args_release_notes_version args with
    | Some (String _ _ as version) =>
        match args_release_notes_output args with
        | Some (String _ _ as output) =>
            notes ← lift (extract_release_notes CHANGELOG version);
            write_text (Path_of output) notes;;
            print ("Wrote release notes for v" +:+ version +:+ " to " +:+ output);;
            mret 0
        | _ =>
            print_stderr "--release-notes-output is required with --release-notes-version";;
            mret 1
        end
    | _ =>
        print ("CHANGELOG.md format is valid. Latest version: " +:+ info);; mret 0
    end.

End main.

(** * Proofs *)

(** ** Strings and the matcher *)

Section strings.
Implicit Types s t : string.

Lemma str_app_cons c s t : String c s +:+ t = String c (s +:+ t).
Proof. reflexivity. Qed.
Lemma str_app_nil_l s : "" +:+ s = s.
Proof. reflexivity. Qed.
Lemma str_app_nil_r s : s +:+ "" = s.
Proof. induction s as [|c s IH]; [done|]. by rewrite str_app_cons, IH. Qed.
Lemma app_assoc_str s1 s2 s3 : (s1 +:+ s2) +:+ s3 = s1 +:+ s2 +:+ s3.
Proof. induction s1 as [|c s IH]; [done|]. by rewrite !str_app_cons, IH. Qed.
Lemma length_app_str s1 s2 :
  String.length (s1 +:+ s2) = (String.length s1 + String.length s2)%nat.
Proof. induction s1 as [|c s IH]; [done|]. rewrite str_app_cons. simpl. by rewrite IH. Qed.
Lemma substring_app_l t s : substring 0 (String.length t) (t +:+ s) = t.
Proof.
  induction t as [|c t IH].
  - by destruct s.
  - rewrite str_app_cons. simpl. by rewrite IH.
Qed.
Lemma last_char_app b t1 t2 : last_char b (t1 +:+ t2) = last_char (last_char b t1) t2.
Proof. revert b. induction t1 as [|c t IH]; intros b; [done|]. rewrite str_app_cons. simpl. apply IH. Qed.
End strings.

Lemma greedy_sound p lo hi k g s : ∀ b n x,
  greedy p lo hi k g b n s = Some x →
  ∃ t s', s = t +:+ s' ∧ all_chars p t = true ∧ (lo ≤ String.length t)%nat
    ∧ (∀ h, hi = Some h → (String.length t ≤ h)%nat)
    ∧ k (Cursor (last_char b t) s' (n + String.length t) g) = Some x.
Proof.
  revert lo hi. induction s as [|c s IH]; intros lo hi b n x H.
  - simpl in H. destruct lo; [|done].
    exists "", "". simpl. rewrite Nat.add_0_r. repeat split; auto with lia.
  - simpl in H.
    assert (Hstop : (match lo with O => k (Cursor b (String c s) n g) | S _ => None end = Some x) →
       ∃ t s', String c s = t +:+ s' ∧ all_chars p t = true ∧ (lo ≤ String.length t)%nat
         ∧ (∀ h, hi = Some h → (String.length t ≤ h)%nat)
         ∧ k (Cursor (last_char b t) s' (n + String.length t) g) = Some x).
    { intros Hk. destruct lo; [|done]. exists "", (String c s). simpl. rewrite Nat.add_0_r.
      repeat split; auto with lia. }
    destruct (p c && negb (bool_decide (hi = Some 0%nat))) eqn:Hc; [|by apply Hstop].
    destruct (greedy p (Nat.pred lo) (Nat.pred <$> hi) k g (Some c) (S n) s) as [r|] eqn:Hg;
      [|by apply Hstop].
    simplify_eq. apply IH in Hg as (t & s' & -> & Ht & Hlo & Hhi & Hk).
    apply andb_true_iff in Hc as [Hpc Hhi0]. apply negb_true_iff, bool_decide_eq_false in Hhi0.
    exists (String c t), s'. simpl. rewrite Hpc, Ht.
    replace (n + S (String.length t))%nat with (S n + String.length t)%nat by lia.
    repeat split; auto with lia.
    intros h ->. destruct h; [done|]. specialize (Hhi h eq_refl). lia.
Qed.

Lemma m_sound r : ∀ k st x,
  m r k st = Some x →
  ∃ t s' g, rest st = t +:+ s' ∧ Matches r (before st) t s' g
    ∧ k (Cursor (last_char (before st) t) s' (pos st + String.length t) (g ++ groups st)) = Some x.
Proof.
  induction r as [| | |c|c lo hi|r1 IH1 r2 IH2|name r IH]; intros k [b s n gs] x H; simpl in *.
  - exists "", s, []. simpl. rewrite Nat.add_0_r. eauto using Matches.
  - destruct (at_bol b) eqn:?; [|done]. exists "", s, []. simpl. rewrite Nat.add_0_r. eauto using Matches.
  - destruct (at_eol s) eqn:?; [|done]. exists "", s, []. simpl. rewrite Nat.add_0_r. eauto using Matches.
  - destruct s as [|c' s]; [done|]. case_bool_decide; [|done]. subst c'.
    exists (String c ""), s, []. simpl. rewrite Nat.add_1_r. eauto using Matches.
  - apply greedy_sound in H as (t & s' & -> & Ht & Hlo & Hhi & Hk).
    exists t, s', []. eauto using Matches.
  - apply IH1 in H as (t1 & s1 & g1 & Hs & HM1 & H). simpl in *. subst s.
    apply IH2 in H as (t2 & s2 & g2 & Hs & HM2 & H). simpl in *. subst s1.
    exists (t1 +:+ t2), s2, (g2 ++ g1).
    rewrite app_assoc_str, last_char_app, length_app_str, Nat.add_assoc, <-(assoc_L (++)).
    eauto using Matches.
  - apply IH in H as (t & s' & g & Hs & HM & H). simpl in *. subst s.
    exists t, s', ((name, t) :: g).
    replace (n + String.length t - n)%nat with (String.length t) in H by lia.
    rewrite substring_app_l in H. eauto using Matches.
Qed.
Lemma greedy_complete p lo hi k g s : ∀ b n,
  greedy p lo hi k g b n s = None →
  ∀ t s', s = t +:+ s' → all_chars p t = true → (lo ≤ String.length t)%nat →
    (∀ h, hi = Some h → (String.length t ≤ h)%nat) →
    k (Cursor (last_char b t) s' (n + String.length t) g) = None.
Proof.
  revert lo hi. induction s as [|c s IH]; intros lo hi b n H t s' Hs Ht Hlo Hhi.
  - destruct t; [rewrite str_app_nil_l in Hs|by rewrite str_app_cons in Hs].
    simpl in *. subst s'. rewrite Nat.add_0_r. by destruct lo; [|lia].
  - simpl in H. destruct t as [|c' t].
    + rewrite str_app_nil_l in Hs. simpl in *. subst s'. rewrite Nat.add_0_r. destruct lo; [|lia].
      destruct (p c && _); [|done]. by destruct (greedy _ _ _ _ _ _ _ _).
    + rewrite str_app_cons in Hs. simplify_eq. simpl in Ht. apply andb_true_iff in Ht as [Hpc Ht].
      rewrite Hpc in H. simpl in H.
      case_bool_decide as Hh; [subst hi; specialize (Hhi _ eq_refl); simpl in Hhi; lia|].
      simpl in H.
      destruct (greedy p (Nat.pred lo) (Nat.pred <$> hi) k g (Some c') (S n) (t +:+ s')) eqn:Hg;
        [done|].
      simpl. replace (n + S (String.length t))%nat with (S n + String.length t)%nat by lia.
      eapply IH; eauto; simpl in *; [lia|].
      intros h Hh'. destruct hi as [[|h']|]; simplify_eq/=. specialize (Hhi _ eq_refl). lia.
Qed.

Lemma m_complete r : ∀ k st,
  m r k st = None →
  ∀ t s' g, rest st = t +:+ s' → Matches r (before st) t s' g →
    k (Cursor (last_char (before st) t) s' (pos st + String.length t) (g ++ groups st)) = None.
Proof.
  induction r as [| | |c|c lo hi|r1 IH1 r2 IH2|name r IH];
    intros k [b s n gs] H t s' g Hs HM; simpl in *; inversion HM; subst;
    rewrite ?str_app_cons, ?str_app_nil_l in *; simpl in *.
  - by rewrite Nat.add_0_r.
  - rewrite Nat.add_0_r. by match goal with Hb : at_bol _ = true |- _ => rewrite Hb in H end.
  - rewrite Nat.add_0_r. by match goal with Hb : at_eol _ = true |- _ => rewrite Hb in H end.
  - rewrite bool_decide_eq_true_2 in H by done. by rewrite Nat.add_1_r.
  - eapply greedy_complete in H; eauto.
  - rewrite app_assoc_str in *. rewrite last_char_app, length_app_str, Nat.add_assoc, <-(assoc_L (++)).
    eapply (IH1 _ (Cursor b (t1 +:+ t2 +:+ s') n gs)) in H; eauto.
    eapply (IH2 _ (Cursor _ _ _ _)) in H; eauto.
  - eapply (IH _ (Cursor b (t +:+ s') n gs)) in H; eauto. simpl in H.
    replace (n + String.length t - n)%nat with (String.length t) in H by lia.
    by rewrite substring_app_l in H.
Qed.
Lemma Matches_Cat_inv r1 r2 b t s g :
  Matches (Cat r1 r2) b t s g →
  ∃ t1 t2 g1 g2, t = t1 +:+ t2 ∧ g = g2 ++ g1
    ∧ Matches r1 b t1 (t2 +:+ s) g1 ∧ Matches r2 (last_char b t1) t2 s g2.
Proof. inversion 1; subst. eauto 10. Qed.

Lemma Matches_Group_inv name r b t s g :
  Matches (Group name r) b t s g → ∃ g', g = (name, t) :: g' ∧ Matches r b t s g'.
Proof. inversion 1; subst. eauto. Qed.

Lemma Matches_Chr_inv c b t s g : Matches (Chr c) b t s g → t = String c "" ∧ g = [].
Proof. by inversion 1. Qed.

Lemma Matches_Rep_inv c lo hi b t s g :
  Matches (Rep c lo hi) b t s g →
  g = [] ∧ all_chars (cls_mem c) t = true ∧ (lo ≤ String.length t)%nat
    ∧ (∀ h, hi = Some h → (String.length t ≤ h)%nat).
Proof. by inversion 1. Qed.

Lemma Matches_Eps_inv b t s g : Matches Eps b t s g → t = "" ∧ g = [].
Proof. by inversion 1. Qed.

Lemma Matches_Bol_inv b t s g : Matches Bol b t s g → t = "" ∧ g = [] ∧ at_bol b = true.
Proof. by inversion 1. Qed.

Lemma Matches_Eol_inv b t s g : Matches Eol b t s g → t = "" ∧ g = [] ∧ at_eol s = true.
Proof. by inversion 1. Qed.

(** Take a hypothesis [Matches r ...] apart along the structure of [r]. *)
Ltac inv_matches :=
  repeat match goal with
  | H : Matches (Cat _ _) _ _ _ _ |- _ =>
      apply Matches_Cat_inv in H as (? & ? & ? & ? & -> & -> & ? & ?)
  | H : Matches (Group _ _) _ _ _ _ |- _ => apply Matches_Group_inv in H as (? & -> & ?)
  | H : Matches (Chr _) _ _ _ _ |- _ => apply Matches_Chr_inv in H as [-> ->]
  | H : Matches (Rep _ _ _) _ _ _ _ |- _ => apply Matches_Rep_inv in H as (-> & ? & ? & ?)
  | H : Matches Eps _ _ _ _ |- _ => apply Matches_Eps_inv in H as [-> ->]
  | H : Matches Bol _ _ _ _ |- _ => apply Matches_Bol_inv in H as (-> & -> & ?)
  | H : Matches Eol _ _ _ _ |- _ => apply Matches_Eol_inv in H as (-> & -> & ?)
  end.

Lemma is_digits_intro t :
  all_chars isdecimal t = true → (1 ≤ String.length t)%nat → is_digits t = true.
Proof.
  intros Ht Hl. unfold is_digits. rewrite Ht. simpl.
  apply negb_true_iff, bool_decide_eq_false. intros ->. simpl in Hl. lia.
Qed.

Lemma version_re_shape b t s g :
  Matches (\d+ ⋅ Chr "." ⋅ \d+ ⋅ Chr "." ⋅ \d+)%re b t s g → g = [] ∧ version_shape t.
Proof.
  intros H. inv_matches. split; [done|].
  match goal with
  | |- version_shape (?a +:+ _ +:+ ?b +:+ _ +:+ ?c) => exists a, b, c
  end.
  auto using is_digits_intro.
Qed.

Lemma date_re_shape b t s g :
  Matches (\d{4} ⋅ Chr "-" ⋅ \d{2} ⋅ Chr "-" ⋅ \d{2})%re b t s g → g = [] ∧ date_shape t.
Proof.
  intros H. inv_matches. split; [done|].
  match goal with
  | |- date_shape (?a +:+ _ +:+ ?b +:+ _ +:+ ?c) => exists a, b, c
  end.
  repeat match goal with
  | H : ∀ h, Some ?n = Some h → _ |- _ => specialize (H _ eq_refl)
  end.
  repeat split; auto with lia.
Qed.

Lemma HEADING_RE_groups b t s g :
  Matches HEADING_RE b t s g →
  ∃ v d, g = [("date", d); ("version", v)] ∧ version_shape v ∧ date_shape d.
Proof.
  unfold HEADING_RE. simpl. intros H.
  repeat match goal with
  | H : Matches (Cat _ _) _ _ _ _ |- _ =>
      apply Matches_Cat_inv in H as (? & ? & ? & ? & -> & -> & ? & ?)
  | H : Matches (Group "version" _) _ _ _ _ |- _ =>
      apply Matches_Group_inv in H as (? & -> & [-> ?]%version_re_shape)
  | H : Matches (Group "date" _) _ _ _ _ |- _ =>
      apply Matches_Group_inv in H as (? & -> & [-> ?]%date_re_shape)
  | H : Matches (Chr _) _ _ _ _ |- _ => apply Matches_Chr_inv in H as [-> ->]
  | H : Matches (Rep _ _ _) _ _ _ _ |- _ => apply Matches_Rep_inv in H as (-> & ? & ? & ?)
  | H : Matches Eps _ _ _ _ |- _ => apply Matches_Eps_inv in H as [-> ->]
  | H : Matches Bol _ _ _ _ |- _ => apply Matches_Bol_inv in H as (-> & -> & ?)
  | H : Matches Eol _ _ _ _ |- _ => apply Matches_Eol_inv in H as (-> & -> & ?)
  end.
  simpl. eauto.
Qed.

Lemma finditer_from_match r s : ∀ b n skip mt,
  mt ∈ finditer_from r b n skip s → ∃ b' n' s', match_at r b' n' s' = Some mt.
Proof.
  induction s as [|c s IH]; intros b n skip mt; simpl.
  - destruct skip; [|by intros ?%elem_of_nil].
    destruct (match_at r b n "") eqn:E; [|by intros ?%elem_of_nil].
    intros ->%list_elem_of_singleton. eauto.
  - destruct skip; [|by apply IH].
    destruct (match_at r b n (String c s)) eqn:E; [|by apply IH].
    intros [->|?]%elem_of_cons; eauto.
Qed.

Lemma match_at_Matches r b n s mt :
  match_at r b n s = Some mt →
  ∃ t s', s = t +:+ s' ∧ Matches r b t s' (m_groups mt)
    ∧ m_start mt = n ∧ m_end mt = (n + String.length t)%nat.
Proof.
  unfold match_at. intros H. apply fmap_Some in H as (st & H & ->).
  apply m_sound in H as (t & s' & g & Hs & HM & H). simpl in *. simplify_eq/=.
  rewrite (right_id_L [] (++)). eauto 10.
Qed.

(** ** What the pattern captures *)

Lemma split_digits_dot a r :
  all_chars isdecimal a = true → split "." (a +:+ String "." r) = a :: split "." r.
Proof.
  induction a as [|c a IH]; intros Ha.
  - by rewrite str_app_nil_l.
  - simpl in Ha. apply andb_true_iff in Ha as [Hc Ha]. rewrite str_app_cons. simpl.
    rewrite IH by done. rewrite bool_decide_eq_false_2; [done|].
    intros ->. by vm_compute in Hc.
Qed.

Lemma split_digits a : all_chars isdecimal a = true → split "." a = [a].
Proof.
  induction a as [|c a IH]; intros Ha; [done|].
  simpl in Ha. apply andb_true_iff in Ha as [Hc Ha]. simpl. rewrite IH by done.
  rewrite bool_decide_eq_false_2; [done|]. intros ->. by vm_compute in Hc.
Qed.

Lemma int_digits_is_Some s : ∀ acc, all_chars isdecimal s = true → is_Some (int_digits acc s).
Proof.
  induction s as [|c s IH]; intros acc Hs; simpl; [eauto|].
  simpl in Hs. apply andb_true_iff in Hs as [-> Hs]. auto.
Qed.

Lemma int_is_Some s :
  is_digits s = true → (String.length s ≤ int_max_str_digits)%nat → is_Some (int s).
Proof.
  unfold is_digits. intros [Hs Hne]%andb_true_iff Hl.
  destruct s as [|c s]; [done|]. unfold int. rewrite (proj2 (Nat.leb_le _ _) Hl).
  by apply int_digits_is_Some.
Qed.

Lemma is_digits_all s : is_digits s = true → all_chars isdecimal s = true.
Proof. unfold is_digits. by intros [? _]%andb_true_iff. Qed.

Lemma headings_of_shape content h :
  h ∈ headings_of content → version_shape h.1 ∧ date_shape h.2.
Proof.
  unfold headings_of, finditer. intros (mt & -> & Hmt)%list_elem_of_fmap.
  apply finditer_from_match in Hmt as (b & n & s & Hmt).
  apply match_at_Matches in Hmt as (t & s' & _ & HM & _).
  apply HEADING_RE_groups in HM as (v & d & Hg & Hv & Hd).
  unfold heading_of_match, group. rewrite Hg. simpl. auto.
Qed.

(** ** The functions on a readable file *)

Lemma load_headings_eq fs path content :
  fs path = Some content → load_headings path fs = Return (headings_of content).
Proof.
  intros Hfs. unfold load_headings, mbind, IO_bind, read_text. by rewrite Hfs.
Qed.

Lemma validate_changelog_eq fs path content :
  fs path = Some content →
  validate_changelog path fs =
    if negb (startswith content "# Changelog") then Return (false, ERR_TITLE)
    else match headings_of content with
         | [] => Return (false, ERR_NO_HEADINGS)
         | first :: _ => for_headings ∅ None (headings_of content) (Return (true, first.1))
         end.
Proof.
  intros Hfs. unfold validate_changelog, mbind, IO_bind at 1. unfold read_text at 1.
  rewrite Hfs. destruct (negb _); [done|].
  unfold IO_bind. rewrite (load_headings_eq _ _ _ Hfs). by destruct (headings_of content).
Qed.

(** ** Comparison of version triples *)

Ltac tuple_solve :=
  repeat match goal with
  | t : semver |- _ => destruct t as [[? ?] ?]
  end;
  unfold tuple_ge in *;
  repeat match goal with
  | H : _ = false |- _ => apply not_true_iff_false in H
  | |- _ = false => apply not_true_iff_false
  end;
  rewrite ?orb_true_iff, ?andb_true_iff, ?Z.ltb_lt, ?Z.eqb_eq, ?Z.leb_le in *;
  lia.

Lemma tuple_ge_refl (a : semver) : tuple_ge a a = true.
Proof. tuple_solve. Qed.

Lemma tuple_lt_ge (a b : semver) : tuple_ge a b = false → tuple_ge b a = true.
Proof. intros. tuple_solve. Qed.

Lemma tuple_ge_lt_trans (a b c : semver) :
  tuple_ge b a = true → tuple_ge b c = false → tuple_ge c a = true.
Proof. intros. tuple_solve. Qed.

Lemma version_le_refl v : is_Some (parse_semver v) → version_le v v.
Proof. intros [t Ht]. exists t, t. auto using tuple_ge_refl. Qed.

Lemma version_le_lt_trans a b c : version_le a b → version_lt b c → version_le a c.
Proof.
  intros (ta & tb & Ha & Hb & Hab) (tb' & tc & Hb' & Hc & Hbc). simplify_eq.
  exists ta, tc. eauto using tuple_ge_lt_trans.
Qed.

Lemma descending_tail v vs : descending (v :: vs) → descending vs.
Proof. intros H i a b Ha Hb. by apply (H (S i)). Qed.

Lemma descending_head v w vs : descending (v :: w :: vs) → version_lt w v.
Proof. intros H. by apply (H O). Qed.

Lemma descending_max vs : ∀ v,
  is_Some (parse_semver v) → descending (v :: vs) → ∀ w, w ∈ v :: vs → version_le w v.
Proof.
  induction vs as [|v' vs IH]; intros v Hv Hd w Hw.
  - apply list_elem_of_singleton in Hw as ->. by apply version_le_refl.
  - apply elem_of_cons in Hw as [->|Hw]; [by apply version_le_refl|].
    pose proof (descending_head _ _ _ Hd) as Hlt.
    apply version_le_lt_trans with v'; [|done].
    apply IH; [|by eapply descending_tail|done].
    destruct Hlt as (? & ? & -> & _). eauto.
Qed.

(** ** The loop of [validate_changelog] *)

Local Arguments loop_body : simpl never.

Lemma loop_body_duplicate seen prev v d :
  v ∈ seen → loop_body seen prev (v, d) = inl (Return (false, err_duplicate v)).
Proof. intros Hv. unfold loop_body. by rewrite bool_decide_eq_true_2. Qed.

Lemma loop_body_date seen prev v d :
  v ∉ seen → date_fromisoformat d = None →
  loop_body seen prev (v, d) = inl (Return (false, err_date v d)).
Proof. intros Hv Hd. unfold loop_body. by rewrite bool_decide_eq_false_2, Hd. Qed.

Lemma loop_body_order seen v d t p :
  v ∉ seen → is_Some (date_fromisoformat d) → parse_semver v = Some t →
  tuple_ge t p = true →
  loop_body seen (Some p) (v, d) = inl (Return (false, ERR_ORDER)).
Proof.
  intros Hv [x Hd] Ht Hge. unfold loop_body. by rewrite bool_decide_eq_false_2, Hd, Ht, Hge.
Qed.

Lemma loop_body_next seen prev v d t :
  v ∉ seen → is_Some (date_fromisoformat d) → parse_semver v = Some t →
  (∀ p, prev = Some p → tuple_ge t p = false) →
  loop_body seen prev (v, d) = inr ({[v]} ∪ seen, Some t).
Proof.
  intros Hv [x Hd] Ht Hlt. unfold loop_body. rewrite bool_decide_eq_false_2, Hd, Ht by done.
  destruct prev as [p|]; [|done]. by rewrite (Hlt p).
Qed.

(** What an iteration can do, case by case. *)
Lemma loop_body_cases seen prev v d :
  (v ∈ seen ∧ loop_body seen prev (v, d) = inl (Return (false, err_duplicate v)))
  ∨ ((v ∉ seen) ∧ date_fromisoformat d = None
     ∧ loop_body seen prev (v, d) = inl (Return (false, err_date v d)))
  ∨ ((v ∉ seen) ∧ is_Some (date_fromisoformat d) ∧ parse_semver v = None
     ∧ loop_body seen prev (v, d) = inl (Raise LibraryError))
  ∨ (∃ t p, (v ∉ seen) ∧ is_Some (date_fromisoformat d) ∧ parse_semver v = Some t
     ∧ prev = Some p ∧ tuple_ge t p = true
     ∧ loop_body seen prev (v, d) = inl (Return (false, ERR_ORDER)))
  ∨ (∃ t, (v ∉ seen) ∧ is_Some (date_fromisoformat d) ∧ parse_semver v = Some t
     ∧ (∀ p, prev = Some p → tuple_ge t p = false)
     ∧ loop_body seen prev (v, d) = inr ({[v]} ∪ seen, Some t)).
Proof.
  destruct (decide (v ∈ seen)) as [Hv|Hv]; [by left; auto using loop_body_duplicate|].
  destruct (date_fromisoformat d) as [x|] eqn:Hd; [|by right; left; auto using loop_body_date].
  assert (is_Some (date_fromisoformat d)) as Hd' by (rewrite Hd; eauto).
  destruct (parse_semver v) as [t|] eqn:Ht.
  - destruct prev as [p|].
    + destruct (tuple_ge t p) eqn:Hge.
      * do 3 right. left. exists t, p. eauto 10 using loop_body_order.
      * do 4 right. exists t. repeat split; auto; [by intros ? [= <-]|].
        apply loop_body_next; auto. by intros ? [= <-].
    + do 4 right. exists t. repeat split; auto; [done|]. by apply loop_body_next.
  - do 2 right. left. repeat split; auto.
    unfold loop_body. by rewrite bool_decide_eq_false_2, Hd, Ht.
Qed.

Lemma for_headings_app pre : ∀ seen prev seen' prev' hs after,
  loop_state seen prev pre = Some (seen', prev') →
  for_headings seen prev (pre ++ hs) after = for_headings seen' prev' hs after.
Proof.
  induction pre as [|h pre IH]; intros seen prev seen' prev' hs after H; simpl in *.
  - by simplify_eq.
  - destruct (loop_body seen prev h) as [r|[s p]]; [done|]. by apply IH.
Qed.

Lemma loop_state_seen pre : ∀ seen prev seen' prev',
  loop_state seen prev pre = Some (seen', prev') →
  ∀ v, v ∈ seen' ↔ v ∈ seen ∨ v ∈ pre.*1.
Proof.
  induction pre as [|[w d] pre IH]; intros seen prev seen' prev' H v.
  - simpl in H. simplify_eq. rewrite fmap_nil, elem_of_nil. tauto.
  - cbn [loop_state] in H. rewrite fmap_cons, elem_of_cons. simpl.
    destruct (loop_body_cases seen prev w d)
      as [[? E]|[(? & ? & E)|[(? & ? & ? & E)|[(t & p & ? & ? & ? & ? & ? & E)|(t & ? & ? & ? & ? & E)]]]];
      rewrite E in H; try done.
    rewrite (IH _ _ _ _ H), elem_of_union, elem_of_singleton. tauto.
Qed.

(** Headings with fresh, pairwise distinct versions, valid dates and
    descending triples pass all checks. *)
Lemma loop_state_pass hs : ∀ seen prev,
  (∀ h, h ∈ hs → h.1 ∉ seen) →
  NoDup hs.*1 →
  Forall valid_date hs →
  (∀ h, h ∈ hs → is_Some (parse_semver h.1)) →
  (∀ v t p, head hs.*1 = Some v → parse_semver v = Some t → prev = Some p →
     tuple_ge t p = false) →
  descending hs.*1 →
  is_Some (loop_state seen prev hs).
Proof.
  induction hs as [|[v d] hs IH]; intros seen prev Hseen Hnd Hdate Hparse Hprev Hdesc;
    [by eexists|].
  rewrite fmap_cons in Hnd, Hdesc, Hprev. simpl in Hnd, Hdesc, Hprev.
  apply NoDup_cons in Hnd as [Hv Hnd]. apply Forall_cons in Hdate as [Hd Hdate].
  destruct (Hparse (v, d)) as [t Ht]; [left|]. simpl in Ht.
  assert (v ∉ seen) as Hvs by (apply (Hseen (v, d)); left).
  cbn [loop_state]. rewrite (loop_body_next seen prev v d t) by eauto.
  apply IH; auto.
  - intros h Hh. specialize (Hseen h (list_elem_of_further _ _ _ Hh)).
    intros [Heq%elem_of_singleton|?]%elem_of_union; [|done].
    apply Hv. rewrite <-Heq. by apply list_elem_of_fmap_2.
  - intros h Hh. apply Hparse. by right.
  - intros v' t' p Hhd Ht' [= <-].
    destruct hs as [|[w e] hs]; [done|]. rewrite fmap_cons in Hhd, Hdesc. simplify_eq/=.
    destruct (descending_head _ _ _ Hdesc) as (ta & tb & ? & ? & ?). by simplify_eq.
  - by eapply descending_tail.
Qed.

Lemma for_headings_pass hs seen prev after :
  is_Some (loop_state seen prev hs) → for_headings seen prev hs after = after.
Proof.
  intros [[seen' prev'] H].
  rewrite <-(right_id_L [] (++) hs). by rewrite (for_headings_app _ _ _ _ _ _ _ H).
Qed.

(** ** Diagnostics *)

Lemma err_duplicate_ne_order v : err_duplicate v ≠ ERR_ORDER.
Proof. unfold err_duplicate. rewrite str_app_cons. discriminate. Qed.

Lemma err_date_ne_order v d : err_date v d ≠ ERR_ORDER.
Proof. unfold err_date. rewrite str_app_cons. discriminate. Qed.

(** Whatever the loop returns is the result after the loop or one of the
    diagnostics of an iteration. *)
Lemma for_headings_result hs : ∀ seen prev after,
  for_headings seen prev hs after = after
  ∨ (∃ v, for_headings seen prev hs after = Return (false, err_duplicate v))
  ∨ (∃ v d, for_headings seen prev hs after = Return (false, err_date v d))
  ∨ for_headings seen prev hs after = Raise LibraryError
  ∨ for_headings seen prev hs after = Return (false, ERR_ORDER).
Proof.
  induction hs as [|[v d] hs IH]; intros seen prev after; [by left|].
  cbn [for_headings].
  destruct (loop_body_cases seen prev v d)
    as [[? E]|[(? & ? & E)|[(? & ? & ? & E)|[(t & p & ? & ? & ? & ? & ? & E)|(t & ? & ? & ? & ? & E)]]]];
    rewrite E; eauto 10.
Qed.

(** ** The validator on well-formed documents *)

(** Headings that pass the three checks validate, with the version of the
    first, which is the greatest. *)
Lemma validate_changelog_passes fs path content first rest :
  fs path = Some content →
  startswith content "# Changelog" = true →
  headings_of content = first :: rest →
  NoDup (first :: rest).*1 →
  Forall valid_date (first :: rest) →
  descending (first :: rest).*1 →
  is_Some (parse_semver first.1) →
  validate_changelog path fs = Return (true, first.1)
  ∧ ∀ h, h ∈ first :: rest → version_le h.1 first.1.
Proof.
  intros Hfs Htitle Hhs Hnd Hdate Hdesc Hfirst.
  assert (∀ h, h ∈ first :: rest → version_le h.1 first.1) as Hmax.
  { intros h Hh. apply (descending_max rest.*1 first.1); [done|by rewrite <-fmap_cons|].
    rewrite <-fmap_cons. by apply list_elem_of_fmap_2. }
  split; [|done].
  rewrite (validate_changelog_eq _ _ _ Hfs), Htitle, Hhs. simpl negb. cbv iota.
  apply for_headings_pass, loop_state_pass; auto.
  - intros h _. apply not_elem_of_empty.
  - intros h Hh. destruct (Hmax h Hh) as (ta & _ & -> & _). eauto.
  - by intros v t p _ _ [=].
Qed.

(** ** Order of the checks *)



(** ** The title check *)

(** C5, as the claim words it, fails: the first line of [doc_long_title] is
    not the title line [# Changelog], it goes on after it, and validation does
    not fail; the check of the script is a prefix test. *)
Lemma C5_counterexample :
  ¬ (validate_changelog CHANGELOG (single_file CHANGELOG doc_long_title)
       = Return (false, ERR_TITLE)
     ↔ ¬ has_title_line doc_long_title).
Proof.
  assert (validate_changelog CHANGELOG (single_file CHANGELOG doc_long_title)
            = Return (true, "1.0.0")) as E by (vm_compute; reflexivity).
  rewrite E. intros [_ H].
  assert (Return (true, "1.0.0") = Return (false, ERR_TITLE)) as [=].
  apply H. unfold has_title_line. vm_compute. intros [=].
Qed.

(** C5, amended. On a readable file, validation fails with the title
    diagnostic ("CHANGELOG.md must start with '# Changelog'.") exactly when the
    text does not start with the characters [# Changelog]; no heading content
    changes that. *)
Theorem C5_title_diagnostic_iff_prefix_missing
    (fs : FileSystem) (path : Path) (content : string) :
  fs path = Some content →
  (validate_changelog path fs = Return (false, ERR_TITLE)
   ↔ startswith content "# Changelog" = false).
Proof.
  intros Hfs. rewrite (validate_changelog_eq _ _ _ Hfs).
  destruct (startswith content "# Changelog"); simpl; [|done].
  split; [|done]. intros H. exfalso.
  destruct (headings_of content) as [|first l] eqn:E; [done|]. rewrite <-E in H.
  destruct (for_headings_result (headings_of content) ∅ None (Return (true, first.1)))
    as [E'|[[v E']|[(v & d & E')|[E'|E']]]]; rewrite E' in H; done.
Qed.

Lemma C5_witness :
  validate_changelog CHANGELOG (single_file CHANGELOG "## 2.0.0 - 2024-06-01")
    = Return (false, ERR_TITLE)
  ↔ startswith "## 2.0.0 - 2024-06-01" "# Changelog" = false.
Proof.
  apply (C5_title_diagnostic_iff_prefix_missing
           (single_file CHANGELOG "## 2.0.0 - 2024-06-01") CHANGELOG).
  reflexivity.
Defined.

(** ** Determinism *)

(** C10. The result of [validate_changelog] is a function of the text of the
    file alone: two runs that find the same text at the path (or both find the
    file unreadable) give the same result, whatever else differs in the two
    file systems. *)
Theorem C10_validation_is_deterministic (fs1 fs2 : FileSystem) (path : Path) :
  fs1 path = fs2 path →
  validate_changelog path fs1 = validate_changelog path fs2.
Proof.
  intros H. destruct (fs2 path) as [content|] eqn:E.
  - by rewrite (validate_changelog_eq _ _ _ H), (validate_changelog_eq _ _ _ E).
  - unfold validate_changelog, mbind, IO_bind, read_text. by rewrite H, E.
Qed.

Lemma C10_witness :
  validate_changelog CHANGELOG (single_file CHANGELOG doc_example)
  = validate_changelog CHANGELOG
      (λ p, if bool_decide (p = "README.md") then Some "# Readme"
            else single_file CHANGELOG doc_example p).
Proof.
  apply (C10_validation_is_deterministic
           (single_file CHANGELOG doc_example)
           (λ p, if bool_decide (p = "README.md") then Some "# Readme"
                 else single_file CHANGELOG doc_example p)
           CHANGELOG).
  reflexivity.
Defined.

(** ** The order check *)

Lemma for_headings_order_fail pre : ∀ seen prev a b rest after,
  (∀ h, h ∈ pre ++ [a; b] → h.1 ∉ seen) →
  NoDup (pre ++ [a; b]).*1 →
  Forall valid_date (pre ++ [a; b]) →
  (∀ h, h ∈ pre ++ [a; b] → is_Some (parse_semver h.1)) →
  version_le a.1 b.1 →
  for_headings seen prev (pre ++ a :: b :: rest) after = Return (false, ERR_ORDER).
Proof.
  induction pre as [|[v d] pre IH]; intros seen prev a b rest after Hseen Hnd Hdate Hparse Hle.
  - destruct a as [va da], b as [vb db]. simpl in *.
    destruct Hle as (ta & tb & Hta & Htb & Hge).
    apply NoDup_cons in Hnd as [Hva _]. apply Forall_cons in Hdate as [Hda Hdate].
    apply Forall_cons in Hdate as [Hdb _].
    destruct (loop_body_cases seen prev va da)
      as [[? E]|[(? & ? & E)|[(? & ? & ? & E)|[(t & p & ? & ? & ? & ? & ? & E)|(t & ? & ? & ? & ? & E)]]]].
    + by destruct (Hseen (va, da)); [left|].
    + unfold valid_date in Hda. simpl in Hda. destruct Hda. congruence.
    + congruence.
    + by rewrite E.
    + rewrite E. simpl. simplify_eq. rewrite (loop_body_order _ vb db tb ta); auto.
      intros [Heq%elem_of_singleton|?]%elem_of_union.
      * apply Hva. rewrite Heq. by left.
      * by destruct (Hseen (vb, db)); [right; left|].
  - rewrite <-app_comm_cons in *. rewrite fmap_cons in Hnd. simpl in Hnd.
    apply NoDup_cons in Hnd as [Hv Hnd]. apply Forall_cons in Hdate as [Hd Hdate].
    cbn [for_headings].
    destruct (loop_body_cases seen prev v d)
      as [[? E]|[(? & ? & E)|[(? & ? & ? & E)|[(t & p & ? & ? & ? & ? & ? & E)|(t & ? & ? & ? & ? & E)]]]].
    + by destruct (Hseen (v, d)); [left|].
    + unfold valid_date in Hd. simpl in Hd. destruct Hd. congruence.
    + destruct (Hparse (v, d)); [by left|]. simpl in *. congruence.
    + by rewrite E.
    + rewrite E. apply IH; auto.
      * intros h Hh [Heq%elem_of_singleton|?]%elem_of_union.
        -- apply Hv. rewrite <-Heq. by apply list_elem_of_fmap_2.
        -- by destruct (Hseen h); [right|].
      * intros h Hh. apply Hparse. by right.
Qed.

Lemma for_headings_order_inv hs : ∀ seen prev after,
  for_headings seen prev hs after = Return (false, ERR_ORDER) →
  after ≠ Return (false, ERR_ORDER) →
  (∃ b rest tb p, hs = b :: rest ∧ (b.1 ∉ seen) ∧ valid_date b
     ∧ parse_semver b.1 = Some tb ∧ prev = Some p ∧ tuple_ge tb p = true)
  ∨ (∃ pre a b rest, hs = pre ++ a :: b :: rest
     ∧ (∀ h, h ∈ pre ++ [a; b] → h.1 ∉ seen)
     ∧ NoDup (pre ++ [a; b]).*1 ∧ Forall valid_date (pre ++ [a; b])
     ∧ Forall (λ h, is_Some (parse_semver h.1)) pre
     ∧ version_le a.1 b.1).
Proof.
  induction hs as [|[v d] hs IH]; intros seen prev after H Hafter; [done|].
  cbn [for_headings] in H.
  destruct (loop_body_cases seen prev v d)
    as [[? E]|[(? & ? & E)|[(? & ? & ? & E)|[(t & p & ? & ? & ? & ? & ? & E)|(t & Hv & Hd & Ht & ? & E)]]]];
    rewrite E in H; try done.
  - left. exists (v, d), hs, t, p. eauto 10.
  - right. apply IH in H; [|done].
    destruct H as [(b & rest & tb & p & -> & Hb & Hdb & Htb & [= <-] & Hge)
      |(pre & a & b & rest & -> & Hseen & Hnd & Hdate & Hparse & Hle)].
    + exists [], (v, d), b, rest. simpl. split; [done|]. split; [|split; [|split; [|split]]].
      * intros h [->|[->|[]%elem_of_nil]%elem_of_cons]%elem_of_cons; [done|].
        intros ?. apply Hb, elem_of_union. by right.
      * apply NoDup_cons. split; [|apply NoDup_singleton].
        intros Heq%list_elem_of_singleton. apply Hb, elem_of_union. left.
        by apply elem_of_singleton.
      * repeat constructor; done.
      * constructor.
      * exists t, tb. done.
    + exists ((v, d) :: pre), a, b, rest. rewrite <-!app_comm_cons.
      split; [done|]. split; [|split; [|split; [|split; [|done]]]].
      * intros h [->|Hh]%elem_of_cons; [done|].
        intros ?. apply (Hseen h Hh), elem_of_union. by right.
      * rewrite fmap_cons. apply NoDup_cons. split; [|done]. simpl.
        intros (h & Heq & Hh)%list_elem_of_fmap. apply (Hseen h Hh), elem_of_union. left.
        by apply elem_of_singleton.
      * by constructor.
      * constructor; [by eexists|done].
Qed.

(** C4, as the claim words it, fails: the document [doc_repeated] has a
    heading whose triple equals that of the heading just above it, and
    validation fails there with the diagnostic of the duplicate check, which
    runs first. *)
Lemma C4_counterexample :
  ¬ (validate_changelog CHANGELOG (single_file CHANGELOG doc_repeated)
       = Return (false, ERR_ORDER)
     ↔ adjacent_violation (headings_of doc_repeated).*1).
Proof.
  assert (validate_changelog CHANGELOG (single_file CHANGELOG doc_repeated)
            = Return (false, err_duplicate "1.0.0")) as E by (vm_compute; reflexivity).
  rewrite E. intros [_ H].
  assert (Return (false, err_duplicate "1.0.0") = Return (false, ERR_ORDER)) as [=].
  apply H. exists O, "1.0.0", "1.0.0".
  split; [vm_compute; reflexivity|]. split; [vm_compute; reflexivity|].
  exists (1, 0, 0), (1, 0, 0). vm_compute. repeat split; reflexivity.
Qed.

(** C4, amended. Versions are compared as triples of integers, not as strings.
    On a readable file, validation fails with the order diagnostic exactly
    when the text starts with the title and some heading's triple is not below
    the triple of the heading just above it, while that heading and all
    headings above it have pairwise distinct versions and valid dates, and
    [parse_semver] returns on every heading above the two (no number of theirs
    is longer than [int] converts).  A document with [10.0.0] above [2.0.0]
    validates, although as strings ["10.0.0"] is below ["2.0.0"]. *)
Theorem C4_order_diagnostic_iff
    (fs : FileSystem) (path : Path) (content : string) :
  fs path = Some content →
  (validate_changelog path fs = Return (false, ERR_ORDER)
   ↔ startswith content "# Changelog" = true
     ∧ ∃ pre a b rest,
         load_headings path fs = Return (pre ++ a :: b :: rest)
         ∧ NoDup (pre ++ [a; b]).*1
         ∧ Forall valid_date (pre ++ [a; b])
         ∧ Forall (λ h, is_Some (parse_semver h.1)) pre
         ∧ version_le a.1 b.1)
  ∧ validate_changelog CHANGELOG (single_file CHANGELOG doc_ten_above_two)
      = Return (true, "10.0.0")
  ∧ String.ltb "10.0.0" "2.0.0" = true.
Proof.
  intros Hfs. split; [|by vm_compute].
  rewrite (validate_changelog_eq _ _ _ Hfs), (load_headings_eq _ _ _ Hfs).
  destruct (startswith content "# Changelog"); simpl; [|by split; [|intros [? _]]].
  split.
  - intros H. split; [done|].
    destruct (headings_of content) as [|first l] eqn:E; [done|]. rewrite <-E in *.
    apply for_headings_order_inv in H; [|done].
    destruct H as [(b & rest & tb & p & _ & _ & _ & _ & [=] & _)
                  |(pre & a & b & rest & Hhs & _ & Hnd & Hdate & Hparse & Hle)].
    exists pre, a, b, rest. by rewrite Hhs.
  - intros [_ (pre & a & b & rest & [= Hload] & Hnd & Hdate & Hpre & Hle)].
    assert (∀ h, h ∈ pre ++ [a; b] → is_Some (parse_semver h.1)) as Hparse.
    { destruct Hle as (ta & tb & Hta & Htb & _). rewrite Forall_forall in Hpre.
      intros h [?|Hh]%elem_of_app; [by apply Hpre|].
      apply elem_of_cons in Hh as [->|Hh]; [by eexists|].
      apply list_elem_of_singleton in Hh as ->. by eexists. }
    rewrite Hload. destruct (pre ++ a :: b :: rest) as [|first l] eqn:E; [by destruct pre|].
    rewrite <-E. apply for_headings_order_fail; auto.
    intros h _. apply not_elem_of_empty.
Qed.

Lemma C4_witness :
  (validate_changelog CHANGELOG (single_file CHANGELOG doc_ascending)
     = Return (false, ERR_ORDER)
   ↔ startswith doc_ascending "# Changelog" = true
     ∧ ∃ pre a b rest,
         load_headings CHANGELOG (single_file CHANGELOG doc_ascending)
           = Return (pre ++ a :: b :: rest)
         ∧ NoDup (pre ++ [a; b]).*1
         ∧ Forall valid_date (pre ++ [a; b])
         ∧ Forall (λ h, is_Some (parse_semver h.1)) pre
         ∧ version_le a.1 b.1)
  ∧ validate_changelog CHANGELOG (single_file CHANGELOG doc_ten_above_two)
      = Return (true, "10.0.0")
  ∧ String.ltb "10.0.0" "2.0.0" = true.
Proof.
  apply (C4_order_diagnostic_iff (single_file CHANGELOG doc_ascending) CHANGELOG doc_ascending).
  reflexivity.
Defined.

(** ** The date check *)

(** C6, as the claim words it, fails: in [doc_bad_date_after_ascent] the
    heading [0.5.0] has the date [2024-02-30], of the right shape and not a
    calendar date, the two headings above it have distinct versions and valid
    dates, and yet validation stops at the heading [2.0.0], which is not below
    [1.0.0], with the order diagnostic. *)
Lemma C6_counterexample :
  let fs := single_file CHANGELOG doc_bad_date_after_ascent in
  let pre := [("1.0.0", "2024-01-01"); ("2.0.0", "2024-01-02")] in
  load_headings CHANGELOG fs = Return (pre ++ [("0.5.0", "2024-02-30")])
  ∧ date_shape "2024-02-30"
  ∧ date_fromisoformat "2024-02-30" = None
  ∧ NoDup pre.*1
  ∧ Forall valid_date pre
  ∧ validate_changelog CHANGELOG fs ≠ Return (false, err_date "0.5.0" "2024-02-30").
Proof.
  split; [vm_compute; reflexivity|].
  split; [exists "2024", "02", "30"; vm_compute; repeat split; reflexivity|].
  split; [vm_compute; reflexivity|].
  split; [apply (bool_decide_unpack _); vm_compute; exact I|].
  split; [repeat constructor; vm_compute; eauto|].
  vm_compute. discriminate.
Qed.

(** C6, amended. If the text starts with the title, the headings above a
    heading pass all three checks (pairwise distinct versions, valid dates,
    strictly descending triples, [parse_semver] returning on each of them: no
    number longer than [int] converts), the heading's version is not one of
    theirs, and its date is not a valid calendar date, then validation fails
    with the diagnostic that names that version and that date string. *)
Theorem C6_invalid_date_diagnostic
    (fs : FileSystem) (path : Path) (content : string)
    (pre : list heading) (version date_value : string) (rest : list heading) :
  fs path = Some content →
  startswith content "# Changelog" = true →
  load_headings path fs = Return (pre ++ (version, date_value) :: rest) →
  NoDup pre.*1 →
  Forall valid_date pre →
  descending pre.*1 →
  Forall (λ h, is_Some (parse_semver h.1)) pre →
  version ∉ pre.*1 →
  date_fromisoformat date_value = None →
  validate_changelog path fs = Return (false, err_date version date_value).
Proof.
  intros Hfs Htitle Hload Hnd Hdate Hdesc Hparse Hv Hd.
  rewrite (load_headings_eq _ _ _ Hfs) in Hload. injection Hload as Hload.
  destruct (loop_state_pass pre ∅ None) as [[seen prev] Hpre]; auto.
  { intros h _. apply not_elem_of_empty. }
  { by apply Forall_forall. }
  { by intros v t p _ _ [=]. }
  rewrite (validate_changelog_eq _ _ _ Hfs), Htitle, Hload. simpl negb. cbv iota.
  destruct (pre ++ (version, date_value) :: rest) as [|first l] eqn:E; [by destruct pre|].
  rewrite <-E, (for_headings_app _ _ _ _ _ _ _ Hpre). cbn [for_headings].
  rewrite loop_body_date; auto.
  rewrite (loop_state_seen _ _ _ _ _ Hpre). intros [[]%elem_of_empty|?]. done.
Qed.

Lemma C6_witness :
  validate_changelog CHANGELOG (single_file CHANGELOG doc_bad_date)
  = Return (false, err_date "0.5.0" "2024-02-30").
Proof.
  apply (C6_invalid_date_diagnostic
           (single_file CHANGELOG doc_bad_date) CHANGELOG doc_bad_date
           [("2.0.0", "2024-01-02"); ("1.0.0", "2024-01-01")] "0.5.0" "2024-02-30" []).
  - reflexivity.
  - reflexivity.
  - vm_compute. reflexivity.
  - apply (bool_decide_unpack _). vm_compute. exact I.
  - repeat constructor; vm_compute; eauto.
  - intros [|[|i]] a b Ha Hb; simplify_eq/=.
    exists (1, 0, 0), (2, 0, 0). vm_compute. repeat split; reflexivity.
  - repeat constructor; vm_compute; eauto.
  - apply (bool_decide_unpack _). vm_compute. exact I.
  - vm_compute. reflexivity.
Defined.

(** ** Texts, lines and white space *)

Lemma all_chars_app p t1 t2 :
  all_chars p (t1 +:+ t2) = all_chars p t1 && all_chars p t2.
Proof.
  induction t1 as [|c t1 IH]; [done|]. rewrite str_app_cons. simpl.
  by rewrite IH, andb_assoc.
Qed.

Lemma all_chars_impl (p q : ascii → bool) t :
  (∀ c, p c = true → q c = true) → all_chars p t = true → all_chars q t = true.
Proof.
  intros Hpq. induction t as [|c t IH]; [done|]. simpl.
  intros [Hc Ht]%andb_true_iff. by rewrite (Hpq c Hc), IH.
Qed.

Lemma no_lf_app t1 t2 : no_lf (t1 +:+ t2) ↔ no_lf t1 ∧ no_lf t2.
Proof. unfold no_lf. by rewrite all_chars_app, andb_true_iff. Qed.

Lemma no_lf_digits t : all_chars isdecimal t = true → no_lf t.
Proof.
  apply all_chars_impl. intros c Hc. apply negb_true_iff, bool_decide_eq_false.
  intros ->. by vm_compute in Hc.
Qed.

Lemma no_lf_version v : version_shape v → no_lf v.
Proof.
  intros (a & b & c & -> & Ha & Hb & Hc).
  rewrite !no_lf_app. repeat split; try done; auto using no_lf_digits, is_digits_all.
Qed.

Lemma no_lf_date d : date_shape d → no_lf d.
Proof.
  intros (y & mo & da & -> & Hy & _ & Hmo & _ & Hda & _).
  rewrite !no_lf_app. repeat split; try done; auto using no_lf_digits.
Qed.

(** A run of white space is free of line feeds, or has a first one. *)
Lemma spaces_first_lf ws :
  spaces ws →
  no_lf ws ∨ ∃ a b, ws = a +:+ String LF b ∧ spaces a ∧ no_lf a ∧ spaces b.
Proof.
  unfold spaces, no_lf. induction ws as [|c ws IH]; [by left|]. simpl.
  intros [Hc Hws]%andb_true_iff. destruct (decide (c = LF)) as [->|Hne].
  - right. by exists "", ws.
  - destruct (IH Hws) as [Hno|(a & b & -> & Ha & Hna & Hb)].
    + left. by rewrite Hno, bool_decide_eq_false_2.
    + right. exists (String c a), b. simpl. by rewrite Hc, Ha, Hna, bool_decide_eq_false_2.
Qed.

Lemma at_eol_app t s : t ≠ "" → at_eol (t +:+ s) = at_eol t.
Proof. by destruct t. Qed.

Lemma no_lf_at_eol t : no_lf t → at_eol t = true → t = "".
Proof.
  destruct t as [|c t]; [done|]. unfold no_lf. simpl.
  intros [Hc _]%andb_true_iff Heq. apply bool_decide_eq_true in Heq as ->. done.
Qed.

Lemma last_char_no_lf b t : no_lf t → t ≠ "" → at_bol (last_char b t) = false.
Proof.
  revert b. induction t as [|c t IH]; intros b Ht Hne; [done|].
  unfold no_lf in Ht. simpl in *. apply andb_true_iff in Ht as [Hc Ht].
  destruct t as [|c' t]; [|by apply IH].
  simpl. by apply negb_true_iff in Hc.
Qed.

Lemma at_bol_last_char pre :
  at_bol (last_char None pre) = true → pre = "" ∨ ∃ pre', pre = pre' +:+ String LF "".
Proof.
  assert (∀ b, at_bol (last_char b pre) = true →
            (pre = "" ∧ at_bol b = true) ∨ ∃ pre', pre = pre' +:+ String LF "") as H.
  { induction pre as [|c pre IH]; intros b Hb; [by left|]. right. simpl in Hb.
    destruct (IH _ Hb) as [[-> Hc]|[pre' ->]].
    - exists "". simpl in Hc. by apply bool_decide_eq_true in Hc as ->.
    - by exists (String c pre'). }
  intros Hb. destruct (H _ Hb) as [[? _]|?]; auto.
Qed.

Lemma split_nonempty sep s : split sep s ≠ [].
Proof. destruct s as [|c s]; [done|]. simpl. case_bool_decide; [done|]. by destruct (split sep s). Qed.

Lemma split_app_sep sep s1 s2 :
  split sep (s1 +:+ String sep s2) = split sep s1 ++ split sep s2.
Proof.
  induction s1 as [|c s1 IH].
  - rewrite str_app_nil_l. simpl. by rewrite bool_decide_eq_true_2.
  - rewrite str_app_cons. simpl. rewrite IH. case_bool_decide; [done|].
    pose proof (split_nonempty sep s1). by destruct (split sep s1).
Qed.

Lemma split_no_sep l : no_lf l → split LF l = [l].
Proof.
  unfold no_lf. induction l as [|c l IH]; [done|]. simpl.
  intros [Hc Hl]%andb_true_iff. apply negb_true_iff in Hc. rewrite Hc, IH; done.
Qed.

Lemma lines_line_app l s : no_lf l → lines (l +:+ String LF s) = l :: lines s.
Proof. intros Hl. unfold lines. by rewrite split_app_sep, split_no_sep. Qed.

(** A stretch of text without line feeds that starts at the start of a line
    and ends at the end of a line is a line of the text. *)
Lemma lines_mid pre l post :
  at_bol (last_char None pre) = true → no_lf l → at_eol post = true →
  l ∈ lines (pre +:+ l +:+ post).
Proof.
  intros Hpre Hl Hpost.
  assert (l ∈ lines (l +:+ post)) as Hin.
  { destruct post as [|c post].
    - rewrite str_app_nil_r. unfold lines. rewrite split_no_sep by done. by left.
    - simpl in Hpost. apply bool_decide_eq_true in Hpost as ->.
      rewrite lines_line_app by done. by left. }
  destruct (at_bol_last_char _ Hpre) as [->|[pre' ->]]; [done|].
  rewrite app_assoc_str, str_app_cons, str_app_nil_l. unfold lines in *.
  rewrite split_app_sep. apply elem_of_app. by right.
Qed.

Lemma lines_cons s : ∃ l ls, lines s = l :: ls.
Proof.
  pose proof (split_nonempty LF s). unfold lines. destruct (split LF s); [done|]. eauto.
Qed.

Lemma unlines_cons l l' ls : unlines (l :: l' :: ls) = l +:+ String LF (unlines (l' :: ls)).
Proof. done. Qed.

Lemma unlines_lines s : unlines (lines s) = s.
Proof.
  unfold lines. induction s as [|c s IH]; [done|]. simpl. case_bool_decide as Hc.
  - subst c. pose proof (split_nonempty LF s).
    destruct (split LF s) as [|x xs] eqn:E; [done|]. by rewrite unlines_cons, IH.
  - pose proof (split_nonempty LF s).
    destruct (split LF s) as [|x xs] eqn:E; [done|].
    destruct xs as [|y ys]; simpl in *; by rewrite <-IH.
Qed.

Lemma lines_no_lf s : Forall no_lf (lines s).
Proof.
  unfold lines. induction s as [|c s IH]; [by repeat constructor|]. simpl.
  case_bool_decide as Hc; [by constructor|].
  destruct (split LF s) as [|x xs]; [by repeat constructor; unfold no_lf; simpl; rewrite bool_decide_eq_false_2|].
  apply Forall_cons in IH as [Hx Hxs]. constructor; [|done].
  unfold no_lf in *. simpl. by rewrite bool_decide_eq_false_2.
Qed.

Lemma lines_unlines ls : ls ≠ [] → Forall no_lf ls → lines (unlines ls) = ls.
Proof.
  induction ls as [|l ls IH]; [done|]. intros _ [Hl Hls]%Forall_cons.
  destruct ls as [|l' ls].
  - simpl. unfold lines. by apply split_no_sep.
  - rewrite unlines_cons, lines_line_app by done. by rewrite IH.
Qed.

(** Conversely every line stands between two line boundaries. *)
Lemma unlines_elem ls : ∀ l,
  l ∈ ls → Forall no_lf ls →
  ∃ pre post, unlines ls = pre +:+ l +:+ post ∧ at_bol (last_char None pre) = true
    ∧ at_eol post = true.
Proof.
  induction ls as [|x ls IH]; intros l Hl Hls; [by apply elem_of_nil in Hl|].
  apply Forall_cons in Hls as [Hx Hls]. apply elem_of_cons in Hl as [->|Hl].
  - exists "". destruct ls as [|y ls].
    + exists "". simpl. by rewrite str_app_nil_r.
    + exists (String LF (unlines (y :: ls))). by rewrite unlines_cons.
  - destruct ls as [|y ls]; [by apply elem_of_nil in Hl|].
    destruct (IH l Hl Hls) as (pre & post & E & Hpre & Hpost).
    exists (x +:+ String LF pre), post. rewrite unlines_cons, E.
    rewrite app_assoc_str, str_app_cons. split; [done|]. split; [|done].
    rewrite last_char_app. simpl.
    destruct (at_bol_last_char _ Hpre) as [->|[pre' ->]]; [done|].
    by rewrite last_char_app.
Qed.

Lemma lines_inv s l :
  l ∈ lines s →
  ∃ pre post, s = pre +:+ l +:+ post ∧ at_bol (last_char None pre) = true
    ∧ no_lf l ∧ at_eol post = true.
Proof.
  intros Hl. pose proof (lines_no_lf s) as Hs.
  destruct (unlines_elem _ _ Hl Hs) as (pre & post & E & Hpre & Hpost).
  rewrite unlines_lines in E. exists pre, post. repeat split; auto.
  by eapply Forall_forall in Hs.
Qed.

(** ** The patterns of the script are heading patterns *)

Lemma Matches_escape lit b s : Matches (escape lit) b lit s [].
Proof.
  revert b. induction lit as [|c lit IH]; intros b; simpl; [constructor|].
  change (String c lit) with (String c "" +:+ lit).
  change (@nil (string * string)) with (@nil (string * string) ++ []).
  constructor; [constructor|apply IH].
Qed.

Lemma Matches_escape_inv lit : ∀ b t s g, Matches (escape lit) b t s g → t = lit ∧ g = [].
Proof.
  induction lit as [|c lit IH]; intros b t s g H; simpl in H.
  - by apply Matches_Eps_inv in H.
  - apply Matches_Cat_inv in H as (t1 & t2 & g1 & g2 & -> & -> & [-> ->]%Matches_Chr_inv & H).
    apply IH in H as [-> ->]. done.
Qed.

Lemma M_Cat_g r1 r2 b t1 t2 s g g1 g2 :
  Matches r1 b t1 (t2 +:+ s) g1 → Matches r2 (last_char b t1) t2 s g2 →
  g = g2 ++ g1 → Matches (Cat r1 r2) b (t1 +:+ t2) s g.
Proof. intros ?? ->. by constructor. Qed.

Lemma M_Rep_plus c b t s :
  all_chars (cls_mem c) t = true → t ≠ "" → Matches (Rep c 1 None) b t s [].
Proof. intros Ht Hne. constructor; [done| |done]. destruct t; [done|simpl; lia]. Qed.

Lemma M_Rep_star c b t s :
  all_chars (cls_mem c) t = true → Matches (Rep c 0 None) b t s [].
Proof. intros Ht. constructor; [done|lia|done]. Qed.

Lemma M_Rep_exact c n b t s :
  all_chars (cls_mem c) t = true → String.length t = n → Matches (Rep c n (Some n)) b t s [].
Proof. intros Ht Hn. constructor; [done|lia|]. intros h [= <-]. lia. Qed.

Lemma is_digits_ne t : is_digits t = true → t ≠ "".
Proof. unfold is_digits. intros [_ H]%andb_true_iff. by apply negb_true_iff, bool_decide_eq_false in H. Qed.

(** Take a hypothesis [Matches r ...] apart, keeping literals whole. *)
Ltac inv_pattern :=
  repeat match goal with
  | H : Matches (Cat _ _) _ _ _ _ |- _ =>
      apply Matches_Cat_inv in H as (? & ? & ? & ? & -> & -> & ? & ?)
  | H : Matches (Group _ _) _ _ _ _ |- _ => apply Matches_Group_inv in H as (? & -> & ?)
  | H : Matches (Chr _) _ _ _ _ |- _ => apply Matches_Chr_inv in H as [-> ->]
  | H : Matches (Rep _ _ _) _ _ _ _ |- _ => apply Matches_Rep_inv in H as (-> & ? & ? & ?)
  | H : Matches (escape _) _ _ _ _ |- _ => apply Matches_escape_inv in H as [-> ->]
  | H : Matches Bol _ _ _ _ |- _ => apply Matches_Bol_inv in H as (-> & -> & ?)
  | H : Matches Eol _ _ _ _ |- _ => apply Matches_Eol_inv in H as (-> & -> & ?)
  end.

(** Build a match of a sequence from matches of its members, the text being
    given piece by piece. *)
Ltac build_atom :=
  first
    [ apply M_Bol; assumption
    | apply M_Eol; assumption
    | apply Matches_escape
    | apply M_Chr
    | apply M_Rep_plus; [assumption | auto using is_digits_ne]
    | apply M_Rep_star; assumption
    | apply M_Rep_exact; assumption ].

Ltac build_pattern :=
  lazymatch goal with
  | |- Matches (Cat _ _) _ _ _ _ => eapply M_Cat_g; [build_pattern | build_pattern | reflexivity]
  | |- Matches (Group _ _) _ _ _ _ => apply M_Group; build_pattern
  | |- _ => build_atom
  end.

Ltac str_norm := rewrite ?app_assoc_str, ?str_app_cons, ?str_app_nil_l, ?str_app_nil_r.

Lemma nonempty_length t : (1 ≤ String.length t)%nat → t ≠ "".
Proof. destruct t; simpl; [lia|done]. Qed.

Lemma exact_length (n : nat) t :
  (n ≤ String.length t)%nat → (∀ h, Some n = Some h → (String.length t ≤ h)%nat) →
  String.length t = n.
Proof. intros H1 H2. specialize (H2 n eq_refl). lia. Qed.

Lemma release_pattern_heading V : heading_pattern (release_pattern V) (eq V).
Proof.
  intros b t s. split.
  - intros [g H]. unfold release_pattern in H. inv_pattern.
    split; [done|]. split; [done|].
    match goal with
    | |- heading_text _ (_ +:+ _ +:+ ?w1 +:+ ?v +:+ ?w2 +:+ _ +:+ ?w3 +:+ ?y +:+ _ +:+ ?mo
                         +:+ _ +:+ ?da +:+ ?w4 +:+ _) =>
        exists w1, v, w2, w3, (y +:+ "-" +:+ mo +:+ "-" +:+ da), w4
    end.
    split; [by str_norm|].
    repeat split; auto using nonempty_length.
    eexists _, _, _. split; [done|]. repeat split; eauto using exact_length.
  - intros (Hb & Hs & ws1 & v & ws2 & ws3 & d & ws4 & -> & H1 & H1' & <- & H2 & H2' & H3 & H3'
            & (y & mo & da & -> & Hy & Hy' & Hmo & Hmo' & Hda & Hda') & H4).
    exists [].
    replace ("##" +:+ ws1 +:+ V +:+ ws2 +:+ "-" +:+ ws3
             +:+ (y +:+ "-" +:+ mo +:+ "-" +:+ da) +:+ ws4)
      with ("" +:+ "##" +:+ ws1 +:+ V +:+ ws2 +:+ "-" +:+ ws3
            +:+ y +:+ "-" +:+ mo +:+ "-" +:+ da +:+ ws4 +:+ "") by (by str_norm).
    unfold release_pattern. build_pattern.
Qed.

Lemma any_release_pattern_heading : heading_pattern any_release_pattern version_shape.
Proof.
  intros b t s. split.
  - intros [g H]. unfold any_release_pattern in H. inv_pattern.
    split; [done|]. split; [done|].
    match goal with
    | |- heading_text _ (_ +:+ _ +:+ ?w1 +:+ ?a +:+ _ +:+ ?b +:+ _ +:+ ?c +:+ ?w2 +:+ _
                         +:+ ?w3 +:+ ?y +:+ _ +:+ ?mo +:+ _ +:+ ?da +:+ ?w4 +:+ _) =>
        exists w1, (a +:+ "." +:+ b +:+ "." +:+ c), w2, w3,
          (y +:+ "-" +:+ mo +:+ "-" +:+ da), w4
    end.
    split; [by str_norm|].
    repeat split; auto using nonempty_length.
    + eexists _, _, _. split; [done|]. auto using is_digits_intro.
    + eexists _, _, _. split; [done|]. repeat split; eauto using exact_length.
  - intros (Hb & Hs & ws1 & v & ws2 & ws3 & d & ws4 & -> & H1 & H1'
            & (a & b' & c & -> & Ha & Hb' & Hc) & H2 & H2' & H3 & H3'
            & (y & mo & da & -> & Hy & Hy' & Hmo & Hmo' & Hda & Hda') & H4).
    apply is_digits_all in Ha as Ha', Hb' as Hb'', Hc as Hc'.
    exists [].
    replace ("##" +:+ ws1 +:+ (a +:+ "." +:+ b' +:+ "." +:+ c) +:+ ws2 +:+ "-" +:+ ws3
             +:+ (y +:+ "-" +:+ mo +:+ "-" +:+ da) +:+ ws4)
      with ("" +:+ "##" +:+ ws1 +:+ a +:+ "." +:+ b' +:+ "." +:+ c +:+ ws2 +:+ "-" +:+ ws3
            +:+ y +:+ "-" +:+ mo +:+ "-" +:+ da +:+ ws4 +:+ "") by (by str_norm).
    unfold any_release_pattern. build_pattern.
Qed.

Lemma HEADING_RE_heading : heading_pattern HEADING_RE version_shape.
Proof.
  intros b t s. split.
  - intros [g H]. unfold HEADING_RE in H. inv_pattern.
    split; [done|]. split; [done|].
    match goal with
    | |- heading_text _ (_ +:+ _ +:+ ?w1 +:+ (?a +:+ _ +:+ ?b +:+ _ +:+ ?c) +:+ ?w2 +:+ _
                         +:+ ?w3 +:+ (?y +:+ _ +:+ ?mo +:+ _ +:+ ?da) +:+ ?w4 +:+ _) =>
        exists w1, (a +:+ "." +:+ b +:+ "." +:+ c), w2, w3,
          (y +:+ "-" +:+ mo +:+ "-" +:+ da), w4
    end.
    split; [by str_norm|].
    repeat split; auto using nonempty_length.
    + eexists _, _, _. split; [done|]. auto using is_digits_intro.
    + eexists _, _, _. split; [done|]. repeat split; eauto using exact_length.
  - intros (Hb & Hs & ws1 & v & ws2 & ws3 & d & ws4 & -> & H1 & H1'
            & (a & b' & c & -> & Ha & Hb' & Hc) & H2 & H2' & H3 & H3'
            & (y & mo & da & -> & Hy & Hy' & Hmo & Hmo' & Hda & Hda') & H4).
    apply is_digits_all in Ha as Ha', Hb' as Hb'', Hc as Hc'.
    eexists.
    replace ("##" +:+ ws1 +:+ (a +:+ "." +:+ b' +:+ "." +:+ c) +:+ ws2 +:+ "-" +:+ ws3
             +:+ (y +:+ "-" +:+ mo +:+ "-" +:+ da) +:+ ws4)
      with ("" +:+ "##" +:+ ws1 +:+ (a +:+ "." +:+ b' +:+ "." +:+ c) +:+ ws2 +:+ "-" +:+ ws3
            +:+ (y +:+ "-" +:+ mo +:+ "-" +:+ da) +:+ ws4 +:+ "") by (by str_norm).
    unfold HEADING_RE. build_pattern.
Qed.

(** The beginnings of broken headings, as texts. *)
Lemma broken_after_hashes b s ws :
  at_bol b = true → at_eol s = true → spaces ws →
  ∃ g, Matches BROKEN_AFTER_HASHES b ("##" +:+ ws) s g.
Proof.
  intros Hb Hs Hws. exists [].
  replace ("##" +:+ ws) with ("" +:+ "##" +:+ ws +:+ "") by (by str_norm).
  unfold BROKEN_AFTER_HASHES. build_pattern.
Qed.

Lemma broken_after_version b s ws1 v ws2 :
  at_bol b = true → at_eol s = true → spaces ws1 → ws1 ≠ "" → version_shape v → spaces ws2 →
  ∃ g, Matches BROKEN_AFTER_VERSION b ("##" +:+ ws1 +:+ v +:+ ws2) s g.
Proof.
  intros Hb Hs H1 H1' (a & b' & c & -> & Ha & Hb' & Hc) H2.
  apply is_digits_all in Ha as Ha', Hb' as Hb'', Hc as Hc'. exists [].
  replace ("##" +:+ ws1 +:+ (a +:+ "." +:+ b' +:+ "." +:+ c) +:+ ws2)
    with ("" +:+ "##" +:+ ws1 +:+ a +:+ "." +:+ b' +:+ "." +:+ c +:+ ws2 +:+ "")
    by (by str_norm).
  unfold BROKEN_AFTER_VERSION. build_pattern.
Qed.

Lemma broken_after_dash b s ws1 v ws2 ws3 :
  at_bol b = true → at_eol s = true → spaces ws1 → ws1 ≠ "" → version_shape v →
  spaces ws2 → ws2 ≠ "" → spaces ws3 →
  ∃ g, Matches BROKEN_AFTER_DASH b ("##" +:+ ws1 +:+ v +:+ ws2 +:+ "-" +:+ ws3) s g.
Proof.
  intros Hb Hs H1 H1' (a & b' & c & -> & Ha & Hb' & Hc) H2 H2' H3.
  apply is_digits_all in Ha as Ha', Hb' as Hb'', Hc as Hc'. exists [].
  replace ("##" +:+ ws1 +:+ (a +:+ "." +:+ b' +:+ "." +:+ c) +:+ ws2 +:+ "-" +:+ ws3)
    with ("" +:+ "##" +:+ ws1 +:+ a +:+ "." +:+ b' +:+ "." +:+ c +:+ ws2 +:+ "-" +:+ ws3 +:+ "")
    by (by str_norm).
  unfold BROKEN_AFTER_DASH. build_pattern.
Qed.

(** ** Searching *)

Lemma match_at_is_Some r b n t s' :
  (∃ g, Matches r b t s' g) → is_Some (match_at r b n (t +:+ s')).
Proof.
  intros [g HM]. unfold match_at.
  destruct (m r Some (Cursor b (t +:+ s') n [])) as [st|] eqn:E; [by eexists|].
  by eapply (m_complete r Some (Cursor b (t +:+ s') n [])) in E.
Qed.

Lemma match_at_None r b n t s' :
  match_at r b n (t +:+ s') = None → ¬ ∃ g, Matches r b t s' g.
Proof. intros E H. apply (match_at_is_Some r b n) in H as [mt H]. congruence. Qed.

Lemma search_from_None r s : ∀ b n,
  search_from r b n s = None ↔
  ∀ pre s2, s = pre +:+ s2 →
    match_at r (last_char b pre) (n + String.length pre) s2 = None.
Proof.
  induction s as [|c s IH]; intros b n; simpl.
  - split.
    + intros H pre s2 Hs. destruct pre; [|done]. rewrite str_app_nil_l in Hs. subst s2.
      simpl. rewrite Nat.add_0_r. by destruct (match_at r b n "").
    + intros H. specialize (H "" "" eq_refl). simpl in H. rewrite Nat.add_0_r in H.
      by rewrite H.
  - split.
    + intros H pre s2 Hs. destruct (match_at r b n (String c s)) eqn:E; [done|].
      destruct pre as [|c' pre].
      * rewrite str_app_nil_l in Hs. subst s2. simpl. by rewrite Nat.add_0_r.
      * rewrite str_app_cons in Hs. injection Hs as <- ->. simpl.
        replace (n + S (String.length pre))%nat with (S n + String.length pre)%nat by lia.
        by eapply IH.
    + intros H. pose proof (H "" (String c s) eq_refl) as H0. simpl in H0.
      rewrite Nat.add_0_r in H0. rewrite H0. apply IH. intros pre s2 ->.
      specialize (H (String c pre) s2 eq_refl). simpl in H.
      by replace (n + S (String.length pre))%nat with (S n + String.length pre)%nat in H by lia.
Qed.

(** [search] returns the leftmost match. *)
Lemma search_from_Some r s : ∀ b n mt,
  search_from r b n s = Some mt →
  ∃ pre s2, s = pre +:+ s2
    ∧ match_at r (last_char b pre) (n + String.length pre) s2 = Some mt
    ∧ ∀ pre1 s1, s = pre1 +:+ s1 → (String.length pre1 < String.length pre)%nat →
        match_at r (last_char b pre1) (n + String.length pre1) s1 = None.
Proof.
  induction s as [|c s IH]; intros b n mt; simpl.
  - destruct (match_at r b n "") eqn:E; [|done]. intros [= ->].
    exists "", "". simpl. rewrite Nat.add_0_r. split; [done|]. split; [done|]. intros; lia.
  - destruct (match_at r b n (String c s)) eqn:E.
    + intros [= ->]. exists "", (String c s). simpl. rewrite Nat.add_0_r.
      split; [done|]. split; [done|]. intros; lia.
    + intros (pre & s2 & -> & Hm & Hleft)%IH. exists (String c pre), s2. simpl.
      replace (n + S (String.length pre))%nat with (S n + String.length pre)%nat by lia.
      split; [done|]. split; [done|]. intros pre1 s1 Hs Hlt.
      destruct pre1 as [|c' pre1].
      * rewrite str_app_nil_l in Hs. subst s1. simpl. by rewrite Nat.add_0_r.
      * rewrite str_app_cons in Hs. injection Hs as <- Hs. simpl in *.
        replace (n + S (String.length pre1))%nat with (S n + String.length pre1)%nat by lia.
        apply Hleft; [done|lia].
Qed.

Lemma finditer_from_nil r s : ∀ b n skip,
  search_from r b n s = None → finditer_from r b n skip s = [].
Proof.
  induction s as [|c s IH]; intros b n skip; simpl.
  - destruct (match_at r b n ""); [done|]. by destruct skip.
  - destruct (match_at r b n (String c s)); [done|]. intros H.
    destruct skip; by apply IH.
Qed.

(** ** Where the search stops *)

Lemma match_at_matches_here r b n s : is_Some (match_at r b n s) ↔ matches_here r b s.
Proof.
  split.
  - intros [mt (t & s' & -> & HM & _)%match_at_Matches]. by exists t, s', (m_groups mt).
  - intros (t & s' & g & -> & HM). apply match_at_is_Some. eauto.
Qed.

Lemma match_at_None_iff r b n s : match_at r b n s = None ↔ ¬ matches_here r b s.
Proof. rewrite <-(match_at_matches_here r b n s), <-eq_None_not_Some. done. Qed.

Lemma match_at_start r b n s mt : match_at r b n s = Some mt → m_start mt = n.
Proof. by intros (t & s' & _ & _ & ? & _)%match_at_Matches. Qed.

(** The search finds nothing when no position matches; otherwise its match
    starts at the first position that matches. *)
Lemma search_None r s :
  search r s = None ↔ ∀ pre s2, s = pre +:+ s2 → ¬ matches_here r (last_char None pre) s2.
Proof.
  unfold search. rewrite search_from_None. split; intros H pre s2 Hs.
  - rewrite <-(match_at_None_iff r _ (0 + String.length pre)). by apply H.
  - apply match_at_None_iff. by apply H.
Qed.

Lemma search_Some r s mt :
  search r s = Some mt →
  ∃ pre t s', s = pre +:+ t +:+ s'
    ∧ (∃ g, Matches r (last_char None pre) t s' g)
    ∧ m_start mt = String.length pre
    ∧ m_end mt = String.length (pre +:+ t)
    ∧ ∀ pre1 s1, s = pre1 +:+ s1 → (String.length pre1 < String.length pre)%nat →
        ¬ matches_here r (last_char None pre1) s1.
Proof.
  unfold search. intros (pre & s2 & -> & Hm & Hleft)%search_from_Some.
  apply match_at_Matches in Hm as (t & s' & -> & HM & Hstart & Hend).
  exists pre, t, s'. rewrite length_app_str. simpl in *. repeat split; eauto.
  intros pre1 s1 Hs Hlt. eapply match_at_None_iff. by apply Hleft.
Qed.

Lemma search_is_Some r s pre s2 :
  s = pre +:+ s2 → matches_here r (last_char None pre) s2 → is_Some (search r s).
Proof.
  intros Hs HM. destruct (search r s) eqn:E; [by eexists|].
  rewrite search_None in E. by destruct (E pre s2 Hs).
Qed.

(** Appending in front of a text: lengths and the pieces cut by positions. *)
Lemma drop_str_app a s : drop_str (String.length a) (a +:+ s) = s.
Proof. induction a as [|c a IH]; [by destruct s|]. by rewrite str_app_cons. Qed.

Lemma substring_0_app a s : substring 0 (String.length a) (a +:+ s) = a.
Proof. apply substring_app_l. Qed.

Lemma substring_skip a s n : substring (String.length a) n (a +:+ s) = substring 0 n s.
Proof. induction a as [|c a IH]; [done|]. by rewrite str_app_cons. Qed.

Lemma substring_all s : substring 0 (String.length s) s = s.
Proof. rewrite <-(str_app_nil_r s) at 2. apply substring_app_l. Qed.

Lemma slice_app a s i j :
  slice (a +:+ s) (String.length a + i) (String.length a + j) = slice s i j.
Proof.
  unfold slice. replace (String.length a + j - (String.length a + i))%nat with (j - i)%nat by lia.
  induction a as [|c a IH]; [done|]. by rewrite str_app_cons.
Qed.

Lemma str_app_eq_app a : ∀ b c d,
  a +:+ b = c +:+ d →
  (∃ e, a = c +:+ e ∧ d = e +:+ b) ∨ (∃ e, e ≠ "" ∧ c = a +:+ e ∧ b = e +:+ d).
Proof.
  induction a as [|x a IH]; intros b c d E.
  - rewrite str_app_nil_l in E. subst b. destruct c as [|y c].
    + left. by exists "".
    + right. by exists (String y c).
  - destruct c as [|y c].
    + left. exists (String x a). by rewrite str_app_nil_l in *.
    + rewrite !str_app_cons in E. injection E as <- E.
      destruct (IH _ _ _ E) as [(e & -> & ->)|(e & He & -> & ->)].
      * left. by exists e.
      * right. by exists e.
Qed.

Lemma str_app_inv_length a : ∀ b c d,
  a +:+ b = c +:+ d → String.length a = String.length c → a = c ∧ b = d.
Proof.
  induction a as [|x a IH]; intros b c d E Hl; destruct c as [|y c]; try done.
  rewrite !str_app_cons in E. injection E as <- E. simpl in Hl.
  destruct (IH _ _ _ E) as [-> ->]; [lia|done].
Qed.

(** The first line of a text is determined. *)
Lemma first_line_unique l : ∀ p l' p',
  l +:+ p = l' +:+ p' → no_lf l → no_lf l' → at_eol p = true → at_eol p' = true →
  l = l' ∧ p = p'.
Proof.
  unfold no_lf. induction l as [|c l IH]; intros p l' p' E Hl Hl' Hp Hp'.
  - rewrite str_app_nil_l in E. subst p. destruct l' as [|c' l']; [done|].
    rewrite str_app_cons in Hp. simpl in *. apply bool_decide_eq_true in Hp as ->. done.
  - destruct l' as [|c' l'].
    + rewrite str_app_nil_l in E. subst p'. rewrite str_app_cons in Hp'. simpl in *.
      apply bool_decide_eq_true in Hp' as ->. done.
    + rewrite !str_app_cons in E. injection E as <- E. simpl in *.
      apply andb_true_iff in Hl as [_ Hl]. apply andb_true_iff in Hl' as [_ Hl'].
      destruct (IH _ _ _ E Hl Hl' Hp Hp') as [-> ->]. done.
Qed.

Lemma lstrip_spaces w s : spaces w → lstrip (w +:+ s) = lstrip s.
Proof.
  unfold spaces. induction w as [|c w IH]; [done|]. rewrite str_app_cons. simpl.
  intros [Hc Hw]%andb_true_iff. rewrite Hc. auto.
Qed.

Lemma strip_spaces w s : spaces w → strip (w +:+ s) = strip s.
Proof. intros Hw. unfold strip. by rewrite lstrip_spaces. Qed.

Lemma at_eol_post_of ls : at_eol (post_of ls) = true.
Proof. by destruct ls. Qed.

Lemma post_of_unlines ls : ls ≠ [] → post_of ls = String LF (unlines ls).
Proof.
  induction ls as [|l ls IH]; [done|]. intros _. simpl. destruct ls as [|l' ls].
  - simpl. by rewrite str_app_nil_r.
  - by rewrite IH.
Qed.

Lemma lines_app_post l post :
  no_lf l → at_eol post = true →
  ∃ ls, lines (l +:+ post) = l :: ls ∧ post = post_of ls.
Proof.
  intros Hl Hpost. destruct post as [|c post].
  - exists []. rewrite str_app_nil_r. unfold lines. by rewrite split_no_sep.
  - simpl in Hpost. apply bool_decide_eq_true in Hpost as ->.
    exists (lines post). rewrite lines_line_app by done. split; [done|].
    destruct (lines_cons post) as (x & xs & E). rewrite post_of_unlines, unlines_lines; [done|].
    by rewrite E.
Qed.

(** The lines of a text around one of its lines. *)
Lemma lines_around pre l post :
  at_bol (last_char None pre) = true → no_lf l → at_eol post = true →
  ∃ before after,
    lines (pre +:+ l +:+ post) = before ++ l :: after
    ∧ post = post_of after
    ∧ ∀ l0, l0 ∈ before →
        ∃ a b, pre = a +:+ l0 +:+ b ∧ b ≠ "" ∧ at_bol (last_char None a) = true ∧ no_lf l0
          ∧ at_eol b = true.
Proof.
  intros Hpre Hl Hpost. destruct (lines_app_post l post Hl Hpost) as (after & E & Hafter).
  destruct (at_bol_last_char _ Hpre) as [->|[pre' ->]].
  - exists [], after. rewrite str_app_nil_l. split; [done|]. split; [done|].
    by intros l0 ?%elem_of_nil.
  - exists (lines pre'), after. rewrite app_assoc_str, str_app_cons, str_app_nil_l.
    unfold lines in *. rewrite split_app_sep, E. split; [done|]. split; [done|].
    intros l0 (a & b & -> & Ha & Hl0 & Hb)%lines_inv.
    exists a, (b +:+ String LF ""). rewrite !app_assoc_str. split; [done|].
    split; [by destruct b|]. split; [done|]. split; [done|].
    destruct b; [done|]. by rewrite str_app_cons.
Qed.

(** ** Matches and lines *)

Lemma line_matches_intro r l :
  (∃ g, Matches r None l "" g) → line_matches r l = true.
Proof.
  intros H. apply (match_at_is_Some r None O) in H as [mt H]. rewrite str_app_nil_r in H.
  unfold line_matches, search. apply bool_decide_eq_true.
  destruct l; simpl; rewrite H; by eexists.
Qed.

Section heading_patterns.
Variable r : regex.
Variable P : string → Prop.
Hypothesis r_heading : heading_pattern r P.
Hypothesis P_version : ∀ v, P v → version_shape v.

(** A line matches when it is a heading text. *)
Lemma line_matches_heading l :
  no_lf l → (line_matches r l = true ↔ heading_text P l).
Proof.
  intros Hl. split.
  - unfold line_matches, search. intros [mt H]%bool_decide_eq_true.
    apply search_from_Some in H as (pre & s2 & -> & H & _).
    apply match_at_Matches in H as (t & s' & -> & H & _).
    apply no_lf_app in Hl as [Hpre [Ht Hs']%no_lf_app].
    assert (∃ g, Matches r (last_char None pre) t s' g) as HM by eauto.
    apply r_heading in HM as (Hb & Hs & Hh).
    apply no_lf_at_eol in Hs as ->; [|done].
    destruct pre as [|c pre]; [by rewrite str_app_nil_l, str_app_nil_r|].
    by rewrite last_char_no_lf in Hb.
  - intros Hh. apply line_matches_intro, r_heading. done.
Qed.

(** A heading line of the text is found by the search. *)
Lemma heading_line_found content l :
  l ∈ lines content → line_matches r l = true → is_Some (search r content).
Proof.
  intros (pre & post & -> & Hpre & Hl & Hpost)%lines_inv Hm.
  apply line_matches_heading in Hm; [|done].
  assert (∃ g, Matches r (last_char None pre) l post g) as HM by by apply r_heading.
  apply (match_at_is_Some r _ (0 + String.length pre)) in HM as [mt HM].
  destruct (search r (pre +:+ l +:+ post)) eqn:E; [by eexists|].
  unfold search in E. rewrite search_from_None in E. rewrite (E pre _ eq_refl) in HM. done.
Qed.

Lemma matches_here_heading b s :
  matches_here r b s ↔
  at_bol b = true ∧ ∃ t s', s = t +:+ s' ∧ at_eol s' = true ∧ heading_text P t.
Proof.
  split.
  - intros (t & s' & g & -> & HM).
    assert (∃ g, Matches r b t s' g) as (Hb & Hs & Hh)%r_heading by eauto. eauto 10.
  - intros (Hb & t & s' & -> & Hs & Hh).
    assert (∃ g, Matches r b t s' g) as [g HM] by by apply r_heading.
    by exists t, s', g.
Qed.

(** A match begins with [##]. *)
Lemma matches_here_hashes b s : matches_here r b s → ∃ s', s = "##" +:+ s'.
Proof.
  intros (_ & t & s' & -> & _ & ws1 & v & ws2 & ws3 & d & ws4 & -> & _)%matches_here_heading.
  eexists. by rewrite !app_assoc_str.
Qed.

Lemma no_match_empty b : ¬ matches_here r b "".
Proof. by intros [s' Hs]%matches_here_hashes. Qed.

Lemma no_match_other c b s : c ≠ "#"%char → ¬ matches_here r b (String c s).
Proof. intros Hc [s' Hs]%matches_here_hashes. rewrite !str_app_cons in Hs. congruence. Qed.

Lemma no_match_at_eol b s : at_eol s = true → ¬ matches_here r b s.
Proof.
  destruct s as [|c s]; [intros _; apply no_match_empty|].
  simpl. intros ->%bool_decide_eq_true. by apply no_match_other.
Qed.

Lemma no_match_space c b s : isspace c = true → ¬ matches_here r b (String c s).
Proof. intros Hc. apply no_match_other. intros ->. by vm_compute in Hc. Qed.

(** A match whose first line is not the beginning of a broken heading is a
    heading line followed by white space that, if there is any, begins with
    a line feed. *)
Lemma first_line_heading t s' :
  (∀ l post, t +:+ s' = l +:+ post → no_lf l → at_eol post = true →
     broken_heading_line l = false) →
  at_eol s' = true → heading_text P t →
  ∃ l w, t = l +:+ w ∧ heading_text P l ∧ no_lf l ∧ spaces w ∧ at_eol (w +:+ s') = true.
Proof.
  intros Hnb Hs' (ws1 & v & ws2 & ws3 & d & ws4 & -> & H1 & H1' & Hv & H2 & H2' & H3 & H3'
                  & Hd & H4).
  assert (∀ l post, "##" +:+ ws1 +:+ v +:+ ws2 +:+ "-" +:+ ws3 +:+ d +:+ ws4 = l +:+ String LF post →
            no_lf l → broken_heading_line l = true → False) as Hbroken.
  { intros l post E Hl Hbr. rewrite (Hnb l (String LF post +:+ s')) in Hbr; [done| |done..].
    by rewrite E, app_assoc_str. }
  apply P_version in Hv as Hv'.
  pose proof (no_lf_version _ Hv') as Hnv. pose proof (no_lf_date _ Hd) as Hnd.
  destruct (spaces_first_lf _ H1) as [Hn1|(a & b & -> & Ha & Hna & Hb)].
  2:{ exfalso. apply (Hbroken ("##" +:+ a) (b +:+ v +:+ ws2 +:+ "-" +:+ ws3 +:+ d +:+ ws4)).
      - by str_norm.
      - by apply no_lf_app.
      - unfold broken_heading_line.
        rewrite (line_matches_intro BROKEN_AFTER_HASHES); [done|].
        by apply broken_after_hashes. }
  destruct (spaces_first_lf _ H2) as [Hn2|(a & b & -> & Ha & Hna & Hb)].
  2:{ exfalso. apply (Hbroken ("##" +:+ ws1 +:+ v +:+ a) (b +:+ "-" +:+ ws3 +:+ d +:+ ws4)).
      - by str_norm.
      - rewrite !no_lf_app. done.
      - unfold broken_heading_line.
        rewrite (line_matches_intro BROKEN_AFTER_VERSION); [by rewrite orb_true_r|].
        by apply broken_after_version. }
  destruct (spaces_first_lf _ H3) as [Hn3|(a & b & -> & Ha & Hna & Hb)].
  2:{ exfalso. apply (Hbroken ("##" +:+ ws1 +:+ v +:+ ws2 +:+ "-" +:+ a) (b +:+ d +:+ ws4)).
      - by str_norm.
      - rewrite !no_lf_app. done.
      - unfold broken_heading_line.
        rewrite (line_matches_intro BROKEN_AFTER_DASH); [by rewrite !orb_true_r|].
        by apply broken_after_dash. }
  destruct (spaces_first_lf _ H4) as [Hn4|(a & b & -> & Ha & Hna & Hb)].
  - exists ("##" +:+ ws1 +:+ v +:+ ws2 +:+ "-" +:+ ws3 +:+ d +:+ ws4), "".
    split; [by str_norm|]. split; [by exists ws1, v, ws2, ws3, d, ws4|].
    split; [by rewrite !no_lf_app|]. done.
  - exists ("##" +:+ ws1 +:+ v +:+ ws2 +:+ "-" +:+ ws3 +:+ d +:+ a), (String LF b).
    split; [by str_norm|]. split; [by exists ws1, v, ws2, ws3, d, a|].
    split; [by rewrite !no_lf_app|]. split; [|done].
    unfold spaces in *. simpl. done.
Qed.

(** In a text without broken headings every match is of that kind. *)
Lemma match_is_heading_line pre t s' :
  no_broken_headings (pre +:+ t +:+ s') →
  at_bol (last_char None pre) = true → at_eol s' = true → heading_text P t →
  ∃ l w, t = l +:+ w ∧ heading_text P l ∧ no_lf l ∧ spaces w ∧ at_eol (w +:+ s') = true.
Proof.
  intros Hnb Hpre Hs' Hh. apply first_line_heading; [|done..].
  intros l post E Hl Hpost.
  unfold no_broken_headings in Hnb. rewrite Forall_forall in Hnb. apply Hnb.
  rewrite E. by apply lines_mid.
Qed.

(** In a text without broken headings, the search finds nothing exactly
    when no line matches. *)
Lemma search_None_no_heading_line content :
  no_broken_headings content →
  (search r content = None ↔ Forall (λ l, line_matches r l = false) (lines content)).
Proof.
  intros Hnb. split.
  - intros E. apply Forall_forall. intros l Hl.
    destruct (line_matches r l) eqn:Hm; [|done].
    destruct (heading_line_found _ _ Hl Hm). congruence.
  - rewrite Forall_forall. intros Hno.
    destruct (search r content) as [mt|] eqn:E; [|done]. exfalso.
    apply search_from_Some in E as (pre & s2 & -> & E & _).
    apply match_at_Matches in E as (t & s' & -> & HM & _).
    assert (∃ g, Matches r (last_char None pre) t s' g) as HM' by eauto.
    apply r_heading in HM' as (Hpre & Hs' & Hh).
    destruct (match_is_heading_line pre t s' Hnb Hpre Hs' Hh)
      as (l & w & -> & Hl & Hnl & Hw & Hpost).
    apply line_matches_heading in Hl; [|done]. rewrite Hno in Hl; [done|].
    rewrite app_assoc_str. by apply lines_mid.
Qed.
End heading_patterns.

(** ** The notes of a release *)

Lemma until_next_None s :
  (∀ pre s2, s = pre +:+ s2 → ¬ matches_here any_release_pattern (last_char None pre) s2) →
  until_next s = s.
Proof. intros H. apply search_None in H. unfold until_next. by rewrite H. Qed.

Lemma until_next_Some a s2 :
  matches_here any_release_pattern (last_char None a) s2 →
  (∀ pre1 s1, a +:+ s2 = pre1 +:+ s1 → (String.length pre1 < String.length a)%nat →
     ¬ matches_here any_release_pattern (last_char None pre1) s1) →
  until_next (a +:+ s2) = a.
Proof.
  intros Hm Hleft. unfold until_next.
  destruct (search_is_Some any_release_pattern (a +:+ s2) a s2 eq_refl Hm) as [mt E].
  rewrite E. apply search_Some in E as (pre & t & s' & E & HM & -> & _ & Hleft').
  assert (String.length pre = String.length a) as Hlen.
  { destruct (Nat.lt_trichotomy (String.length pre) (String.length a)) as [Hlt|[?|Hlt]]; [|done|].
    - destruct (Hleft pre (t +:+ s') E Hlt). destruct HM as [g HM]. by exists t, s', g.
    - by destruct (Hleft' a s2 eq_refl Hlt). }
  rewrite Hlen. apply substring_0_app.
Qed.

(** A stretch of text in which no match starts, before a text at whose start
    no match starts either, is kept whole. *)
Lemma until_next_skip a s :
  (∀ a1 a2, a = a1 +:+ a2 → a2 ≠ "" →
     ¬ matches_here any_release_pattern (last_char None a1) (a2 +:+ s)) →
  at_eol s = true →
  until_next (a +:+ s) = a +:+ until_next s.
Proof.
  intros Ha Hs.
  pose proof (no_match_at_eol _ _ any_release_pattern_heading) as Heol.
  assert (∀ pre1 s1, a +:+ s = pre1 +:+ s1 → (String.length pre1 ≤ String.length a)%nat →
            ¬ matches_here any_release_pattern (last_char None pre1) s1) as Hbefore.
  { intros pre1 s1 E Hle. destruct (str_app_eq_app _ _ _ _ E) as [(e & He & ->)|(e & He & -> & _)].
    - destruct (decide (e = "")) as [->|Hne]; [rewrite str_app_nil_l; by apply Heol|].
      by apply Ha.
    - rewrite length_app_str in Hle. destruct e; [done|simpl in Hle; lia]. }
  unfold until_next at 2. destruct (search any_release_pattern s) as [mt|] eqn:E.
  - apply search_Some in E as (pre & t & s' & -> & [g HM] & -> & _ & Hleft).
    rewrite substring_0_app. rewrite <-app_assoc_str.
    assert (pre ≠ "") as Hpre.
    { intros ->. apply (Heol None _ Hs). rewrite str_app_nil_l. by exists t, s', g. }
    apply until_next_Some.
    + rewrite last_char_app. destruct pre as [|c pre]; [done|]. simpl. by exists t, s', g.
    + intros pre1 s1 E Hlt. rewrite app_assoc_str in E.
      destruct (decide (String.length pre1 ≤ String.length a)%nat) as [Hle|Hgt];
        [by apply Hbefore|].
      destruct (str_app_eq_app _ _ _ _ E) as [(e & He & ->)|(e & He & -> & E')]; [|].
      * rewrite He, length_app_str in Hgt. lia.
      * rewrite last_char_app.
        assert (last_char (last_char None a) e = last_char None e) as -> by by destruct e.
        apply Hleft; [done|]. rewrite !length_app_str in Hlt. lia.
  - rewrite search_None in E. apply until_next_None. intros pre1 s1 E'.
    destruct (decide (String.length pre1 ≤ String.length a)%nat) as [Hle|Hgt];
      [by apply Hbefore|].
    destruct (str_app_eq_app _ _ _ _ E') as [(e & He & ->)|(e & He & -> & E'')].
    + rewrite He, length_app_str in Hgt. lia.
    + rewrite last_char_app.
      assert (last_char (last_char None a) e = last_char None e) as -> by by destruct e.
      by apply E.
Qed.

(** Line by line, the text up to the next release heading is the text the
    specification describes. *)
Lemma until_next_post_of ls :
  Forall no_lf ls → Forall (λ l, broken_heading_line l = false) ls →
  until_next (post_of ls) = spec_body ls.
Proof.
  pose proof any_release_pattern_heading as Hr.
  assert (∀ v, version_shape v → version_shape v) as HP by done.
  induction ls as [|l ls IH]; intros Hls Hnb.
  - apply until_next_None. intros pre s2 E. destruct pre, s2; try done.
    by apply (no_match_empty _ _ Hr).
  - apply Forall_cons in Hls as [Hl Hls]. apply Forall_cons in Hnb as [Hb Hnb].
    simpl. destruct (line_matches any_release_pattern l) eqn:Hm.
    + change (String LF (l +:+ post_of ls)) with (String LF "" +:+ l +:+ post_of ls).
      apply until_next_Some.
      * simpl. apply (matches_here_heading _ _ Hr). split; [done|].
        exists l, (post_of ls). split; [done|]. split; [apply at_eol_post_of|].
        by apply (line_matches_heading _ _ Hr).
      * intros pre1 s1 E Hlt. destruct pre1; [|simpl in Hlt; lia].
        rewrite str_app_nil_l in E. subst s1. by apply (no_match_other _ _ Hr).
    + rewrite <-(IH Hls Hnb).
      change (String LF (l +:+ post_of ls)) with (String LF "" +:+ l +:+ post_of ls).
      rewrite <-app_assoc_str, until_next_skip; [by rewrite app_assoc_str|
                                                | apply at_eol_post_of].
      intros a1 a2 E Hne. destruct a1 as [|c a1].
      * rewrite str_app_nil_l in E. subst a2. by apply (no_match_other _ _ Hr).
      * rewrite !str_app_cons, str_app_nil_l in E. injection E as <- E.
        destruct (decide (a1 = "")) as [->|Hne1].
        -- rewrite str_app_nil_l in E. subst a2. simpl.
           intros (_ & t & s' & E & Hs' & Hh)%(matches_here_heading _ _ Hr).
           destruct (first_line_heading version_shape HP t s') as (l' & w & -> & Hl' & Hnl' & Hw & Hpost);
             [|done..|].
           ++ intros l0 post0 E0 Hl0 Hpost0.
              rewrite <-E in E0.
              destruct (first_line_unique _ _ _ _ E0 Hl Hl0 (at_eol_post_of ls) Hpost0) as [<- _].
              done.
           ++ rewrite app_assoc_str in E.
              destruct (first_line_unique _ _ _ _ E Hl Hnl' (at_eol_post_of ls) Hpost) as [<- _].
              apply (line_matches_heading _ _ Hr) in Hl'; [|done]. congruence.
        -- subst l. intros (Hb' & _)%(matches_here_heading _ _ Hr).
           apply no_lf_app in Hl as [Hl1 _]. simpl in Hb'. by rewrite last_char_no_lf in Hb'.
Qed.

(** White space between the end of the match and the end of the heading line
    and after it does not change the cut. *)
Lemma until_next_spaces w s :
  spaces w → at_eol s = true → until_next (w +:+ s) = w +:+ until_next s.
Proof.
  intros Hw Hs. apply until_next_skip; [|done].
  intros a1 a2 -> Hne. destruct a2 as [|c a2]; [done|]. rewrite str_app_cons.
  apply (no_match_space _ _ any_release_pattern_heading).
  unfold spaces in Hw. rewrite all_chars_app in Hw. simpl in Hw.
  by apply andb_true_iff in Hw as [_ [? _]%andb_true_iff].
Qed.

Lemma spec_find_body_app version before l after :
  Forall (λ l0, line_matches (release_pattern version) l0 = false) before →
  line_matches (release_pattern version) l = true →
  spec_find_body version (before ++ l :: after) = Some (spec_body after).
Proof.
  induction before as [|l0 before IH]; intros Hb Hl; simpl; [by rewrite Hl|].
  apply Forall_cons in Hb as [-> Hb]. auto.
Qed.

Lemma spec_find_body_None version ls :
  Forall (λ l, line_matches (release_pattern version) l = false) ls →
  spec_find_body version ls = None.
Proof. induction 1 as [|l ls Hl _ IH]; simpl; [done|]. by rewrite Hl. Qed.

Lemma slice_from a s k :
  slice (a +:+ s) (String.length a) (String.length a + k) = substring 0 k s.
Proof.
  pose proof (slice_app a s 0 k) as H. rewrite Nat.add_0_r in H. rewrite H.
  unfold slice. by rewrite Nat.sub_0_r.
Qed.

Lemma slice_to_end a s :
  slice (a +:+ s) (String.length a) (String.length (a +:+ s)) = s.
Proof. by rewrite length_app_str, slice_from, substring_all. Qed.

Lemma extract_release_notes_eq fs path content version :
  fs path = Some content →
  extract_release_notes path version fs =
    match search (release_pattern version) content with
    | None => Raise (ValueError (err_not_found version))
    | Some mt =>
        let notes := strip (until_next (drop_str (m_end mt) content)) in
        Return (if bool_decide (notes = "") then "Release v" +:+ version else notes)
    end.
Proof.
  intros Hfs. unfold extract_release_notes, mbind, IO_bind, read_text. rewrite Hfs.
  destruct (search (release_pattern version) content) as [mt|] eqn:E; [|done].
  apply search_Some in E as (pre & t & s' & -> & _ & _ & -> & _).
  rewrite <-app_assoc_str, drop_str_app. unfold until_next, mret, IO_ret.
  destruct (search any_release_pattern s') as [next|].
  - by rewrite slice_from.
  - by rewrite slice_to_end.
Qed.

(** ** Documents without broken headings

    On a text in which no line is the beginning of a broken heading, the
    script and the line-by-line reading of the specification agree. *)

(** The release notes are those the specification describes: the text from the
    end of the first heading line of the version to the start of the next
    heading line or the end of the document, trimmed, or the placeholder; and
    the not-found error when no line is a heading of the version. *)
Theorem release_notes_line_by_line
    (fs : FileSystem) (path : Path) (content version : string) :
  fs path = Some content →
  version_shape version →
  no_broken_headings content →
  extract_release_notes path version fs = spec_release_notes content version.
Proof.
  intros Hfs Hv Hnb. rewrite (extract_release_notes_eq _ _ _ _ Hfs). unfold spec_release_notes.
  pose proof (release_pattern_heading version) as Hr.
  assert (∀ v, version = v → version_shape v) as HP by by intros v <-.
  destruct (search (release_pattern version) content) as [mt|] eqn:E.
  2:{ apply (search_None_no_heading_line _ _ Hr HP) in E; [|done].
      by rewrite spec_find_body_None. }
  apply search_Some in E as (pre & t & s' & -> & HM & _ & -> & Hleft).
  apply Hr in HM as (Hpre & Hs' & Hh).
  destruct (match_is_heading_line _ HP pre t s' Hnb Hpre Hs' Hh)
    as (l & w & -> & Hl & Hnl & Hw & Hpost).
  rewrite !app_assoc_str in *.
  assert (drop_str (String.length (pre +:+ l +:+ w)) (pre +:+ l +:+ w +:+ s') = s') as ->.
  { rewrite <-(drop_str_app (pre +:+ l +:+ w) s') at 2. by rewrite !app_assoc_str. }
  cbv zeta.
  destruct (lines_around pre l (w +:+ s') Hpre Hnl Hpost) as (before & after & Hlines & Hafter & Hbefore).
  rewrite Hlines, spec_find_body_app.
  - rewrite <-(until_next_post_of after), <-Hafter, until_next_spaces, strip_spaces; try done.
    + pose proof (lines_no_lf (pre +:+ l +:+ w +:+ s')) as Hno. rewrite Hlines in Hno.
      apply Forall_app in Hno as [_ Hno]. by apply Forall_cons in Hno as [_ Hno].
    + unfold no_broken_headings in Hnb. rewrite Hlines in Hnb.
      apply Forall_app in Hnb as [_ Hnb']. by apply Forall_cons in Hnb' as [_ Hnb'].
  - apply Forall_forall. intros l0 (a & b & -> & Hb & Ha & Hl0 & Hb')%Hbefore.
    destruct (line_matches (release_pattern version) l0) eqn:Hm; [|done]. exfalso.
    apply (line_matches_heading _ _ Hr) in Hm; [|done].
    apply (Hleft a (l0 +:+ b +:+ l +:+ w +:+ s')).
    + by rewrite !app_assoc_str.
    + rewrite !length_app_str. destruct b; [done|]. simpl. lia.
    + apply (matches_here_heading _ _ Hr). split; [done|].
      exists l0, (b +:+ l +:+ w +:+ s'). split; [done|]. split; [|done].
      by rewrite at_eol_app.
  - by apply (line_matches_heading _ _ Hr).
Qed.

(** With no heading line for the version, and only then, the version is not
    found. *)
Theorem not_found_iff_no_heading_line
    (fs : FileSystem) (path : Path) (content version : string) :
  fs path = Some content →
  version_shape version →
  no_broken_headings content →
  (extract_release_notes path version fs = Raise (ValueError (err_not_found version))
   ↔ Forall (λ l, line_matches (release_pattern version) l = false) (lines content)).
Proof.
  intros Hfs Hv Hnb. rewrite (extract_release_notes_eq _ _ _ _ Hfs).
  rewrite <-(search_None_no_heading_line _ _ (release_pattern_heading version)); [| |done].
  - by destruct (search (release_pattern version) content).
  - by intros v <-.
Qed.

(** With several heading lines for the version, the notes are those of the
    first. *)
Corollary release_notes_first_occurrence
    (fs : FileSystem) (path : Path) (content version : string)
    (before : list string) (l : string) (after : list string) :
  fs path = Some content →
  version_shape version →
  no_broken_headings content →
  lines content = before ++ l :: after →
  Forall (λ l0, line_matches (release_pattern version) l0 = false) before →
  line_matches (release_pattern version) l = true →
  extract_release_notes path version fs
  = Return (let notes := strip (spec_body after) in
            if bool_decide (notes = "") then "Release v" +:+ version else notes).
Proof.
  intros Hfs Hv Hnb Hlines Hbefore Hl.
  rewrite (release_notes_line_by_line _ _ _ _ Hfs Hv Hnb). unfold spec_release_notes.
  by rewrite Hlines, spec_find_body_app.
Qed.

(** Lines that are no heading lines yield no headings: a document with the
    title and no heading line fails with the no-headings diagnostic. *)
Theorem no_heading_line_no_headings
    (fs : FileSystem) (path : Path) (content : string) :
  fs path = Some content →
  no_broken_headings content →
  Forall (λ l, line_matches HEADING_RE l = false) (lines content) →
  load_headings path fs = Return []
  ∧ (startswith content "# Changelog" = true →
     validate_changelog path fs = Return (false, ERR_NO_HEADINGS)).
Proof.
  intros Hfs Hnb Hno.
  apply (search_None_no_heading_line _ _ HEADING_RE_heading) in Hno; [|done..].
  assert (headings_of content = []) as Hnil.
  { unfold headings_of, finditer. by rewrite finditer_from_nil. }
  split.
  - by rewrite (load_headings_eq _ _ _ Hfs), Hnil.
  - intros Htitle. by rewrite (validate_changelog_eq _ _ _ Hfs), Htitle, Hnil.
Qed.

Example release_notes_line_by_line_example :
  extract_release_notes CHANGELOG "2.0.0" (single_file CHANGELOG doc_near_misses_in_body)
  = spec_release_notes doc_near_misses_in_body "2.0.0".
Proof.
  apply release_notes_line_by_line.
  - reflexivity.
  - exists "2", "0", "0". vm_compute. repeat split; reflexivity.
  - apply (bool_decide_unpack _). vm_compute. exact I.
Qed.

Example release_notes_first_occurrence_example :
  extract_release_notes CHANGELOG "1.0.0" (single_file CHANGELOG doc_repeated)
  = Return "Second take.".
Proof.
  rewrite (release_notes_first_occurrence _ _ doc_repeated "1.0.0"
             ["# Changelog"; ""] "## 1.0.0 - 2024-06-01"
             ["Second take."; ""; "## 1.0.0 - 2024-01-01"; "First take."; ""]).
  - vm_compute. reflexivity.
  - reflexivity.
  - exists "1", "0", "0". vm_compute. repeat split; reflexivity.
  - apply (bool_decide_unpack _). vm_compute. exact I.
  - vm_compute. reflexivity.
  - apply (bool_decide_unpack _). vm_compute. exact I.
  - vm_compute. reflexivity.
Qed.

Example no_heading_line_no_headings_example :
  validate_changelog CHANGELOG (single_file CHANGELOG doc_near_misses)
  = Return (false, ERR_NO_HEADINGS).
Proof.
  apply (no_heading_line_no_headings _ _ doc_near_misses).
  - reflexivity.
  - apply (bool_decide_unpack _). vm_compute. exact I.
  - apply (bool_decide_unpack _). vm_compute. exact I.
  - reflexivity.
Qed.

(** ** The headings of a document without broken headings *)

Lemma HEADING_RE_parts b t s g :
  Matches HEADING_RE b t s g →
  ∃ v d, g = [("date", d); ("version", v)] ∧ heading_parts v d t.
Proof.
  intros H. unfold HEADING_RE in H. inv_pattern.
  match goal with
  | |- ∃ _ _, _ ∧ heading_parts _ _
         (_ +:+ _ +:+ ?w1 +:+ (?a +:+ _ +:+ ?b +:+ _ +:+ ?c) +:+ ?w2 +:+ _
          +:+ ?w3 +:+ (?y +:+ _ +:+ ?mo +:+ _ +:+ ?da) +:+ ?w4 +:+ _) =>
      exists (a +:+ "." +:+ b +:+ "." +:+ c), (y +:+ "-" +:+ mo +:+ "-" +:+ da);
      split; [done|]; exists w1, w2, w3, w4
  end.
  split; [by str_norm|].
  repeat split; auto using nonempty_length.
  - eexists _, _, _. split; [done|]. auto using is_digits_intro.
  - eexists _, _, _. split; [done|]. repeat split; eauto using exact_length.
Qed.

Lemma heading_parts_text v d t : heading_parts v d t → heading_text version_shape t.
Proof. intros (ws1 & ws2 & ws3 & ws4 & H). exists ws1, v, ws2, ws3, d, ws4. tauto. Qed.

(** A run of characters of a class, followed by a text that does not go on
    with a character of the class, is determined. *)

Lemma span_unique p a : ∀ x a' x',
  a +:+ x = a' +:+ x' → all_chars p a = true → all_chars p a' = true →
  starts_outside p x → starts_outside p x' → a = a' ∧ x = x'.
Proof.
  induction a as [|c a IH]; intros x a' x' E Ha Ha' Hx Hx'.
  - rewrite str_app_nil_l in E. subst x. destruct a' as [|c' a']; [done|].
    rewrite str_app_cons in Hx. simpl in *. apply andb_true_iff in Ha' as [Hc _]. congruence.
  - destruct a' as [|c' a'].
    + rewrite str_app_nil_l in E. subst x'. rewrite str_app_cons in Hx'. simpl in *.
      apply andb_true_iff in Ha as [Hc _]. congruence.
    + rewrite !str_app_cons in E. injection E as <- E. simpl in *.
      apply andb_true_iff in Ha as [_ Ha]. apply andb_true_iff in Ha' as [_ Ha'].
      destruct (IH _ _ _ E Ha Ha' Hx Hx') as [-> ->]. done.
Qed.

Lemma version_chars v : version_shape v → all_chars version_char v = true.
Proof.
  intros (a & b & c & -> & Ha & Hb & Hc). rewrite !all_chars_app.
  assert (∀ t, is_digits t = true → all_chars version_char t = true) as H.
  { intros t Ht. apply is_digits_all in Ht. revert Ht. apply all_chars_impl.
    intros x Hx. unfold version_char. by rewrite Hx. }
  by rewrite (H a Ha), (H b Hb), (H c Hc).
Qed.

Lemma version_starts v x : version_shape v → starts_outside isspace (v +:+ x).
Proof.
  intros (a & b & c & -> & Ha & _). unfold is_digits in Ha.
  apply andb_true_iff in Ha as [Ha Hne]. destruct a as [|y a]; [done|].
  rewrite !str_app_cons. simpl in *. apply andb_true_iff in Ha as [Hy _].
  destruct (isspace y) eqn:E; [|done]. exfalso. revert Hy E. clear.
  unfold isdecimal, isspace. destruct (N_of_ascii y) as [|p]; [done|].
  intros H1 H2. apply andb_true_iff in H1 as [H1 H1']. apply N.leb_le in H1, H1'.
  repeat (apply orb_true_iff in H2 as [H2|H2]);
    rewrite ?andb_true_iff, ?N.leb_le, ?N.eqb_eq in H2; lia.
Qed.

Lemma date_starts d x : date_shape d → starts_outside isspace (d +:+ x).
Proof.
  intros (y & mo & da & -> & Hy & Hlen & _). destruct y as [|c y]; [done|].
  rewrite !str_app_cons. simpl in *. apply andb_true_iff in Hy as [Hc _].
  destruct (isspace c) eqn:E; [|done]. exfalso. revert Hc E. clear.
  unfold isdecimal, isspace. destruct (N_of_ascii c) as [|p]; [done|].
  intros H1 H2. apply andb_true_iff in H1 as [H1 H1']. apply N.leb_le in H1, H1'.
  repeat (apply orb_true_iff in H2 as [H2|H2]);
    rewrite ?andb_true_iff, ?N.leb_le, ?N.eqb_eq in H2; lia.
Qed.

Lemma spaces_start ws x : spaces ws → ws ≠ "" → starts_outside version_char (ws +:+ x).
Proof.
  unfold spaces. destruct ws as [|c ws]; [done|]. intros Hc _. rewrite str_app_cons. simpl in *.
  apply andb_true_iff in Hc as [Hc _]. unfold version_char.
  apply orb_false_iff. split.
  - destruct (isdecimal c) eqn:E; [|done]. exfalso. revert Hc E. clear.
    unfold isdecimal, isspace. destruct (N_of_ascii c) as [|p]; [done|].
    intros H2 H1. apply andb_true_iff in H1 as [H1 H1']. apply N.leb_le in H1, H1'.
    repeat (apply orb_true_iff in H2 as [H2|H2]);
      rewrite ?andb_true_iff, ?N.leb_le, ?N.eqb_eq in H2; lia.
  - apply bool_decide_eq_false. intros ->. by vm_compute in Hc.
Qed.

Lemma date_length d : date_shape d → String.length d = 10%nat.
Proof.
  intros (y & mo & da & -> & _ & Hy & _ & Hmo & _ & Hda).
  rewrite !length_app_str. simpl. lia.
Qed.

(** The version and the date of a heading text are determined by the text,
    whatever follows it. *)
Lemma heading_parts_unique v d t v' d' t' w :
  heading_parts v d t → heading_parts v' d' t' → t = t' +:+ w → v = v' ∧ d = d'.
Proof.
  intros (ws1 & ws2 & ws3 & ws4 & -> & H1 & H1' & Hv & H2 & H2' & H3 & H3' & Hd & H4)
         (us1 & us2 & us3 & us4 & -> & U1 & U1' & Hv' & U2 & U2' & U3 & U3' & Hd' & U4) E.
  rewrite !app_assoc_str, !str_app_cons, !str_app_nil_l in E. injection E as E.
  apply span_unique with (p := isspace) in E as [-> E]; auto using version_starts.
  apply span_unique with (p := version_char) in E as [-> E];
    auto using version_chars, spaces_start.
  split; [done|].
  apply span_unique with (p := isspace) in E as [-> E]; [|done..].
  injection E as E.
  apply span_unique with (p := isspace) in E as [-> E]; auto using date_starts.
  apply str_app_inv_length in E as [-> _]; [done|].
  by rewrite !date_length.
Qed.

Lemma finditer_skip_irrelevant r s : ∀ b n k,
  (∀ pre s2, s = pre +:+ s2 → (String.length pre < k)%nat →
     ¬ matches_here r (last_char b pre) s2) →
  finditer_from r b n k s = finditer_from r b n 0 s.
Proof.
  induction s as [|c s IH]; intros b n k H; destruct k as [|k]; try done.
  - simpl. rewrite (proj2 (match_at_None_iff r b n "")); [done|].
    apply (H "" ""); [done|simpl; lia].
  - simpl. rewrite (proj2 (match_at_None_iff r b n (String c s))).
    + apply IH. intros pre s2 -> Hlt. apply (H (String c pre) s2); [done|simpl; lia].
    + apply (H "" (String c s)); [done|simpl; lia].
Qed.

Lemma finditer_no_match r a : ∀ s b n,
  (∀ a1 a2, a = a1 +:+ a2 → a2 ≠ "" → ¬ matches_here r (last_char b a1) (a2 +:+ s)) →
  finditer_from r b n 0 (a +:+ s) = finditer_from r (last_char b a) (n + String.length a) 0 s.
Proof.
  induction a as [|c a IH]; intros s b n H.
  - by rewrite str_app_nil_l, Nat.add_0_r.
  - rewrite str_app_cons. simpl.
    rewrite (proj2 (match_at_None_iff r b n (String c (a +:+ s)))).
    + rewrite IH; [f_equal; lia|].
      intros a1 a2 -> Hne. by apply (H (String c a1) a2).
    + by apply (H "" (String c a)).
Qed.

Lemma unlines_post_of l ls : unlines (l :: ls) = l +:+ post_of ls.
Proof.
  destruct ls as [|l' ls]; [by rewrite str_app_nil_r|].
  by rewrite unlines_cons, post_of_unlines.
Qed.

Lemma startswith_app p s : startswith (p +:+ s) p = true.
Proof.
  induction p as [|c p IH]; [by destruct s|].
  rewrite str_app_cons. simpl. by rewrite bool_decide_eq_true_2.
Qed.

(** A text whose first line is the title line starts with [# Changelog]. *)
Lemma title_line_startswith content :
  has_title_line content → startswith content "# Changelog" = true.
Proof.
  unfold has_title_line. intros H. pose proof (unlines_lines content) as E.
  destruct (lines content) as [|l ls]; [done|]. simpl in H. injection H as ->.
  rewrite <-E, unlines_post_of. apply startswith_app.
Qed.

Lemma search_Some_groups r s mt :
  search r s = Some mt →
  ∃ pre t s', s = pre +:+ t +:+ s' ∧ Matches r (last_char None pre) t s' (m_groups mt).
Proof.
  unfold search. intros (pre & s2 & -> & Hm & _)%search_from_Some.
  apply match_at_Matches in Hm as (t & s' & -> & HM & _). eauto.
Qed.

(** What a heading line yields, alone and in the text. *)
Lemma heading_of_line_Some l h :
  no_lf l → heading_of_line l = Some h → heading_parts h.1 h.2 l.
Proof.
  intros Hl. unfold heading_of_line. intros (mt & E & ->)%fmap_Some. simpl.
  apply search_Some_groups in E as (pre & t & s' & -> & HM).
  apply no_lf_app in Hl as [Hpre [Ht Hs']%no_lf_app].
  assert (∃ g, Matches HEADING_RE (last_char None pre) t s' g) as (Hb & Hs & _)%HEADING_RE_heading
    by eauto.
  apply no_lf_at_eol in Hs as ->; [|done].
  destruct pre as [|c pre]; [|by rewrite last_char_no_lf in Hb].
  rewrite str_app_nil_l, str_app_nil_r.
  apply HEADING_RE_parts in HM as (v & d & Hg & Hparts).
  unfold heading_of_match, group. by rewrite Hg.
Qed.

Lemma heading_of_line_None l :
  heading_of_line l = None ↔ line_matches HEADING_RE l = false.
Proof.
  unfold heading_of_line, line_matches. rewrite fmap_None, bool_decide_eq_false.
  by rewrite eq_None_not_Some.
Qed.

(** No match starts inside a line. *)
Lemma no_match_inside l a1 a2 s :
  no_lf l → l = a1 +:+ a2 → a1 ≠ "" → ¬ matches_here HEADING_RE (last_char None a1) (a2 +:+ s).
Proof.
  intros Hl -> Hne (Hb & _)%(matches_here_heading _ _ HEADING_RE_heading).
  apply no_lf_app in Hl as [Hl _]. by rewrite last_char_no_lf in Hb.
Qed.

Lemma last_char_nonempty b b' a : a ≠ "" → last_char b a = last_char b' a.
Proof. by destruct a. Qed.

(** The scan of one line: its heading, if it is a heading line, and then the
    scan of what follows the line. *)
Lemma finditer_line l post b n :
  at_bol b = true → no_lf l → at_eol post = true → broken_heading_line l = false →
  heading_of_match <$> finditer_from HEADING_RE b n 0 (l +:+ post)
  = option_list (heading_of_line l)
    ++ (heading_of_match <$>
          finditer_from HEADING_RE (last_char b l) (n + String.length l) 0 post).
Proof.
  pose proof HEADING_RE_heading as Hr.
  assert (∀ v, version_shape v → version_shape v) as HP by done.
  intros Hb Hl Hpost Hnb.
  assert (∀ t s', l +:+ post = t +:+ s' → at_eol s' = true → heading_text version_shape t →
            ∃ w, t = l +:+ w ∧ post = w +:+ s' ∧ spaces w ∧ heading_text version_shape l) as Hline.
  { intros t s' E Hs' Hh.
    destruct (first_line_heading version_shape HP t s') as (l0 & w & -> & Hl0 & Hnl0 & Hw & Hpost0);
      [|done..|].
    - intros l0 post0 E0 Hl0 Hpost0. rewrite <-E in E0.
      by destruct (first_line_unique _ _ _ _ E0 Hl Hl0 Hpost Hpost0) as [<- _].
    - rewrite app_assoc_str in E.
      destruct (first_line_unique _ _ _ _ E Hl Hnl0 Hpost Hpost0) as [<- ->]. eauto. }
  assert (∀ a1 a2 b', l = a1 +:+ a2 → a1 ≠ "" →
            ¬ matches_here HEADING_RE (last_char b' a1) (a2 +:+ post)) as Hinside.
  { intros a1 a2 b' E Hne. rewrite (last_char_nonempty b' None) by done.
    by eapply no_match_inside. }
  destruct (heading_of_line l) as [h|] eqn:Hh.
  - apply heading_of_line_Some in Hh as Hparts; [|done].
    assert (matches_here HEADING_RE b (l +:+ post)) as Hm.
    { apply (matches_here_heading _ _ Hr). split; [done|]. exists l, post.
      eauto using heading_parts_text. }
    apply (match_at_matches_here _ _ n) in Hm as [mt Hmt].
    pose proof Hmt as (t & s' & E & HM & _ & Hend)%match_at_Matches.
    pose proof HM as (v & d & Hg & Hparts')%HEADING_RE_parts.
    assert (∃ g, Matches HEADING_RE b t s' g) as (_ & Hs' & Ht)%Hr by eauto.
    destruct (Hline t s' E Hs' Ht) as (w & -> & -> & Hw & _).
    destruct (heading_parts_unique _ _ _ _ _ _ _ Hparts' Hparts eq_refl) as [-> ->].
    destruct l as [|c l1]; [by destruct Hparts as (? & ? & ? & ? & ? & _)|].
    rewrite !str_app_cons in *. cbn [finditer_from]. rewrite Hmt.
    rewrite fmap_cons. simpl option_list. unfold heading_of_match at 1. unfold group.
    rewrite Hg. simpl lookup_group.
    destruct h as [hv hd]. simpl in *. f_equal.
    rewrite finditer_skip_irrelevant.
    + rewrite finditer_no_match; [do 2 f_equal; lia|].
      intros a1 a2 -> Hne. by apply (Hinside (String c a1) a2 None).
    + intros pre s2 E' Hlt. rewrite Hend, length_app_str in Hlt. simpl in Hlt.
      destruct (str_app_eq_app _ _ _ _ E') as [(e & -> & ->)|(e & He & -> & E'')].
      * destruct (decide (e = "")) as [->|Hne].
        -- rewrite str_app_nil_l. by apply (no_match_at_eol _ _ Hr).
        -- by apply (Hinside (String c pre) e None).
      * destruct (str_app_eq_app _ _ _ _ E'') as [(e' & -> & ->)|(e' & He' & -> & _)].
        -- rewrite length_app_str in Hlt.
           destruct e' as [|x e']; [rewrite str_app_nil_r in Hlt; lia|].
           rewrite str_app_cons. apply (no_match_space _ _ Hr).
           unfold spaces in Hw. rewrite all_chars_app in Hw. simpl in Hw.
           by apply andb_true_iff in Hw as [_ [? _]%andb_true_iff].
        -- rewrite !length_app_str in Hlt. destruct e'; [done|simpl in Hlt; lia].
  - simpl. f_equal. apply finditer_no_match. intros a1 a2 E Hne.
    destruct (decide (a1 = "")) as [->|Hne1]; [|by apply Hinside].
    rewrite str_app_nil_l in E. subst a2. simpl.
    intros (_ & t & s' & E & Hs' & Ht)%(matches_here_heading _ _ Hr).
    destruct (Hline t s' E Hs' Ht) as (w & _ & _ & _ & Hhl).
    apply heading_of_line_None in Hh. apply (line_matches_heading _ _ Hr) in Hhl; [|done].
    congruence.
Qed.

Lemma finditer_post_of ls : ∀ b n,
  Forall no_lf ls → Forall (λ l, broken_heading_line l = false) ls →
  heading_of_match <$> finditer_from HEADING_RE b n 0 (post_of ls) = omap heading_of_line ls.
Proof.
  pose proof HEADING_RE_heading as Hr.
  induction ls as [|l ls IH]; intros b n Hls Hnb.
  - simpl. by rewrite (proj2 (match_at_None_iff _ _ _ _) (no_match_empty _ _ Hr b)).
  - apply Forall_cons in Hls as [Hl Hls]. apply Forall_cons in Hnb as [Hb Hnb].
    cbn [post_of finditer_from].
    rewrite (proj2 (match_at_None_iff _ _ _ _)) by by apply (no_match_other _ _ Hr).
    rewrite finditer_line; [|done|done|apply at_eol_post_of|done].
    rewrite IH by done. simpl. by destruct (heading_of_line l).
Qed.

(** The headings of a document without broken headings are those of its
    heading lines, in order. *)
Theorem headings_line_by_line (content : string) :
  no_broken_headings content → headings_of content = spec_headings content.
Proof.
  intros Hnb. unfold headings_of, spec_headings, finditer.
  pose proof (lines_no_lf content) as Hno. unfold no_broken_headings in Hnb.
  rewrite <-(unlines_lines content) at 1.
  destruct (lines content) as [|l ls]; [done|].
  apply Forall_cons in Hno as [Hl Hls]. apply Forall_cons in Hnb as [Hb Hnb].
  rewrite unlines_post_of, finditer_line; [|done|done|apply at_eol_post_of|done].
  rewrite finditer_post_of by done. simpl. by destruct (heading_of_line l).
Qed.

Corollary load_headings_line_by_line (fs : FileSystem) (path : Path) (content : string) :
  fs path = Some content → no_broken_headings content →
  load_headings path fs = Return (spec_headings content).
Proof.
  intros Hfs Hnb. by rewrite (load_headings_eq _ _ _ Hfs), headings_line_by_line.
Qed.

(** A well-formed document without broken headings validates: with the
    title line, and heading lines that have pairwise distinct versions, valid
    dates and strictly descending triples, the first of them with numbers
    that [int] converts, validation succeeds with the version of the first
    heading line, which is the greatest. *)
Theorem well_formed_document_validates
    (fs : FileSystem) (path : Path) (content : string)
    (first : heading) (rest : list heading) :
  fs path = Some content →
  has_title_line content →
  no_broken_headings content →
  spec_headings content = first :: rest →
  NoDup (first :: rest).*1 →
  Forall valid_date (first :: rest) →
  descending (first :: rest).*1 →
  is_Some (parse_semver first.1) →
  validate_changelog path fs = Return (true, first.1)
  ∧ ∀ h, h ∈ first :: rest → version_le h.1 first.1.
Proof.
  intros Hfs Htitle Hnb Hhs Hnd Hdate Hdesc Hfirst.
  apply (validate_changelog_passes fs path content); auto using title_line_startswith.
  by rewrite headings_line_by_line.
Qed.

Example well_formed_document_validates_example :
  validate_changelog CHANGELOG (single_file CHANGELOG doc_example) = Return (true, "2.0.0")
  ∧ ∀ h, h ∈ [("2.0.0", "2024-06-01"); ("1.0.0", "2024-01-01")] → version_le h.1 "2.0.0".
Proof.
  apply (well_formed_document_validates
           (single_file CHANGELOG doc_example) CHANGELOG doc_example
           ("2.0.0", "2024-06-01") [("1.0.0", "2024-01-01")]).
  - reflexivity.
  - reflexivity.
  - apply (bool_decide_unpack _). vm_compute. exact I.
  - vm_compute. reflexivity.
  - apply (bool_decide_unpack _). vm_compute. exact I.
  - repeat constructor; vm_compute; eauto.
  - intros [|[|i]] a b Ha Hb; simplify_eq/=.
    exists (1, 0, 0), (2, 0, 0). vm_compute. repeat split; reflexivity.
  - vm_compute. eauto.
Qed.

Example headings_line_by_line_example :
  load_headings CHANGELOG (single_file CHANGELOG doc_near_misses_in_body)
  = Return [("2.0.0", "2024-06-01"); ("1.0.0", "2024-01-01")].
Proof.
  rewrite (load_headings_line_by_line _ _ doc_near_misses_in_body).
  - vm_compute. reflexivity.
  - reflexivity.
  - apply (bool_decide_unpack _). vm_compute. exact I.
Qed.

(** ** Release notes: headings broken across lines

    In the three patterns of the script [\s+] also matches line feeds, so the
    pieces of a heading may stand on successive lines and still match.  The
    five results below evaluate the script on such documents, next to the
    line-by-line reading of the specification. *)

(** C1. [doc_broken_on_top] is well formed as the claim has it: the title
    line, and two heading lines, [2.0.0] above [1.0.0], with distinct
    versions, valid dates and descending triples, so the claim predicts the
    verdict with the version [2.0.0] of the topmost heading line.  The script
    takes [## 9.9.9] and the line below it for a heading and returns the
    version [9.9.9], which is the version of no heading line. *)
Theorem C1_broken_heading_is_the_latest_version :
  has_title_line doc_broken_on_top
  ∧ spec_headings doc_broken_on_top = [("2.0.0", "2024-06-01"); ("1.0.0", "2024-01-01")]
  ∧ NoDup [("2.0.0", "2024-06-01"); ("1.0.0", "2024-01-01")].*1
  ∧ Forall valid_date [("2.0.0", "2024-06-01"); ("1.0.0", "2024-01-01")]
  ∧ descending [("2.0.0", "2024-06-01"); ("1.0.0", "2024-01-01")].*1
  ∧ load_headings CHANGELOG (single_file CHANGELOG doc_broken_on_top)
    = Return [("9.9.9", "2024-12-31"); ("2.0.0", "2024-06-01"); ("1.0.0", "2024-01-01")]
  ∧ validate_changelog CHANGELOG (single_file CHANGELOG doc_broken_on_top)
    = Return (true, "9.9.9").
Proof.
  split; [vm_compute; reflexivity|]. split; [vm_compute; reflexivity|].
  split; [apply (bool_decide_unpack _); vm_compute; exact I|].
  split; [repeat constructor; vm_compute; eauto|].
  split.
  { intros [|[|i]] a b Ha Hb; simplify_eq/=.
    exists (1, 0, 0), (2, 0, 0). vm_compute. repeat split; reflexivity. }
  split; vm_compute; reflexivity.
Qed.

(** C7. No line of [doc_only_broken] is a heading line for [1.0.0] (its only
    [##] line lacks the date), so the not-found error is what the claim
    predicts; the script finds an entry and returns the placeholder. *)
Theorem C7_broken_heading_is_found :
  Forall (λ l, line_matches (release_pattern "1.0.0") l = false) (lines doc_only_broken)
  ∧ spec_release_notes doc_only_broken "1.0.0" = Raise (ValueError (err_not_found "1.0.0"))
  ∧ extract_release_notes CHANGELOG "1.0.0" (single_file CHANGELOG doc_only_broken)
    = Return "Release v1.0.0".
Proof.
  split; [|split]; [|vm_compute; reflexivity..].
  apply (bool_decide_unpack _). vm_compute. exact I.
Qed.

(** C2. In [doc_broken_heading] the heading line of [2.0.0] is followed by no
    other heading line, so the text up to the end of the document is what the
    claim predicts; the script stops at the broken heading of [1.0.0]. *)
Theorem C2_notes_stop_at_broken_heading :
  line_matches (release_pattern "2.0.0") "## 2.0.0 - 2024-06-01" = true
  ∧ "## 2.0.0 - 2024-06-01" ∈ lines doc_broken_heading
  ∧ spec_release_notes doc_broken_heading "2.0.0" = Return
"Breaking change.

## 1.0.0
- 2024-01-01"
  ∧ extract_release_notes CHANGELOG "2.0.0" (single_file CHANGELOG doc_broken_heading)
    = Return "Breaking change.".
Proof.
  split; [|split; [|split]]; [vm_compute; reflexivity| |vm_compute; reflexivity..].
  apply (bool_decide_unpack _). vm_compute. exact I.
Qed.

(** C8. [doc_repeated_broken] has two heading lines for [1.0.0]; the script
    takes the first, as the claim says, but ends its notes at the broken
    heading of [0.9.0], which is no heading line, instead of the next heading
    line. *)
Theorem C8_first_occurrence_stops_at_broken_heading :
  length (filter (λ l, line_matches (release_pattern "1.0.0") l = true)
            (lines doc_repeated_broken)) = 2%nat
  ∧ spec_release_notes doc_repeated_broken "1.0.0" = Return
"Second take.

## 0.9.0
- 2024-03-01"
  ∧ extract_release_notes CHANGELOG "1.0.0" (single_file CHANGELOG doc_repeated_broken)
    = Return "Second take.".
Proof. split; [|split]; vm_compute; reflexivity. Qed.

(** C9. The only [##] line of [doc_only_broken] is no heading line, so the
    claim predicts the no-headings diagnostic; the script extracts a heading
    from it and the line below it and validates the document. *)
Theorem C9_broken_heading_is_extracted :
  Forall (λ l, line_matches HEADING_RE l = false) (lines doc_only_broken)
  ∧ load_headings CHANGELOG (single_file CHANGELOG doc_only_broken)
    = Return [("1.0.0", "2024-01-01")]
  ∧ validate_changelog CHANGELOG (single_file CHANGELOG doc_only_broken)
    = Return (true, "1.0.0").
Proof.
  split; [|split]; [|vm_compute; reflexivity..].
  apply (bool_decide_unpack _). vm_compute. exact I.
Qed.

(** The near-misses that C9 names are ignored: alone they leave the document
    without headings, and inside a section they belong to its notes. *)
Example near_misses_are_no_headings :
  validate_changelog CHANGELOG (single_file CHANGELOG doc_near_misses)
  = Return (false, ERR_NO_HEADINGS).
Proof. vm_compute. reflexivity. Qed.

Example near_misses_stay_in_the_notes :
  extract_release_notes CHANGELOG "2.0.0" (single_file CHANGELOG doc_near_misses_in_body)
  = Return
"Breaking change.
## Unreleased
## 1.0 - 2024-01-01
## 1.0.0 - 2024-1-1
More.".
Proof. vm_compute. reflexivity. Qed.

(** The examples of section 8 of the specification. *)
Example spec_examples :
  validate_changelog CHANGELOG (single_file CHANGELOG doc_example) = Return (true, "2.0.0")
  ∧ extract_release_notes CHANGELOG "1.0.0" (single_file CHANGELOG doc_example)
    = Return "Initial release."
  ∧ extract_release_notes CHANGELOG "2.0.0" (single_file CHANGELOG doc_example)
    = Return "Breaking change."
  ∧ extract_release_notes CHANGELOG "9.9.9" (single_file CHANGELOG doc_example)
    = Raise (ValueError (err_not_found "9.9.9"))
  ∧ validate_changelog CHANGELOG (single_file CHANGELOG doc_ascending)
    = Return (false, ERR_ORDER).
Proof. split; [|split; [|split; [|split]]]; vm_compute; reflexivity. Qed.

(** * Further properties of the script *)

(** ** What a verdict of the validator tells *)

Lemma descending_cons v vs :
  (∀ w, head vs = Some w → version_lt w v) → descending vs → descending (v :: vs).
Proof.
  intros Hh Hd [|i] a b Ha Hb; simplify_eq/=.
  - apply Hh. by destruct vs; simplify_eq/=.
  - by apply (Hd i).
Qed.

(** The headings the loop runs through have fresh, pairwise distinct versions,
    valid dates and descending triples: the converse of [loop_state_pass]. *)
Lemma loop_state_inv hs : ∀ seen prev st,
  loop_state seen prev hs = Some st →
  (∀ h, h ∈ hs → h.1 ∉ seen)
  ∧ NoDup hs.*1
  ∧ Forall valid_date hs
  ∧ descending hs.*1
  ∧ (∀ v p, head hs.*1 = Some v → prev = Some p →
       ∃ t, parse_semver v = Some t ∧ tuple_ge t p = false)
  ∧ (∀ h, h ∈ hs → is_Some (parse_semver h.1)).
Proof.
  induction hs as [|[v d] hs IH]; intros seen prev st H.
  - split; [by intros h ?%elem_of_nil|]. split; [constructor|]. split; [constructor|].
    split; [by intros i a b ?|]. split; [done|]. by intros h ?%elem_of_nil.
  - cbn [loop_state] in H.
    destruct (loop_body_cases seen prev v d)
      as [[? E]|[(? & ? & E)|[(? & ? & ? & E)|[(t & p & ? & ? & ? & ? & ? & E)|(t & Hv & Hd & Ht & Hprev & E)]]]];
      rewrite E in H; try done.
    apply IH in H as (Hseen & Hnd & Hdate & Hdesc & Hhead & Hparse).
    split; [|split; [|split; [|split; [|split]]]].
    + intros h [->|Hh]%elem_of_cons; [done|]. intros Hin.
      apply (Hseen h Hh), elem_of_union. by right.
    + rewrite fmap_cons. apply NoDup_cons. split; [|done]. simpl.
      intros (h & Heq & Hh)%list_elem_of_fmap. apply (Hseen h Hh), elem_of_union. left.
      by apply elem_of_singleton.
    + by constructor.
    + rewrite fmap_cons. apply descending_cons; [|done]. intros w Hw.
      destruct (Hhead w t Hw eq_refl) as (tw & Htw & Hlt). by exists tw, t.
    + intros v' p. rewrite fmap_cons. simpl. intros [= <-] ->. exists t. auto.
    + intros h [->|Hh]%elem_of_cons; [by eexists|]. by apply Hparse.
Qed.

(** Where the loop returns before its end: after a prefix of headings that
    pass, at the heading whose iteration returns. *)
Lemma for_headings_stop hs : ∀ seen prev after r,
  for_headings seen prev hs after = r → r ≠ after →
  ∃ pre h rest seen' prev',
    hs = pre ++ h :: rest
    ∧ loop_state seen prev pre = Some (seen', prev')
    ∧ loop_body seen' prev' h = inl r.
Proof.
  induction hs as [|h hs IH]; intros seen prev after r H Hne; [simpl in H; congruence|].
  cbn [for_headings] in H. destruct (loop_body seen prev h) as [r'|[s p]] eqn:E.
  - subst r'. by exists [], h, hs, seen, prev.
  - destruct (IH _ _ _ _ H Hne) as (pre & h' & rest & seen' & prev' & -> & Hst & Hb).
    exists (h :: pre), h', rest, seen', prev'. split; [done|]. split; [|done].
    cbn [loop_state]. by rewrite E.
Qed.

Lemma for_headings_true hs : ∀ seen prev after v,
  for_headings seen prev hs after = Return (true, v) →
  is_Some (loop_state seen prev hs) ∧ after = Return (true, v).
Proof.
  induction hs as [|[w d] hs IH]; intros seen prev after v H; [by split; [eexists|]|].
  cbn [for_headings loop_state] in *.
  destruct (loop_body_cases seen prev w d)
    as [[? E]|[(? & ? & E)|[(? & ? & ? & E)|[(t & p & ? & ? & ? & ? & ? & E)|(t & ? & ? & ? & ? & E)]]]];
    rewrite E in *; try done.
  by apply IH.
Qed.

(** The verdict of the loop, or the error of [parse_semver]. *)
Lemma for_headings_verdict hs : ∀ seen prev after,
  for_headings seen prev hs after = after
  ∨ (∃ h, h ∈ hs ∧ for_headings seen prev hs after = Return (false, err_duplicate h.1))
  ∨ (∃ h, h ∈ hs ∧ for_headings seen prev hs after = Return (false, err_date h.1 h.2))
  ∨ for_headings seen prev hs after = Return (false, ERR_ORDER)
  ∨ (∃ h, h ∈ hs ∧ parse_semver h.1 = None
       ∧ for_headings seen prev hs after = Raise LibraryError).
Proof.
  induction hs as [|[v d] hs IH]; intros seen prev after; [by left|].
  cbn [for_headings].
  destruct (loop_body_cases seen prev v d)
    as [[? E]|[(? & ? & E)|[(? & ? & Hn & E)|[(t & p & ? & ? & ? & ? & ? & E)|(t & ? & ? & ? & ? & E)]]]];
    rewrite E.
  - right. left. exists (v, d). split; [left|done].
  - right. right. left. exists (v, d). split; [left|done].
  - do 4 right. exists (v, d). split; [left|done].
  - by do 3 right; left.
  - destruct (IH ({[v]} ∪ seen) (Some t) after)
      as [R|[(h & Hh & R)|[(h & Hh & R)|[R|(h & Hh & Hp & R)]]]].
    + by left.
    + right. left. exists h. split; [by right|done].
    + right. right. left. exists h. split; [by right|done].
    + by do 3 right; left.
    + do 4 right. exists h. split; [by right|done].
Qed.

(** X1. A successful validation is sound: when [validate_changelog] returns
    [(True, v)], the file is readable, its text starts with [# Changelog],
    [load_headings] yields at least one heading, [v] is the version of the
    first, the versions are pairwise distinct, every date is a calendar date,
    the triples are strictly descending, and no heading has a triple above
    that of [v]. *)
Theorem X1_successful_validation_is_sound (fs : FileSystem) (path : Path) (v : string) :
  validate_changelog path fs = Return (true, v) →
  ∃ content first rest,
    fs path = Some content
    ∧ startswith content "# Changelog" = true
    ∧ load_headings path fs = Return (first :: rest)
    ∧ v = first.1
    ∧ NoDup (first :: rest).*1
    ∧ Forall valid_date (first :: rest)
    ∧ descending (first :: rest).*1
    ∧ ∀ h, h ∈ first :: rest → version_le h.1 v.
Proof.
  intros H. destruct (fs path) as [content|] eqn:Hfs.
  2:{ unfold validate_changelog, mbind, IO_bind, read_text in H. by rewrite Hfs in H. }
  rewrite (validate_changelog_eq _ _ _ Hfs) in H.
  destruct (startswith content "# Changelog") eqn:Htitle; [|done]. simpl in H.
  destruct (headings_of content) as [|first rest] eqn:Hhs; [done|].
  apply for_headings_true in H as [[st Hst] [= <-]].
  apply loop_state_inv in Hst as (_ & Hnd & Hdate & Hdesc & _ & Hparse).
  exists content, first, rest. rewrite (load_headings_eq _ _ _ Hfs), Hhs.
  repeat split; try done.
  intros h Hh. apply (descending_max rest.*1 first.1).
  - apply Hparse. by left.
  - by rewrite <-fmap_cons.
  - rewrite <-fmap_cons. by apply list_elem_of_fmap_2.
Qed.

Lemma X1_witness :
  ∃ content first rest,
    single_file CHANGELOG doc_ten_above_two CHANGELOG = Some content
    ∧ startswith content "# Changelog" = true
    ∧ load_headings CHANGELOG (single_file CHANGELOG doc_ten_above_two) = Return (first :: rest)
    ∧ "10.0.0" = first.1
    ∧ NoDup (first :: rest).*1
    ∧ Forall valid_date (first :: rest)
    ∧ descending (first :: rest).*1
    ∧ ∀ h, h ∈ first :: rest → version_le h.1 "10.0.0".
Proof.
  apply (X1_successful_validation_is_sound (single_file CHANGELOG doc_ten_above_two) CHANGELOG).
  vm_compute. reflexivity.
Defined.

(** ** The diagnostics, one by one *)

Lemma str_app_inv_head s : ∀ a b, s +:+ a = s +:+ b → a = b.
Proof. induction s as [|c s IH]; intros a b E; [done|]. rewrite !str_app_cons in E. injection E. auto. Qed.

Lemma err_duplicate_inj v w : err_duplicate v = err_duplicate w → v = w.
Proof. apply str_app_inv_head. Qed.

Lemma err_date_inj v d w e :
  version_shape v → version_shape w → err_date v d = err_date w e → v = w ∧ d = e.
Proof.
  intros Hv Hw E. unfold err_date in E. apply str_app_inv_head in E.
  apply span_unique with (p := version_char) in E as [-> E];
    [|auto using version_chars..|by rewrite str_app_cons|by rewrite str_app_cons].
  by apply str_app_inv_head in E.
Qed.

(** Two diagnostics that differ from their first characters on. *)
Ltac diagnostics_differ E :=
  exfalso; cbn [fst snd] in E; revert E; unfold err_duplicate, err_date;
  rewrite ?str_app_cons; discriminate.

(** The results an iteration of the loop can return. *)
Lemma loop_body_returns seen prev h r :
  loop_body seen prev h = inl r →
  (h.1 ∈ seen ∧ r = Return (false, err_duplicate h.1))
  ∨ ((h.1 ∉ seen) ∧ date_fromisoformat h.2 = None ∧ r = Return (false, err_date h.1 h.2))
  ∨ ((h.1 ∉ seen) ∧ valid_date h ∧ parse_semver h.1 = None ∧ r = Raise LibraryError)
  ∨ ((h.1 ∉ seen) ∧ valid_date h
     ∧ (∃ t p, parse_semver h.1 = Some t ∧ prev = Some p ∧ tuple_ge t p = true)
     ∧ r = Return (false, ERR_ORDER)).
Proof.
  destruct h as [v d]. simpl. intros H.
  destruct (loop_body_cases seen prev v d)
    as [[? E]|[(? & ? & E)|[(? & ? & ? & E)|[(t & p & ? & ? & ? & ? & ? & E)|(t & ? & ? & ? & ? & E)]]]];
    rewrite E in H; simplify_eq; eauto 12.
Qed.

(** The headings above the one at which validation stops have passed. *)
Lemma loop_state_passed pre seen prev :
  loop_state ∅ None pre = Some (seen, prev) →
  NoDup pre.*1 ∧ Forall valid_date pre ∧ descending pre.*1
  ∧ Forall (λ h, is_Some (parse_semver h.1)) pre
  ∧ ∀ v, v ∈ seen ↔ v ∈ pre.*1.
Proof.
  intros H. pose proof (loop_state_inv _ _ _ _ H) as (_ & Hnd & Hdate & Hdesc & _ & Hparse).
  split; [done|]. split; [done|]. split; [done|]. split; [by apply Forall_forall|].
  intros v. split.
  - intros Hv. apply (loop_state_seen _ _ _ _ _ H) in Hv as [[]%elem_of_empty|?]. done.
  - intros Hv. apply (loop_state_seen _ _ _ _ _ H). by right.
Qed.

Lemma headings_pass pre :
  NoDup pre.*1 → Forall valid_date pre → descending pre.*1 →
  Forall (λ h, is_Some (parse_semver h.1)) pre →
  ∃ seen prev, loop_state ∅ None pre = Some (seen, prev) ∧ ∀ v, v ∈ seen ↔ v ∈ pre.*1.
Proof.
  intros Hnd Hdate Hdesc Hparse.
  destruct (loop_state_pass pre ∅ None) as [[seen prev] Hpre]; auto.
  { intros x _. apply not_elem_of_empty. }
  { by apply Forall_forall. }
  { by intros v t p _ _ [=]. }
  exists seen, prev. split; [done|]. by apply loop_state_passed in Hpre as (_ & _ & _ & _ & ?).
Qed.

Lemma loop_body_raise seen prev v d :
  v ∉ seen → is_Some (date_fromisoformat d) → parse_semver v = None →
  loop_body seen prev (v, d) = inl (Raise LibraryError).
Proof.
  intros Hv [x Hd] Ht. unfold loop_body. by rewrite bool_decide_eq_false_2, Hd, Ht.
Qed.

Lemma validate_changelog_stop fs path content pre h rest seen prev r :
  fs path = Some content →
  startswith content "# Changelog" = true →
  headings_of content = pre ++ h :: rest →
  loop_state ∅ None pre = Some (seen, prev) →
  loop_body seen prev h = inl r →
  validate_changelog path fs = r.
Proof.
  intros Hfs Htitle Hhs Hpre Hr.
  rewrite (validate_changelog_eq _ _ _ Hfs), Htitle, Hhs. simpl negb. cbv iota.
  destruct (pre ++ h :: rest) as [|first l] eqn:E; [by destruct pre|]. rewrite <-E.
  rewrite (for_headings_app _ _ _ _ _ _ _ Hpre). cbn [for_headings]. by rewrite Hr.
Qed.

Lemma validate_changelog_failure fs path content msg :
  fs path = Some content →
  validate_changelog path fs = Return (false, msg) →
  startswith content "# Changelog" = false ∧ msg = ERR_TITLE
  ∨ startswith content "# Changelog" = true ∧ headings_of content = [] ∧ msg = ERR_NO_HEADINGS
  ∨ startswith content "# Changelog" = true
    ∧ ∃ pre h rest seen prev,
        headings_of content = pre ++ h :: rest
        ∧ loop_state ∅ None pre = Some (seen, prev)
        ∧ loop_body seen prev h = inl (Return (false, msg)).
Proof.
  intros Hfs H. rewrite (validate_changelog_eq _ _ _ Hfs) in H.
  destruct (startswith content "# Changelog"); simpl in H; [|left; by simplify_eq].
  right. destruct (headings_of content) as [|first l] eqn:E; [left; by simplify_eq|].
  right. split; [done|]. rewrite <-E in *. by apply for_headings_stop in H.
Qed.

(** X2. On a readable file [validate_changelog] returns [(True, v)] with [v]
    the version of the first heading, or [False] with one of its five
    diagnostics, the duplicate and the date diagnostics naming a heading of
    the file; or else it raises the error of [parse_semver], and that only
    when [parse_semver] raises on the version of a heading of the file. *)
Theorem X2_validation_verdict_or_parse_error
    (fs : FileSystem) (path : Path) (content : string) :
  fs path = Some content →
  (∃ ok info,
     validate_changelog path fs = Return (ok, info)
     ∧ if ok then ∃ first rest, load_headings path fs = Return (first :: rest) ∧ info = first.1
       else info = ERR_TITLE
            ∨ info = ERR_NO_HEADINGS
            ∨ (∃ h, h ∈ headings_of content ∧ info = err_duplicate h.1)
            ∨ (∃ h, h ∈ headings_of content ∧ info = err_date h.1 h.2)
            ∨ info = ERR_ORDER)
  ∨ (validate_changelog path fs = Raise LibraryError
     ∧ ∃ h, h ∈ headings_of content ∧ parse_semver h.1 = None).
Proof.
  intros Hfs. rewrite (validate_changelog_eq _ _ _ Hfs), (load_headings_eq _ _ _ Hfs).
  destruct (startswith content "# Changelog"); simpl; [|left; exists false, ERR_TITLE; auto].
  destruct (headings_of content) as [|first l] eqn:E; [left; exists false, ERR_NO_HEADINGS; auto|].
  rewrite <-E.
  destruct (for_headings_verdict (headings_of content) ∅ None (Return (true, first.1)))
    as [R|[(h & Hh & R)|[(h & Hh & R)|[R|(h & Hh & Hp & R)]]]]; rewrite R.
  - left. exists true, first.1. split; [done|]. rewrite E. by exists first, l.
  - left. exists false, (err_duplicate h.1). eauto 10.
  - left. exists false, (err_date h.1 h.2). eauto 10.
  - left. exists false, ERR_ORDER. auto 10.
  - right. eauto.
Qed.

Lemma X2_witness :
  (∃ ok info,
     validate_changelog CHANGELOG (single_file CHANGELOG doc_bad_date) = Return (ok, info)
     ∧ if ok then ∃ first rest,
                    load_headings CHANGELOG (single_file CHANGELOG doc_bad_date)
                      = Return (first :: rest) ∧ info = first.1
       else info = ERR_TITLE
            ∨ info = ERR_NO_HEADINGS
            ∨ (∃ h, h ∈ headings_of doc_bad_date ∧ info = err_duplicate h.1)
            ∨ (∃ h, h ∈ headings_of doc_bad_date ∧ info = err_date h.1 h.2)
            ∨ info = ERR_ORDER)
  ∨ (validate_changelog CHANGELOG (single_file CHANGELOG doc_bad_date) = Raise LibraryError
     ∧ ∃ h, h ∈ headings_of doc_bad_date ∧ parse_semver h.1 = None).
Proof.
  apply (X2_validation_verdict_or_parse_error (single_file CHANGELOG doc_bad_date) CHANGELOG).
  reflexivity.
Defined.

(** X3. On a readable file, validation fails with the no-headings diagnostic
    exactly when the text starts with [# Changelog] and [load_headings] finds
    no heading in it. *)
Theorem X3_no_headings_diagnostic_iff (fs : FileSystem) (path : Path) (content : string) :
  fs path = Some content →
  (validate_changelog path fs = Return (false, ERR_NO_HEADINGS)
   ↔ startswith content "# Changelog" = true ∧ load_headings path fs = Return []).
Proof.
  intros Hfs. rewrite (load_headings_eq _ _ _ Hfs). split.
  - intros H.
    destruct (validate_changelog_failure _ _ _ _ Hfs H)
      as [[_ E]|[(Ht & E & _)|(Ht & pre & h & rest & seen & prev & _ & _ & Hr)]];
      [by vm_compute in E|by rewrite E|exfalso].
    apply loop_body_returns in Hr as [[_ E]|[(_ & _ & E)|[(_ & _ & _ & E)|(_ & _ & _ & E)]]];
      [| |discriminate E|]; by diagnostics_differ E.
  - intros [Ht [= E]]. by rewrite (validate_changelog_eq _ _ _ Hfs), Ht, E.
Qed.

Lemma X3_witness :
  validate_changelog CHANGELOG (single_file CHANGELOG doc_near_misses)
    = Return (false, ERR_NO_HEADINGS)
  ↔ startswith doc_near_misses "# Changelog" = true
    ∧ load_headings CHANGELOG (single_file CHANGELOG doc_near_misses) = Return [].
Proof.
  apply (X3_no_headings_diagnostic_iff (single_file CHANGELOG doc_near_misses) CHANGELOG).
  reflexivity.
Defined.

(** X4. On a readable file, validation fails with the duplicate diagnostic
    for [v] exactly when the text starts with [# Changelog] and some heading
    has the version string of a heading above it, while the headings above it
    have pairwise distinct versions, valid dates, versions on which
    [parse_semver] returns, and strictly descending triples (it is the first
    repetition, and nothing above it fails or raises). *)
Theorem X4_duplicate_diagnostic_iff
    (fs : FileSystem) (path : Path) (content v : string) :
  fs path = Some content →
  (validate_changelog path fs = Return (false, err_duplicate v)
   ↔ startswith content "# Changelog" = true
     ∧ ∃ pre d rest,
         load_headings path fs = Return (pre ++ (v, d) :: rest)
         ∧ v ∈ pre.*1
         ∧ NoDup pre.*1
         ∧ Forall valid_date pre
         ∧ descending pre.*1
         ∧ Forall (λ h, is_Some (parse_semver h.1)) pre).
Proof.
  intros Hfs. rewrite (load_headings_eq _ _ _ Hfs). split.
  - intros H.
    destruct (validate_changelog_failure _ _ _ _ Hfs H)
      as [[_ E]|[(Ht & _ & E)|(Ht & pre & [w d] & rest & seen & prev & Hhs & Hpre & Hr)]];
      [by vm_compute in E|by vm_compute in E|].
    split; [done|].
    apply loop_state_passed in Hpre as (Hnd & Hdate & Hdesc & Hparse & Hseen).
    apply loop_body_returns in Hr as [[Hw E]|[(_ & _ & E)|[(_ & _ & _ & E)|(_ & _ & _ & E)]]];
      [|exfalso..].
    + cbn [fst snd] in E.
      assert (err_duplicate w = err_duplicate v) as <-%err_duplicate_inj by congruence.
      simpl in Hw. exists pre, d, rest. rewrite Hhs. by rewrite <-Hseen.
    + by diagnostics_differ E.
    + discriminate E.
    + by diagnostics_differ E.
  - intros (Ht & pre & d & rest & [= Hhs] & Hv & Hnd & Hdate & Hdesc & Hparse).
    destruct (headings_pass _ Hnd Hdate Hdesc Hparse) as (seen & prev & Hpre & Hseen).
    apply (validate_changelog_stop _ _ _ _ _ _ _ _ _ Hfs Ht Hhs Hpre).
    apply loop_body_duplicate. by apply Hseen.
Qed.

Lemma X4_witness :
  validate_changelog CHANGELOG (single_file CHANGELOG doc_repeated)
    = Return (false, err_duplicate "1.0.0")
  ↔ startswith doc_repeated "# Changelog" = true
    ∧ ∃ pre d rest,
        load_headings CHANGELOG (single_file CHANGELOG doc_repeated)
          = Return (pre ++ ("1.0.0", d) :: rest)
        ∧ "1.0.0" ∈ pre.*1
        ∧ NoDup pre.*1
        ∧ Forall valid_date pre
        ∧ descending pre.*1
        ∧ Forall (λ h, is_Some (parse_semver h.1)) pre.
Proof.
  apply (X4_duplicate_diagnostic_iff (single_file CHANGELOG doc_repeated) CHANGELOG).
  reflexivity.
Defined.

(** X5. On a readable file and for a version [v] of the form [X.Y.Z],
    validation fails with the date diagnostic for [v] and [d] exactly when the
    text starts with [# Changelog] and some heading has the version [v] and
    the date string [d], [d] is no calendar date, [v] is not the version of a
    heading above it, and the headings above it have pairwise distinct
    versions, valid dates, versions on which [parse_semver] returns, and
    strictly descending triples. *)
Theorem X5_date_diagnostic_iff
    (fs : FileSystem) (path : Path) (content v d : string) :
  fs path = Some content →
  version_shape v →
  (validate_changelog path fs = Return (false, err_date v d)
   ↔ startswith content "# Changelog" = true
     ∧ ∃ pre rest,
         load_headings path fs = Return (pre ++ (v, d) :: rest)
         ∧ date_fromisoformat d = None
         ∧ (v ∉ pre.*1)
         ∧ NoDup pre.*1
         ∧ Forall valid_date pre
         ∧ descending pre.*1
         ∧ Forall (λ h, is_Some (parse_semver h.1)) pre).
Proof.
  intros Hfs Hv. rewrite (load_headings_eq _ _ _ Hfs). split.
  - intros H.
    destruct (validate_changelog_failure _ _ _ _ Hfs H)
      as [[_ E]|[(Ht & _ & E)|(Ht & pre & [w e] & rest & seen & prev & Hhs & Hpre & Hr)]];
      [by diagnostics_differ E..|].
    split; [done|].
    apply loop_state_passed in Hpre as (Hnd & Hdate & Hdesc & Hparse & Hseen).
    assert (version_shape w) as Hw.
    { apply (headings_of_shape content (w, e)). rewrite Hhs. apply elem_of_app. right. left. }
    apply loop_body_returns in Hr as [[_ E]|[(Hnew & He & E)|[(_ & _ & _ & E)|(_ & _ & _ & E)]]];
      [exfalso| |exfalso..].
    + by diagnostics_differ E.
    + cbn [fst snd] in E.
      assert (err_date w e = err_date v d) as E' by congruence.
      simpl in *. apply err_date_inj in E' as [-> ->]; [|done..].
      exists pre, rest. rewrite Hhs. by rewrite <-Hseen.
    + discriminate E.
    + by diagnostics_differ E.
  - intros (Ht & pre & rest & [= Hhs] & Hd & Hnew & Hnd & Hdate & Hdesc & Hparse).
    destruct (headings_pass _ Hnd Hdate Hdesc Hparse) as (seen & prev & Hpre & Hseen).
    apply (validate_changelog_stop _ _ _ _ _ _ _ _ _ Hfs Ht Hhs Hpre).
    apply loop_body_date; [|done]. by rewrite Hseen.
Qed.

Lemma X5_witness :
  validate_changelog CHANGELOG (single_file CHANGELOG doc_bad_date)
    = Return (false, err_date "0.5.0" "2024-02-30")
  ↔ startswith doc_bad_date "# Changelog" = true
    ∧ ∃ pre rest,
        load_headings CHANGELOG (single_file CHANGELOG doc_bad_date)
          = Return (pre ++ ("0.5.0", "2024-02-30") :: rest)
        ∧ date_fromisoformat "2024-02-30" = None
        ∧ ("0.5.0" ∉ pre.*1)
        ∧ NoDup pre.*1
        ∧ Forall valid_date pre
        ∧ descending pre.*1
        ∧ Forall (λ h, is_Some (parse_semver h.1)) pre.
Proof.
  apply (X5_date_diagnostic_iff (single_file CHANGELOG doc_bad_date) CHANGELOG).
  - reflexivity.
  - exists "0", "5", "0". vm_compute. repeat split; reflexivity.
Defined.

(** ** [latest_version] *)

Lemma validate_changelog_unreadable fs path :
  fs path = None → validate_changelog path fs = Raise LibraryError.
Proof. intros H. unfold validate_changelog, mbind, IO_bind, read_text. by rewrite H. Qed.

(** [validate_changelog] raises when the file cannot be read, and when its
    loop reaches a version on which [parse_semver] raises; in no other case. *)
Lemma validate_changelog_raises fs path e :
  validate_changelog path fs = Raise e →
  e = LibraryError
  ∧ (fs path = None
     ∨ ∃ content, fs path = Some content
         ∧ startswith content "# Changelog" = true
         ∧ reaches_unparsed_version content).
Proof.
  intros H. destruct (fs path) as [content|] eqn:Hfs.
  - rewrite (validate_changelog_eq _ _ _ Hfs) in H.
    destruct (startswith content "# Changelog") eqn:Ht; simpl in H; [|done].
    destruct (headings_of content) as [|first l] eqn:E; [done|]. rewrite <-E in H.
    apply for_headings_stop in H as (pre & h & rest & seen & prev & Hhs & Hpre & Hr); [|done].
    apply loop_state_passed in Hpre as (Hnd & Hdate & Hdesc & Hparse & Hseen).
    apply loop_body_returns in Hr as [[_ R]|[(_ & _ & R)|[(Hnew & Hd & Hp & R)|(_ & _ & _ & R)]]];
      [discriminate R..|injection R as ->|discriminate R].
    split; [done|]. right. exists content. split; [done|]. split; [done|].
    exists pre, h, rest. rewrite <-Hseen. done.
  - rewrite validate_changelog_unreadable in H by done. injection H as <-. auto.
Qed.

Lemma validate_changelog_parse_error fs path content :
  fs path = Some content →
  startswith content "# Changelog" = true →
  reaches_unparsed_version content →
  validate_changelog path fs = Raise LibraryError.
Proof.
  intros Hfs Ht (pre & [v d] & rest & Hhs & Hnd & Hdate & Hdesc & Hparse & Hnew & Hd & Hp).
  destruct (headings_pass _ Hnd Hdate Hdesc Hparse) as (seen & prev & Hpre & Hseen).
  apply (validate_changelog_stop _ _ _ _ _ _ _ _ _ Hfs Ht Hhs Hpre).
  apply loop_body_raise; [|done..]. by rewrite Hseen.
Qed.

Lemma latest_version_eq fs path :
  latest_version path fs =
    match validate_changelog path fs with
    | Return (true, info) => Return info
    | Return (false, info) => Raise (ValueError info)
    | Raise e => Raise e
    end.
Proof.
  unfold latest_version, mbind, IO_bind.
  destruct (validate_changelog path fs) as [[[] info]|e]; done.
Qed.

(** X6. [latest_version] returns [v] exactly when validation succeeds with
    [v]; it raises its own [ValueError], with the diagnostic as message,
    exactly when validation fails with that diagnostic; and it lets an error
    of [validate_changelog] pass exactly when the file is unreadable or the
    loop of the validation reaches a version on which [parse_semver] raises.
    A version it returns has the form [X.Y.Z], is the version of the first
    heading, and no heading of the file has a triple above its triple. *)
Theorem X6_latest_version_is_the_verdict (fs : FileSystem) (path : Path) :
  (∀ v, latest_version path fs = Return v ↔ validate_changelog path fs = Return (true, v))
  ∧ (∀ msg, latest_version path fs = Raise (ValueError msg)
            ↔ validate_changelog path fs = Return (false, msg))
  ∧ (∀ e, latest_version path fs = Raise e → ¬ (∃ msg, e = ValueError msg) →
          e = LibraryError ∧ validate_changelog path fs = Raise LibraryError)
  ∧ (latest_version path fs = Raise LibraryError
     ↔ fs path = None
       ∨ ∃ content, fs path = Some content
           ∧ startswith content "# Changelog" = true
           ∧ reaches_unparsed_version content)
  ∧ (∀ v, latest_version path fs = Return v →
       version_shape v
       ∧ ∃ first rest, load_headings path fs = Return (first :: rest)
           ∧ v = first.1
           ∧ ∀ h, h ∈ first :: rest → version_le h.1 v).
Proof.
  rewrite latest_version_eq. split; [|split; [|split; [|split]]].
  - intros v. destruct (validate_changelog path fs) as [[[] info]|e]; split; congruence.
  - intros msg. destruct (validate_changelog path fs) as [[[] info]|e] eqn:E;
      [split; congruence|split; congruence|].
    apply validate_changelog_raises in E as [-> _]. split; congruence.
  - intros e. destruct (validate_changelog path fs) as [[[] info]|e0] eqn:E; [done| |].
    + intros [= <-] []. eauto.
    + apply validate_changelog_raises in E as [-> _]. by intros [= <-] _.
  - split.
    + destruct (validate_changelog path fs) as [[[] info]|e] eqn:E; [done..|].
      intros _. by apply validate_changelog_raises in E as [_ ?].
    + intros [H|(content & Hfs & Ht & H)].
      * by rewrite validate_changelog_unreadable.
      * by rewrite (validate_changelog_parse_error _ _ _ Hfs Ht H).
  - intros v H.
    assert (validate_changelog path fs = Return (true, v)) as Hv.
    { destruct (validate_changelog path fs) as [[[] info]|e]; congruence. }
    clear H. destruct (fs path) as [content|] eqn:Hfs;
      [|by rewrite validate_changelog_unreadable in Hv].
    rewrite (validate_changelog_eq _ _ _ Hfs) in Hv.
    destruct (startswith content "# Changelog"); [|done]. simpl in Hv.
    destruct (headings_of content) as [|first rest] eqn:Hhs; [done|].
    apply for_headings_true in Hv as [[st Hst] [= <-]].
    apply loop_state_inv in Hst as (_ & _ & _ & Hdesc & _ & Hparse).
    split.
    + apply (headings_of_shape content first). rewrite Hhs. left.
    + exists first, rest. rewrite (load_headings_eq _ _ _ Hfs), Hhs.
      split; [done|]. split; [done|].
      intros h Hh. apply (descending_max rest.*1 first.1).
      * apply Hparse. by left.
      * by rewrite <-fmap_cons.
      * rewrite <-fmap_cons. by apply list_elem_of_fmap_2.
Qed.

(** ** What the patterns accept, on any text *)

(** Every match of the scan is a match at a position of the text. *)
Lemma finditer_from_sound r s : ∀ b n k mt,
  mt ∈ finditer_from r b n k s →
  ∃ pre s2, s = pre +:+ s2
    ∧ match_at r (last_char b pre) (n + String.length pre) s2 = Some mt.
Proof.
  induction s as [|c s IH]; intros b n k mt; simpl.
  - destruct k; [|by intros ?%elem_of_nil].
    destruct (match_at r b n "") eqn:E; [|by intros ?%elem_of_nil].
    intros ->%list_elem_of_singleton. exists "", "". simpl. by rewrite Nat.add_0_r.
  - assert (∀ k', mt ∈ finditer_from r (Some c) (S n) k' s →
              ∃ pre s2, String c s = pre +:+ s2
                ∧ match_at r (last_char b pre) (n + String.length pre) s2 = Some mt) as Hnext.
    { intros k' (pre & s2 & -> & Hm)%IH. exists (String c pre), s2. simpl.
      split; [done|]. by replace (n + S (String.length pre))%nat
                           with (S n + String.length pre)%nat by lia. }
    destruct k; [|by apply Hnext].
    destruct (match_at r b n (String c s)) eqn:E; [|by apply Hnext].
    intros [->|?]%elem_of_cons; [|by eapply Hnext].
    exists "", (String c s). simpl. by rewrite Nat.add_0_r.
Qed.

(** A heading text for versions of the form [X.Y.Z] has its two [#] in
    front and nowhere else. *)
Lemma isspace_no_hash c : isspace c = true → c ≠ "#"%char.
Proof. intros H ->. by vm_compute in H. Qed.

Lemma version_char_no_hash c : version_char c = true → c ≠ "#"%char.
Proof. intros H ->. by vm_compute in H. Qed.

Lemma isdecimal_no_hash c : isdecimal c = true → c ≠ "#"%char.
Proof. intros H ->. by vm_compute in H. Qed.

Lemma no_hash_app t1 t2 : no_hash (t1 +:+ t2) ↔ no_hash t1 ∧ no_hash t2.
Proof. unfold no_hash. by rewrite all_chars_app, andb_true_iff. Qed.

Lemma no_hash_class (p : ascii → bool) t :
  (∀ c, p c = true → c ≠ "#"%char) → all_chars p t = true → no_hash t.
Proof.
  intros Hp. apply all_chars_impl. intros c Hc. apply negb_true_iff, bool_decide_eq_false.
  by apply Hp.
Qed.

Lemma no_hash_digits t : all_chars isdecimal t = true → no_hash t.
Proof. apply no_hash_class, isdecimal_no_hash. Qed.

Lemma no_hash_spaces t : spaces t → no_hash t.
Proof. apply no_hash_class, isspace_no_hash. Qed.

Lemma no_hash_version v : version_shape v → no_hash v.
Proof. intros Hv%version_chars. revert Hv. apply no_hash_class, version_char_no_hash. Qed.

Lemma no_hash_date d : date_shape d → no_hash d.
Proof.
  intros (y & mo & da & -> & Hy & _ & Hmo & _ & Hda & _).
  rewrite !no_hash_app. repeat split; auto using no_hash_digits.
Qed.

Lemma no_hash_first t s b : no_hash t → t ≠ "" → ¬ matches_here HEADING_RE b (t +:+ s).
Proof.
  destruct t as [|c t]; [done|]. unfold no_hash. simpl. intros [Hc _]%andb_true_iff _.
  rewrite str_app_cons. apply (no_match_other _ _ HEADING_RE_heading).
  by apply negb_true_iff, bool_decide_eq_false in Hc.
Qed.

(** No match of the heading pattern starts inside another. *)
Lemma no_match_inside_match t a1 a2 s b :
  heading_text version_shape t → t = a1 +:+ a2 → a1 ≠ "" → a2 ≠ "" →
  ¬ matches_here HEADING_RE b (a2 +:+ s).
Proof.
  intros (ws1 & v & ws2 & ws3 & d & ws4 & -> & H1 & H1' & Hv & H2 & _ & H3 & _ & Hd & H4) E Ha1 Ha2.
  assert (no_hash (ws1 +:+ v +:+ ws2 +:+ "-" +:+ ws3 +:+ d +:+ ws4)) as Hrest.
  { rewrite !no_hash_app.
    repeat split; auto using no_hash_spaces, no_hash_version, no_hash_date. }
  set (rest := ws1 +:+ v +:+ ws2 +:+ "-" +:+ ws3 +:+ d +:+ ws4) in *.
  destruct a1 as [|x [|y a1]]; [done|..].
  - rewrite ?str_app_cons, ?str_app_nil_l in E. injection E as <- <-.
    rewrite str_app_cons.
    intros [s' Hs]%(matches_here_hashes _ _ HEADING_RE_heading).
    rewrite !str_app_cons, str_app_nil_l in Hs. injection Hs as Hs.
    destruct ws1 as [|c ws1]; [done|]. unfold rest in Hs. rewrite !str_app_cons in Hs.
    injection Hs as -> _. by vm_compute in H1.
  - rewrite ?str_app_cons, ?str_app_nil_l in E. injection E as <- <- E.
    apply no_hash_first; [|done]. rewrite E in Hrest. by apply no_hash_app in Hrest as [_ ?].
Qed.

(** So the scan, which resumes after each match, misses no position at which
    the pattern matches. *)
Lemma finditer_from_complete s : ∀ b n k pre s2,
  s = pre +:+ s2 → (k ≤ String.length pre)%nat →
  matches_here HEADING_RE (last_char b pre) s2 →
  ∃ mt, mt ∈ finditer_from HEADING_RE b n k s
    ∧ match_at HEADING_RE (last_char b pre) (n + String.length pre) s2 = Some mt.
Proof.
  induction s as [|c s IH]; intros b n k pre s2 Hs Hk Hm.
  - destruct pre; [|done]. rewrite str_app_nil_l in Hs. subst s2.
    by apply (no_match_empty _ _ HEADING_RE_heading) in Hm.
  - assert (∀ k' c' pre', pre = String c' pre' → (k' ≤ String.length pre')%nat →
              ∃ mt, mt ∈ finditer_from HEADING_RE (Some c) (S n) k' s
                ∧ match_at HEADING_RE (last_char b pre) (n + String.length pre) s2 = Some mt)
      as Hnext.
    { intros k' c' pre' -> Hk'. rewrite str_app_cons in Hs. injection Hs as <- ->.
      destruct (IH (Some c) (S n) k' pre' s2 eq_refl Hk' Hm) as (mt & Hin & Hmt).
      exists mt. split; [done|]. simpl.
      by replace (n + S (String.length pre'))%nat with (S n + String.length pre')%nat by lia. }
    destruct k as [|k].
    + destruct pre as [|c' pre'].
      * rewrite str_app_nil_l in Hs. subst s2. simpl in *.
        apply (match_at_matches_here _ _ n) in Hm as [mt Hmt].
        exists mt. rewrite Hmt, Nat.add_0_r. split; [left|done].
      * cbn [finditer_from].
        destruct (match_at HEADING_RE b n (String c s)) as [mt0|] eqn:E.
        2:{ apply (Hnext 0%nat c' pre' eq_refl). lia. }
        destruct (Hnext (m_end mt0 - n - 1)%nat c' pre' eq_refl) as (mt & Hin & Hmt).
        2:{ exists mt. split; [by right|done]. }
        apply match_at_Matches in E as (t0 & s0 & E & HM & _ & ->).
        assert (∃ g, Matches HEADING_RE b t0 s0 g) as (_ & _ & Ht0)%HEADING_RE_heading by eauto.
        rewrite Hs in E.
        destruct (str_app_eq_app _ _ _ _ E) as [(e & E1 & _)|(e & He & E1 & E2)].
        -- apply (f_equal String.length) in E1. rewrite length_app_str in E1. simpl in E1. lia.
        -- exfalso. subst s2.
           by apply (no_match_inside_match _ _ _ s0 (last_char b (String c' pre')) Ht0 E1).
    + destruct pre as [|c' pre']; [simpl in Hk; lia|].
      cbn [finditer_from]. apply (Hnext k c' pre' eq_refl). simpl in Hk. lia.
Qed.

(** The headings of a text are the versions and dates of the heading texts
    that stand in it from the start of a line to the end of a line. *)
Lemma headings_of_iff content h :
  h ∈ headings_of content ↔ ∃ t, occurs_on_lines t content ∧ heading_parts h.1 h.2 t.
Proof.
  unfold headings_of, finditer. split.
  - intros (mt & -> & (pre & s2 & -> & Hm)%finditer_from_sound)%list_elem_of_fmap.
    apply match_at_Matches in Hm as (t & s' & -> & HM & _).
    assert (∃ g, Matches HEADING_RE (last_char None pre) t s' g) as (Hb & Hs & _)%HEADING_RE_heading
      by eauto.
    apply HEADING_RE_parts in HM as (v & d & Hg & Hparts).
    exists t. split; [by exists pre, s'|].
    unfold heading_of_match, group. by rewrite Hg.
  - intros (t & (pre & post & -> & Hb & Hs) & Hparts). destruct h as [v d]. simpl in *.
    assert (matches_here HEADING_RE (last_char None pre) (t +:+ post)) as Hm.
    { apply (matches_here_heading _ _ HEADING_RE_heading). split; [done|].
      exists t, post. eauto using heading_parts_text. }
    destruct (finditer_from_complete _ None 0%nat 0%nat pre (t +:+ post) eq_refl) as (mt & Hin & Hmt);
      [lia|done|].
    apply list_elem_of_fmap. exists mt. split; [|done].
    apply match_at_Matches in Hmt as (t' & s' & E & HM & _).
    apply HEADING_RE_parts in HM as (v' & d' & Hg & Hparts').
    unfold heading_of_match, group. rewrite Hg. simpl.
    destruct (str_app_eq_app _ _ _ _ E) as [(e & -> & _)|(e & _ & -> & _)].
    + by destruct (heading_parts_unique _ _ _ _ _ _ _ Hparts Hparts' eq_refl) as [-> ->].
    + by destruct (heading_parts_unique _ _ _ _ _ _ _ Hparts' Hparts eq_refl) as [-> ->].
Qed.

(** X7. [load_headings] returns the pair [(v, d)] exactly for the texts
    [## v - d] that stand in the file from the start of a line to the end of
    a line, where [v] has the form [X.Y.Z], [d] the form [YYYY-MM-DD], the
    separating white space is any non-empty run of white-space characters,
    line feeds included, and white space may follow the date: no such text is
    missed and nothing else is listed. *)
Theorem X7_headings_are_the_heading_texts
    (fs : FileSystem) (path : Path) (content : string) :
  fs path = Some content →
  ∃ hs, load_headings path fs = Return hs
    ∧ ∀ h, h ∈ hs ↔ ∃ t, occurs_on_lines t content ∧ heading_parts h.1 h.2 t.
Proof.
  intros Hfs. exists (headings_of content). split; [by apply load_headings_eq|].
  apply headings_of_iff.
Qed.

Lemma X7_witness :
  ∃ hs, load_headings CHANGELOG (single_file CHANGELOG doc_broken_heading) = Return hs
    ∧ ∀ h, h ∈ hs ↔ ∃ t, occurs_on_lines t doc_broken_heading ∧ heading_parts h.1 h.2 t.
Proof.
  apply (X7_headings_are_the_heading_texts (single_file CHANGELOG doc_broken_heading) CHANGELOG).
  reflexivity.
Defined.

(** ** The entry of a version, on any text *)

Lemma search_release_pattern content version :
  is_Some (search (release_pattern version) content)
  ↔ ∃ t, occurs_on_lines t content ∧ heading_text (eq version) t.
Proof.
  pose proof (release_pattern_heading version) as Hr. split.
  - intros [mt (pre & t & s' & -> & HM & _)%search_Some].
    apply Hr in HM as (Hb & Hs & Ht). exists t. split; [by exists pre, s'|done].
  - intros (t & (pre & post & -> & Hb & Hs) & Ht).
    apply (search_is_Some _ _ pre (t +:+ post)); [done|].
    apply (matches_here_heading _ _ Hr). split; [done|]. by exists t, post.
Qed.

(** X8. On a readable file, [extract_release_notes] returns notes exactly
    when a heading text [## version - YYYY-MM-DD] with that very version
    string stands in the file from the start of a line to the end of a line;
    otherwise it raises [ValueError] with the not-found message, and nothing
    else. *)
Theorem X8_entry_found_iff_heading_text
    (fs : FileSystem) (path : Path) (content version : string) :
  fs path = Some content →
  ((∃ notes, extract_release_notes path version fs = Return notes)
   ↔ ∃ t, occurs_on_lines t content ∧ heading_text (eq version) t)
  ∧ (extract_release_notes path version fs = Raise (ValueError (err_not_found version))
     ↔ ¬ ∃ t, occurs_on_lines t content ∧ heading_text (eq version) t)
  ∧ ∀ e, extract_release_notes path version fs = Raise e
         → e = ValueError (err_not_found version).
Proof.
  intros Hfs. rewrite (extract_release_notes_eq _ _ _ _ Hfs), <-search_release_pattern.
  destruct (search (release_pattern version) content) as [mt|]; cbv zeta.
  - split; [|split].
    + split; eauto.
    + split; [done|]. intros []. eauto.
    + done.
  - split; [|split].
    + split; [by intros [? ?]|by intros [? ?]].
    + split; [by intros _ [? ?]|done].
    + by intros e [= <-].
Qed.

Lemma X8_witness :
  ((∃ notes, extract_release_notes CHANGELOG "1.0.0" (single_file CHANGELOG doc_only_broken)
             = Return notes)
   ↔ ∃ t, occurs_on_lines t doc_only_broken ∧ heading_text (eq "1.0.0") t)
  ∧ (extract_release_notes CHANGELOG "1.0.0" (single_file CHANGELOG doc_only_broken)
       = Raise (ValueError (err_not_found "1.0.0"))
     ↔ ¬ ∃ t, occurs_on_lines t doc_only_broken ∧ heading_text (eq "1.0.0") t)
  ∧ ∀ e, extract_release_notes CHANGELOG "1.0.0" (single_file CHANGELOG doc_only_broken)
           = Raise e
         → e = ValueError (err_not_found "1.0.0").
Proof.
  apply (X8_entry_found_iff_heading_text (single_file CHANGELOG doc_only_broken) CHANGELOG).
  reflexivity.
Defined.

(** ** The validator and the extractor agree on what a heading is *)

Lemma heading_text_parts version t :
  version_shape version →
  (heading_text (eq version) t ↔ ∃ d, heading_parts version d t).
Proof.
  intros Hv. split.
  - intros (ws1 & v & ws2 & ws3 & d & ws4 & -> & ? & ? & <- & ?). exists d, ws1, ws2, ws3, ws4.
    tauto.
  - intros (d & ws1 & ws2 & ws3 & ws4 & -> & ? & ? & _ & ?).
    exists ws1, version, ws2, ws3, d, ws4. tauto.
Qed.

Lemma entry_iff_listed content version :
  version_shape version →
  (is_Some (search (release_pattern version) content)
   ↔ version ∈ (headings_of content).*1).
Proof.
  intros Hv. rewrite search_release_pattern, list_elem_of_fmap. split.
  - intros (t & Ho & [d Ht]%heading_text_parts); [|done].
    exists (version, d). split; [done|]. apply headings_of_iff. by exists t.
  - intros ([v d] & -> & (t & Ho & Ht)%headings_of_iff). exists t. split; [done|].
    apply heading_text_parts; [done|]. by exists d.
Qed.

(** X9. For a version of the form [X.Y.Z], [extract_release_notes] returns
    notes exactly when [load_headings] lists a heading with that version: the
    versions the validator sees are those that have an entry. *)
Theorem X9_notes_exist_iff_version_listed
    (fs : FileSystem) (path : Path) (content version : string) :
  fs path = Some content →
  version_shape version →
  ((∃ notes, extract_release_notes path version fs = Return notes)
   ↔ ∃ hs, load_headings path fs = Return hs ∧ version ∈ hs.*1).
Proof.
  intros Hfs Hv. rewrite (extract_release_notes_eq _ _ _ _ Hfs), (load_headings_eq _ _ _ Hfs).
  pose proof (entry_iff_listed content version Hv) as H.
  destruct (search (release_pattern version) content) as [mt|]; cbv zeta.
  - split; [|eauto]. intros _. exists (headings_of content). split; [done|]. apply H. eauto.
  - split; [by intros [? ?]|]. intros (hs & [= <-] & Hin). apply H in Hin. by destruct Hin.
Qed.

Lemma X9_witness :
  (∃ notes, extract_release_notes CHANGELOG "1.0.0" (single_file CHANGELOG doc_example)
            = Return notes)
  ↔ ∃ hs, load_headings CHANGELOG (single_file CHANGELOG doc_example) = Return hs
      ∧ "1.0.0" ∈ hs.*1.
Proof.
  apply (X9_notes_exist_iff_version_listed (single_file CHANGELOG doc_example) CHANGELOG
           doc_example).
  - reflexivity.
  - exists "1", "0", "0". vm_compute. repeat split; reflexivity.
Defined.

(** X10. The version [latest_version] returns has an entry:
    [extract_release_notes] on the same file returns notes for it. *)
Theorem X10_latest_version_has_notes (fs : FileSystem) (path : Path) (v : string) :
  latest_version path fs = Return v →
  ∃ notes, extract_release_notes path v fs = Return notes.
Proof.
  rewrite latest_version_eq. intros H.
  assert (validate_changelog path fs = Return (true, v)) as Hv.
  { destruct (validate_changelog path fs) as [[[] info]|e]; congruence. }
  clear H. destruct (fs path) as [content|] eqn:Hfs;
    [|by rewrite validate_changelog_unreadable in Hv].
  rewrite (validate_changelog_eq _ _ _ Hfs) in Hv.
  destruct (startswith content "# Changelog"); [|done]. simpl in Hv.
  destruct (headings_of content) as [|first rest] eqn:Hhs; [done|].
  apply for_headings_true in Hv as [_ [= <-]].
  assert (first ∈ headings_of content) as Hin by (rewrite Hhs; left).
  rewrite (extract_release_notes_eq _ _ _ _ Hfs).
  destruct (entry_iff_listed content first.1) as [_ [mt ->]]; [| |by eexists].
  - by apply (headings_of_shape content first).
  - by apply list_elem_of_fmap_2.
Qed.

Lemma X10_witness :
  ∃ notes, extract_release_notes CHANGELOG "10.0.0" (single_file CHANGELOG doc_ten_above_two)
           = Return notes.
Proof.
  apply (X10_latest_version_has_notes (single_file CHANGELOG doc_ten_above_two) CHANGELOG).
  vm_compute. reflexivity.
Defined.

(** ** The notes *)

Lemma lstrip_starts s : starts_outside isspace (lstrip s).
Proof. induction s as [|c s IH]; [done|]. simpl. by destruct (isspace c) eqn:E. Qed.

Lemma rstrip_starts s : starts_outside isspace s → starts_outside isspace (rstrip s).
Proof.
  destruct s as [|c s]; [done|]. simpl. intros Hc. destruct (rstrip s); [by rewrite Hc|done].
Qed.

Lemma rstrip_last s : ∀ c, last_char None (rstrip s) = Some c → isspace c = false.
Proof.
  induction s as [|c0 s IH]; intros c; [done|]. simpl.
  destruct (rstrip s) as [|x t] eqn:E.
  - destruct (isspace c0) eqn:Hc; [done|]. simpl. by intros [= <-].
  - intros H. apply IH. by rewrite (last_char_nonempty None (Some c0)).
Qed.

Lemma lstrip_suffix s : ∃ w, s = w +:+ lstrip s ∧ spaces w.
Proof.
  induction s as [|c s (w & IH & Hw)]; [by exists ""|]. simpl.
  destruct (isspace c) eqn:Hc; [|by exists ""].
  exists (String c w). rewrite str_app_cons, <-IH. split; [done|].
  unfold spaces. simpl. by rewrite Hc.
Qed.

Lemma rstrip_prefix s : ∃ w, s = rstrip s +:+ w ∧ spaces w.
Proof.
  induction s as [|c s (w & IH & Hw)]; [by exists ""|]. simpl.
  destruct (rstrip s) as [|x t] eqn:E.
  - rewrite str_app_nil_l in IH. subst w. destruct (isspace c) eqn:Hc.
    + exists (String c s). rewrite str_app_nil_l. split; [done|].
      unfold spaces. simpl. by rewrite Hc.
    + by exists s.
  - exists w. by rewrite !str_app_cons, <-str_app_cons, <-IH.
Qed.

(** What [strip] leaves: the text between two runs of white space, which
    neither begins nor ends with a white-space character. *)
Lemma strip_spec s :
  (∃ w1 w2, s = w1 +:+ strip s +:+ w2 ∧ spaces w1 ∧ spaces w2)
  ∧ starts_outside isspace (strip s)
  ∧ ∀ c, last_char None (strip s) = Some c → isspace c = false.
Proof.
  unfold strip. split; [|split].
  - destruct (lstrip_suffix s) as (w1 & E1 & H1), (rstrip_prefix (lstrip s)) as (w2 & E2 & H2).
    exists w1, w2. by rewrite <-E2, <-E1.
  - apply rstrip_starts, lstrip_starts.
  - apply rstrip_last.
Qed.

Lemma release_notes_nonempty fs path version notes :
  extract_release_notes path version fs = Return notes → notes ≠ "".
Proof.
  unfold extract_release_notes, mbind, IO_bind, read_text, raise, mret, IO_ret.
  destruct (fs path) as [content|]; [|done].
  destruct (search (release_pattern version) content) as [mt|]; [|done].
  cbv zeta. intros [= <-]. case_bool_decide as Hn; [|done]. by rewrite str_app_cons.
Qed.

(** X11. The notes [extract_release_notes] returns are the text between the
    first heading text of the version and the next heading text of any
    version (or the end of the file), without the white space around it; when
    nothing but white space stands there, they are the placeholder
    [Release v<version>].  They are never empty, and unless they are the
    placeholder they neither begin nor end with a white-space character. *)
Theorem X11_notes_stand_between_headings
    (fs : FileSystem) (path : Path) (content version notes : string) :
  fs path = Some content →
  extract_release_notes path version fs = Return notes →
  notes ≠ ""
  ∧ ∃ pre t body post,
      content = pre +:+ t +:+ body +:+ post
      ∧ at_bol (last_char None pre) = true
      ∧ heading_text (eq version) t
      ∧ at_eol (body +:+ post) = true
      ∧ (∀ pre1 s1, content = pre1 +:+ s1 → (String.length pre1 < String.length pre)%nat →
           ¬ matches_here (release_pattern version) (last_char None pre1) s1)
      ∧ (∀ b1 s1, body +:+ post = b1 +:+ s1 → (String.length b1 < String.length body)%nat →
           ¬ matches_here any_release_pattern (last_char None b1) s1)
      ∧ (post = "" ∨ matches_here any_release_pattern (last_char None body) post)
      ∧ (strip body = "" ∧ notes = "Release v" +:+ version
         ∨ strip body ≠ "" ∧ notes = strip body
           ∧ starts_outside isspace notes
           ∧ ∀ c, last_char None notes = Some c → isspace c = false).
Proof.
  intros Hfs Hnotes. split; [by eapply release_notes_nonempty|].
  revert Hnotes. rewrite (extract_release_notes_eq _ _ _ _ Hfs).
  destruct (search (release_pattern version) content) as [mt|] eqn:E; [|done].
  cbv zeta. intros [= <-].
  apply search_Some in E as (pre & t & s' & -> & HM & _ & -> & Hleft).
  apply release_pattern_heading in HM as (Hpre & Hs' & Ht).
  assert (drop_str (String.length (pre +:+ t)) (pre +:+ t +:+ s') = s') as ->.
  { rewrite <-(drop_str_app (pre +:+ t) s') at 2. by rewrite !app_assoc_str. }
  assert (∃ body post, s' = body +:+ post ∧ until_next s' = body
            ∧ (∀ b1 s1, body +:+ post = b1 +:+ s1 →
                 (String.length b1 < String.length body)%nat →
                 ¬ matches_here any_release_pattern (last_char None b1) s1)
            ∧ (post = "" ∨ matches_here any_release_pattern (last_char None body) post))
    as (body & post & -> & -> & Hbody & Hpost).
  { unfold until_next. destruct (search any_release_pattern s') as [next|] eqn:E.
    - apply search_Some in E as (a & t2 & s'' & -> & [g HM] & -> & _ & Hl).
      exists a, (t2 +:+ s''). rewrite substring_0_app. repeat split; try done.
      right. by exists t2, s'', g.
    - exists s', "". rewrite str_app_nil_r. repeat split; try done; [|by left].
      intros b1 s1 Hs _. by apply (proj1 (search_None _ _) E). }
  exists pre, t, body, post. repeat split; try done.
  destruct (strip_spec body) as (_ & Hstart & Hlast).
  case_bool_decide as Hn; [by left|right]. done.
Qed.

Lemma X11_witness :
  "Breaking change." ≠ ""
  ∧ ∃ pre t body post,
      doc_broken_heading = pre +:+ t +:+ body +:+ post
      ∧ at_bol (last_char None pre) = true
      ∧ heading_text (eq "2.0.0") t
      ∧ at_eol (body +:+ post) = true
      ∧ (∀ pre1 s1, doc_broken_heading = pre1 +:+ s1 →
           (String.length pre1 < String.length pre)%nat →
           ¬ matches_here (release_pattern "2.0.0") (last_char None pre1) s1)
      ∧ (∀ b1 s1, body +:+ post = b1 +:+ s1 → (String.length b1 < String.length body)%nat →
           ¬ matches_here any_release_pattern (last_char None b1) s1)
      ∧ (post = "" ∨ matches_here any_release_pattern (last_char None body) post)
      ∧ (strip body = "" ∧ "Breaking change." = "Release v" +:+ "2.0.0"
         ∨ strip body ≠ "" ∧ "Breaking change." = strip body
           ∧ starts_outside isspace "Breaking change."
           ∧ ∀ c, last_char None "Breaking change." = Some c → isspace c = false).
Proof.
  apply (X11_notes_stand_between_headings
           (single_file CHANGELOG doc_broken_heading) CHANGELOG doc_broken_heading "2.0.0").
  - reflexivity.
  - vm_compute. reflexivity.
Defined.

(** ** The order of the headings *)

(** The first match of the scan is the match of the search. *)
Lemma head_finditer_from r s : ∀ b n,
  head (finditer_from r b n 0 s) = search_from r b n s.
Proof.
  induction s as [|c s IH]; intros b n; simpl.
  - by destruct (match_at r b n "").
  - destruct (match_at r b n (String c s)); [done|]. apply IH.
Qed.

Lemma head_finditer r s : head (finditer r s) = search r s.
Proof. apply head_finditer_from. Qed.

(** The matches of the scan start at or after the position at which the scan
    resumes, and each ends before the next starts. *)
Lemma finditer_from_starts r s : ∀ b n k mt,
  mt ∈ finditer_from r b n k s → (n + k ≤ m_start mt)%nat.
Proof.
  induction s as [|c s IH]; intros b n k mt; simpl.
  - destruct k; [|by intros ?%elem_of_nil].
    destruct (match_at r b n "") eqn:E; [|by intros ?%elem_of_nil].
    intros ->%list_elem_of_singleton. apply match_at_Matches in E as (_ & _ & _ & _ & -> & _). lia.
  - destruct k as [|k]; [|intros ?%IH; lia].
    destruct (match_at r b n (String c s)) eqn:E; [|intros ?%IH; lia].
    intros [->|?%IH]%elem_of_cons; [|lia].
    apply match_at_Matches in E as (_ & _ & _ & _ & -> & _). lia.
Qed.

Lemma finditer_from_order r s : ∀ b n k i j mi mj,
  finditer_from r b n k s !! i = Some mi →
  finditer_from r b n k s !! j = Some mj →
  (i < j)%nat →
  (m_end mi ≤ m_start mj)%nat.
Proof.
  induction s as [|c s IH]; intros b n k i j mi mj; simpl.
  - destruct k; [|done]. destruct (match_at r b n ""); [|done].
    intros _ Hj Hij. destruct j; [lia|done].
  - destruct k as [|k]; [|by apply IH].
    destruct (match_at r b n (String c s)) as [mt0|] eqn:E; [|by apply IH].
    intros Hi Hj Hij. destruct j as [|j]; [lia|]. destruct i as [|i].
    + simpl in Hi, Hj. injection Hi as <-.
      apply list_elem_of_lookup_2, finditer_from_starts in Hj.
      apply match_at_Matches in E as (t & _ & _ & _ & _ & Hend). lia.
    + simpl in Hi, Hj. eapply IH; [done..|lia].
Qed.

(** X12. [load_headings] lists the headings in the order in which they stand
    in the file: the heading text of an entry of the list ends before the
    heading text of every later entry begins. *)
Theorem X12_headings_in_text_order
    (fs : FileSystem) (path : Path) (content : string)
    (hs : list heading) (i j : nat) (hi hj : heading) :
  fs path = Some content →
  load_headings path fs = Return hs →
  hs !! i = Some hi → hs !! j = Some hj → (i < j)%nat →
  ∃ pre ti mid tj post,
    content = pre +:+ ti +:+ mid +:+ tj +:+ post
    ∧ heading_parts hi.1 hi.2 ti
    ∧ heading_parts hj.1 hj.2 tj
    ∧ at_bol (last_char None pre) = true
    ∧ at_eol (mid +:+ tj +:+ post) = true
    ∧ at_bol (last_char None (pre +:+ ti +:+ mid)) = true
    ∧ at_eol post = true.
Proof.
  intros Hfs Hload Hi Hj Hij. rewrite (load_headings_eq _ _ _ Hfs) in Hload.
  injection Hload as <-. unfold headings_of, finditer in Hi, Hj.
  rewrite list_lookup_fmap in Hi, Hj.
  destruct (finditer_from HEADING_RE None 0 0 content !! i) as [mi|] eqn:Ei; [|done].
  destruct (finditer_from HEADING_RE None 0 0 content !! j) as [mj|] eqn:Ej; [|done].
  simpl in Hi, Hj. injection Hi as <-. injection Hj as <-.
  pose proof (finditer_from_order _ _ _ _ _ _ _ _ _ Ei Ej Hij) as Hord.
  apply list_elem_of_lookup_2, finditer_from_sound in Ei as (pre & s2 & E1 & Hmi).
  apply list_elem_of_lookup_2, finditer_from_sound in Ej as (pre' & s2' & E2 & Hmj).
  apply match_at_Matches in Hmi as (ti & si & -> & HMi & Hsi & Hei).
  apply match_at_Matches in Hmj as (tj & sj & -> & HMj & Hsj & Hej).
  assert (∃ g, Matches HEADING_RE (last_char None pre) ti si g) as (Hb1 & He1 & _)%HEADING_RE_heading
    by eauto.
  assert (∃ g, Matches HEADING_RE (last_char None pre') tj sj g) as (Hb2 & He2 & _)%HEADING_RE_heading
    by eauto.
  apply HEADING_RE_parts in HMi as (vi & di & Hgi & Hpi).
  apply HEADING_RE_parts in HMj as (vj & dj & Hgj & Hpj).
  unfold heading_of_match, group. rewrite Hgi, Hgj. simpl.
  rewrite Hei, Hsj in Hord. simpl in Hord.
  assert (∃ mid, pre' = pre +:+ ti +:+ mid ∧ si = mid +:+ tj +:+ sj) as (mid & -> & ->).
  { rewrite E1 in E2. rewrite <-app_assoc_str in E2.
    destruct (str_app_eq_app _ _ _ _ E2) as [(e & E3 & E4)|(e & _ & E3 & E4)].
    - pose proof (f_equal String.length E3) as Hl. rewrite !length_app_str in Hl.
      destruct e; [|simpl in Hl; lia]. rewrite str_app_nil_r in E3. rewrite str_app_nil_l in E4.
      exists "". by rewrite str_app_nil_r, str_app_nil_l.
    - exists e. by rewrite <-app_assoc_str. }
  exists pre, ti, mid, tj, sj. rewrite !app_assoc_str in *. repeat split; done.
Qed.

Lemma X12_witness :
  ∃ pre ti mid tj post,
    doc_example = pre +:+ ti +:+ mid +:+ tj +:+ post
    ∧ heading_parts "2.0.0" "2024-06-01" ti
    ∧ heading_parts "1.0.0" "2024-01-01" tj
    ∧ at_bol (last_char None pre) = true
    ∧ at_eol (mid +:+ tj +:+ post) = true
    ∧ at_bol (last_char None (pre +:+ ti +:+ mid)) = true
    ∧ at_eol post = true.
Proof.
  apply (X12_headings_in_text_order (single_file CHANGELOG doc_example) CHANGELOG doc_example
           [("2.0.0", "2024-06-01"); ("1.0.0", "2024-01-01")] 0 1
           ("2.0.0", "2024-06-01") ("1.0.0", "2024-01-01")).
  - reflexivity.
  - vm_compute. reflexivity.
  - reflexivity.
  - reflexivity.
  - lia.
Defined.

(** X13. The version a successful validation returns is that of the topmost
    heading of the file: a heading text with that version stands in the file,
    and no heading text begins before it. *)
Theorem X13_validation_returns_the_topmost_heading
    (fs : FileSystem) (path : Path) (content v : string) :
  fs path = Some content →
  validate_changelog path fs = Return (true, v) →
  ∃ pre t post d,
    content = pre +:+ t +:+ post
    ∧ at_bol (last_char None pre) = true
    ∧ at_eol post = true
    ∧ heading_parts v d t
    ∧ ∀ pre1 s1, content = pre1 +:+ s1 → (String.length pre1 < String.length pre)%nat →
        ¬ matches_here HEADING_RE (last_char None pre1) s1.
Proof.
  intros Hfs H. rewrite (validate_changelog_eq _ _ _ Hfs) in H.
  destruct (startswith content "# Changelog"); [|done]. simpl in H.
  destruct (headings_of content) as [|first rest] eqn:Hhs; [done|].
  apply for_headings_true in H as [_ [= <-]].
  unfold headings_of, finditer in Hhs.
  pose proof (head_finditer_from HEADING_RE content None 0) as Hh.
  destruct (finditer_from HEADING_RE None 0 0 content) as [|mt l]; [done|].
  rewrite fmap_cons in Hhs. injection Hhs as <- _. simpl in Hh. symmetry in Hh.
  apply search_from_Some in Hh as (pre & s2 & -> & Hm & Hleft).
  apply match_at_Matches in Hm as (t & post & -> & HM & _).
  assert (∃ g, Matches HEADING_RE (last_char None pre) t post g) as (Hb & He & _)%HEADING_RE_heading
    by eauto.
  apply HEADING_RE_parts in HM as (v & d & Hg & Hp).
  unfold heading_of_match, group. rewrite Hg. simpl.
  exists pre, t, post, d. repeat split; try done.
  intros pre1 s1 Hs Hlt. apply (match_at_None_iff _ _ (0 + String.length pre1)). by apply Hleft.
Qed.

Lemma X13_witness :
  ∃ pre t post d,
    doc_ten_above_two = pre +:+ t +:+ post
    ∧ at_bol (last_char None pre) = true
    ∧ at_eol post = true
    ∧ heading_parts "10.0.0" d t
    ∧ ∀ pre1 s1, doc_ten_above_two = pre1 +:+ s1 →
        (String.length pre1 < String.length pre)%nat →
        ¬ matches_here HEADING_RE (last_char None pre1) s1.
Proof.
  apply (X13_validation_returns_the_topmost_heading
           (single_file CHANGELOG doc_ten_above_two) CHANGELOG).
  - reflexivity.
  - vm_compute. reflexivity.
Defined.

(** X14. The pattern at which [extract_release_notes] ends the notes and
    [HEADING_RE] accept the same texts: on every text the search for the one
    finds nothing exactly when [load_headings] would list nothing, and
    otherwise it stops where the first heading begins. *)
Theorem X14_notes_end_at_a_heading_of_the_validator (s : string) :
  (search any_release_pattern s = None ↔ headings_of s = [])
  ∧ ∀ next, search any_release_pattern s = Some next →
      ∃ mt, head (finditer HEADING_RE s) = Some mt ∧ m_start mt = m_start next.
Proof.
  assert (∀ b x, matches_here any_release_pattern b x ↔ matches_here HEADING_RE b x) as Hsame.
  { intros b x. by rewrite (matches_here_heading _ _ any_release_pattern_heading),
                          (matches_here_heading _ _ HEADING_RE_heading). }
  assert (search any_release_pattern s = None ↔ search HEADING_RE s = None) as Hnone.
  { rewrite !search_None. by setoid_rewrite Hsame. }
  split.
  - rewrite Hnone, <-head_finditer. unfold headings_of.
    by destruct (finditer HEADING_RE s).
  - intros next E. rewrite head_finditer.
    destruct (search HEADING_RE s) as [mt|] eqn:E'; [|by rewrite (proj2 Hnone eq_refl) in E].
    exists mt. split; [done|].
    apply search_Some in E as (pre & t & s' & Hs & [g HM] & -> & _ & Hl).
    apply search_Some in E' as (pre' & t' & s'' & Hs' & [g' HM'] & -> & _ & Hl').
    destruct (Nat.lt_trichotomy (String.length pre') (String.length pre)) as [Hlt|[Heq|Hlt]];
      [exfalso|done|exfalso].
    + apply (Hl pre' (t' +:+ s'')); [congruence|done|]. apply Hsame. by exists t', s'', g'.
    + apply (Hl' pre (t +:+ s')); [congruence|done|]. apply Hsame. by exists t, s', g.
Qed.

(** ** [main] *)

Ltac main_run H :=
  unfold main, mbind, Prog_bind, lift, mret, Prog_ret, print, print_stderr, write_text in H;
  cbn [files writable stdout stderr negb] in H.

Ltac main_modes H args :=
  destruct (args_latest_version args) eqn:?;
  [|destruct (args_release_notes_version args) as [[|? ?]|] eqn:?;
    [| destruct (args_release_notes_output args) as [[|? ?]|] eqn:? |]].

(** X15. A run of [main] that returns has the status 0 or 1 and has printed
    exactly once (a text and its line feed): with the status 0 on
    [sys.stdout], leaving [sys.stderr] as it was; with the status 1 on
    [sys.stderr], leaving [sys.stdout] as it was and no file written.  A run
    that raises has printed nothing and written nothing. *)
Theorem X15_main_status_and_streams
    (Path_of : string → Path) (args : Namespace) (w w' : World) (r : outcome Z) :
  main Path_of args w = (r, w') →
  match r with
  | Return code =>
      (code = 0 ∧ stderr w' = stderr w
       ∧ ∃ line, stdout w' = stdout w +:+ line +:+ String LF "")
      ∨ (code = 1 ∧ stdout w' = stdout w ∧ files w' = files w
         ∧ ∃ line, stderr w' = stderr w +:+ line +:+ String LF "")
  | Raise e => w' = w
  end.
Proof.
  intros H. main_run H.
  destruct (validate_changelog CHANGELOG (files w)) as [[[] info]|e];
    [main_modes H args|..]; cbn [negb] in H.
  - simplify_eq. left. eauto.
  - simplify_eq. left. eauto.
  - simplify_eq. right. eauto 10.
  - destruct (extract_release_notes _ _ _) as [notes|e]; [|by simplify_eq].
    destruct (writable w _); cbn [files writable stdout stderr] in H; simplify_eq; [|done].
    left. eauto.
  - simplify_eq. right. eauto 10.
  - simplify_eq. left. eauto.
  - simplify_eq. right. eauto 10.
  - by simplify_eq.
Qed.

Lemma X15_witness :
  (1 = 0 ∧ ERR_ORDER +:+ String LF "" = ""
   ∧ ∃ line, "" = "" +:+ line +:+ String LF "")
  ∨ (1 = 1 ∧ "" = ""
     ∧ single_file CHANGELOG doc_ascending = single_file CHANGELOG doc_ascending
     ∧ ∃ line, ERR_ORDER +:+ String LF "" = "" +:+ line +:+ String LF "").
Proof.
  apply (X15_main_status_and_streams id
           {| args_latest_version := true; args_release_notes_version := None;
              args_release_notes_output := None |}
           {| files := single_file CHANGELOG doc_ascending; writable := λ _, true;
              stdout := ""; stderr := "" |}
           {| files := single_file CHANGELOG doc_ascending; writable := λ _, true;
              stdout := ""; stderr := ERR_ORDER +:+ String LF "" |}
           (Return 1)).
  vm_compute. reflexivity.
Defined.

(** X16. [main] writes at most one file, and only in one situation: the
    changelog validates, [--latest-version] is not given, a non-empty
    [--release-notes-version] and a non-empty [--release-notes-output] are
    given, and the version has an entry.  Then the file named by the output
    holds the notes of that version, which are not empty, and the status is
    0.  In every other run, and at every other path, the file system is
    unchanged; in particular the changelog is never touched unless the output
    names it. *)
Theorem X16_main_writes_only_the_notes
    (Path_of : string → Path) (args : Namespace) (w w' : World) (r : outcome Z) :
  main Path_of args w = (r, w') →
  writable w' = writable w
  ∧ (files w' = files w
     ∨ ∃ version output notes latest,
         r = Return 0
         ∧ validate_changelog CHANGELOG (files w) = Return (true, latest)
         ∧ args_latest_version args = false
         ∧ args_release_notes_version args = Some version ∧ version ≠ ""
         ∧ args_release_notes_output args = Some output ∧ output ≠ ""
         ∧ extract_release_notes CHANGELOG version (files w) = Return notes
         ∧ notes ≠ ""
         ∧ writable w (Path_of output) = true
         ∧ files w' = fs_write (Path_of output) notes (files w)).
Proof.
  intros H. main_run H.
  destruct (validate_changelog CHANGELOG (files w)) as [[[] info]|e] eqn:Hv;
    [main_modes H args|..]; cbn [negb] in H; try (simplify_eq; by auto).
  destruct (extract_release_notes _ _ _) as [notes|e] eqn:Hn; [|simplify_eq; by auto].
  destruct (writable w _) eqn:Hw; cbn [files writable stdout stderr] in H; simplify_eq;
    [|by auto].
  split; [done|]. right. cbn [files]. eexists _, _, notes, info.
  repeat split; try done. by eapply release_notes_nonempty.
Qed.

Lemma X16_witness :
  (λ _ : Path, true) = (λ _ : Path, true)
  ∧ (fs_write "notes.md" "Initial release." (single_file CHANGELOG doc_example)
     = single_file CHANGELOG doc_example
     ∨ ∃ version output notes latest,
         Return 0 = Return 0
         ∧ validate_changelog CHANGELOG (single_file CHANGELOG doc_example)
           = Return (true, latest)
         ∧ false = false
         ∧ Some "1.0.0" = Some version ∧ version ≠ ""
         ∧ Some "notes.md" = Some output ∧ output ≠ ""
         ∧ extract_release_notes CHANGELOG version (single_file CHANGELOG doc_example)
           = Return notes
         ∧ notes ≠ ""
         ∧ true = true
         ∧ fs_write "notes.md" "Initial release." (single_file CHANGELOG doc_example)
           = fs_write (id output) notes (single_file CHANGELOG doc_example)).
Proof.
  apply (X16_main_writes_only_the_notes id
           {| args_latest_version := false; args_release_notes_version := Some "1.0.0";
              args_release_notes_output := Some "notes.md" |}
           {| files := single_file CHANGELOG doc_example; writable := λ _, true;
              stdout := ""; stderr := "" |}
           {| files := fs_write "notes.md" "Initial release." (single_file CHANGELOG doc_example);
              writable := λ _, true;
              stdout := "Wrote release notes for v1.0.0 to notes.md" +:+ String LF "";
              stderr := "" |}
           (Return 0)).
  vm_compute. reflexivity.
Defined.

Lemma release_notes_raises fs path content version e :
  fs path = Some content →
  extract_release_notes path version fs = Raise e → e = ValueError (err_not_found version).
Proof.
  intros Hfs. rewrite (extract_release_notes_eq _ _ _ _ Hfs).
  destruct (search (release_pattern version) content); [done|]. by intros [= <-].
Qed.

(** X17. [main] raises in four situations only: the changelog cannot be
    read; the loop of the validation reaches a version on which
    [parse_semver] raises; or the changelog validates, [--latest-version] is
    not given, a non-empty version and a non-empty output are given, and
    either the version has no entry ([ValueError] with the not-found message)
    or the notes are found and the output cannot be written. *)
Theorem X17_main_raises_only
    (Path_of : string → Path) (args : Namespace) (w w' : World) (e : exn) :
  main Path_of args w = (Raise e, w') →
  (e = LibraryError ∧ files w CHANGELOG = None)
  ∨ (e = LibraryError
     ∧ ∃ content, files w CHANGELOG = Some content
         ∧ startswith content "# Changelog" = true
         ∧ reaches_unparsed_version content)
  ∨ ∃ latest version output,
      validate_changelog CHANGELOG (files w) = Return (true, latest)
      ∧ args_latest_version args = false
      ∧ args_release_notes_version args = Some version ∧ version ≠ ""
      ∧ args_release_notes_output args = Some output ∧ output ≠ ""
      ∧ (e = ValueError (err_not_found version)
         ∧ extract_release_notes CHANGELOG version (files w) = Raise e
         ∨ e = LibraryError
           ∧ writable w (Path_of output) = false
           ∧ ∃ notes, extract_release_notes CHANGELOG version (files w) = Return notes).
Proof.
  intros H. main_run H.
  destruct (validate_changelog CHANGELOG (files w)) as [[[] info]|e0] eqn:Hv;
    [main_modes H args|..]; cbn [negb] in H; try by simplify_eq.
  - match type of H with
    | context [extract_release_notes ?p ?v ?f] =>
        destruct (extract_release_notes p v f) as [notes|e1] eqn:Hn
    end.
    + match type of H with
      | context [writable w ?p] => destruct (writable w p) eqn:Hw
      end; cbn [files writable stdout stderr] in H; simplify_eq.
      do 2 right. eexists info, _, _. do 6 (split; [done|]). right. eauto.
    + simplify_eq. do 2 right. eexists info, _, _. do 6 (split; [done|]). left.
      split; [|done].
      destruct (files w' CHANGELOG) as [content|] eqn:Hfs;
        [|by rewrite validate_changelog_unreadable in Hv].
      by eapply release_notes_raises.
  - simplify_eq. apply validate_changelog_raises in Hv as [-> [?|?]]; auto.
Qed.

Lemma X17_witness :
  (ValueError (err_not_found "9.9.9") = LibraryError
   ∧ single_file CHANGELOG doc_example CHANGELOG = None)
  ∨ (ValueError (err_not_found "9.9.9") = LibraryError
     ∧ ∃ content, single_file CHANGELOG doc_example CHANGELOG = Some content
         ∧ startswith content "# Changelog" = true
         ∧ reaches_unparsed_version content)
  ∨ ∃ latest version output,
      validate_changelog CHANGELOG (single_file CHANGELOG doc_example) = Return (true, latest)
      ∧ false = false
      ∧ Some "9.9.9" = Some version ∧ version ≠ ""
      ∧ Some "notes.md" = Some output ∧ output ≠ ""
      ∧ (ValueError (err_not_found "9.9.9") = ValueError (err_not_found version)
         ∧ extract_release_notes CHANGELOG version (single_file CHANGELOG doc_example)
           = Raise (ValueError (err_not_found "9.9.9"))
         ∨ ValueError (err_not_found "9.9.9") = LibraryError
           ∧ true = false
           ∧ ∃ notes, extract_release_notes CHANGELOG version
                        (single_file CHANGELOG doc_example) = Return notes).
Proof.
  apply (X17_main_raises_only id
           {| args_latest_version := false; args_release_notes_version := Some "9.9.9";
              args_release_notes_output := Some "notes.md" |}
           {| files := single_file CHANGELOG doc_example; writable := λ _, true;
              stdout := ""; stderr := "" |}
           {| files := single_file CHANGELOG doc_example; writable := λ _, true;
              stdout := ""; stderr := "" |}).
  vm_compute. reflexivity.
Defined.

Lemma version_shape_nonempty v : version_shape v → v ≠ "".
Proof.
  intros (a & b & c & -> & Ha%is_digits_ne & _). destruct a; [done|]. by rewrite str_app_cons.
Qed.

(** X18. Asking [main] for the notes of a version that the changelog lists
    succeeds: when the changelog validates, [load_headings] lists the
    version, and the output is not empty and can be written, [main] with
    [--release-notes-version] and [--release-notes-output] returns 0, leaves
    in the output file exactly what [extract_release_notes] returns for the
    version, and prints one line on [sys.stdout]. *)
Theorem X18_main_writes_the_notes_of_a_listed_version
    (Path_of : string → Path) (w : World) (latest version output : string)
    (hs : list heading) :
  validate_changelog CHANGELOG (files w) = Return (true, latest) →
  load_headings CHANGELOG (files w) = Return hs →
  version ∈ hs.*1 →
  output ≠ "" →
  writable w (Path_of output) = true →
  ∃ notes,
    extract_release_notes CHANGELOG version (files w) = Return notes
    ∧ main Path_of
        {| args_latest_version := false; args_release_notes_version := Some version;
           args_release_notes_output := Some output |} w
      = (Return 0,
         {| files := fs_write (Path_of output) notes (files w);
            writable := writable w;
            stdout := stdout w +:+ ("Wrote release notes for v" +:+ version +:+ " to " +:+ output)
                      +:+ String LF "";
            stderr := stderr w |}).
Proof.
  intros Hv Hload Hin Hout Hw.
  destruct (files w CHANGELOG) as [content|] eqn:Hfs;
    [|by rewrite validate_changelog_unreadable in Hv].
  rewrite (load_headings_eq _ _ _ Hfs) in Hload. injection Hload as <-.
  assert (version_shape version) as Hshape.
  { apply list_elem_of_fmap in Hin as (h & -> & Hh). by apply (headings_of_shape content). }
  apply entry_iff_listed in Hin as [mt Hmt]; [|done].
  pose proof (extract_release_notes_eq _ _ _ version Hfs) as Hn. rewrite Hmt in Hn.
  cbv zeta in Hn. eexists. split; [exact Hn|].
  unfold main, mbind, Prog_bind, lift, mret, Prog_ret, print, print_stderr, write_text.
  cbn [files writable stdout stderr args_latest_version args_release_notes_version
       args_release_notes_output]. rewrite Hv. cbn [negb].
  apply version_shape_nonempty in Hshape.
  destruct version as [|c v]; [done|]. destruct output as [|c' o]; [done|].
  rewrite Hn, Hw. done.
Qed.

Lemma X18_witness :
  ∃ notes,
    extract_release_notes CHANGELOG "1.0.0" (single_file CHANGELOG doc_example) = Return notes
    ∧ main id
        {| args_latest_version := false; args_release_notes_version := Some "1.0.0";
           args_release_notes_output := Some "notes.md" |}
        {| files := single_file CHANGELOG doc_example; writable := λ _, true;
           stdout := ""; stderr := "" |}
      = (Return 0,
         {| files := fs_write (id "notes.md") notes (single_file CHANGELOG doc_example);
            writable := λ _, true;
            stdout := "" +:+ ("Wrote release notes for v" +:+ "1.0.0" +:+ " to " +:+ "notes.md")
                      +:+ String LF "";
            stderr := "" |}).
Proof.
  apply (X18_main_writes_the_notes_of_a_listed_version id
           {| files := single_file CHANGELOG doc_example; writable := λ _, true;
              stdout := ""; stderr := "" |}
           "2.0.0" "1.0.0" "notes.md"
           [("2.0.0", "2024-06-01"); ("1.0.0", "2024-01-01")]).
  - vm_compute. reflexivity.
  - vm_compute. reflexivity.
  - apply (bool_decide_unpack _). vm_compute. exact I.
  - discriminate.
  - reflexivity.
Defined.

(** X19. With [--latest-version], [main] prints what [latest_version]
    returns for the changelog and returns 0, whatever the other options;
    where [latest_version] raises its own [ValueError] (the validation has
    failed, and the message is the diagnostic), [main] prints that message on
    [sys.stderr] and returns 1; and where [latest_version] lets an error of
    [validate_changelog] pass (the file is unreadable, or [parse_semver]
    raises), [main] raises that error too. *)
Theorem X19_main_latest_version_prints_latest_version
    (Path_of : string → Path) (args : Namespace) (w : World) :
  args_latest_version args = true →
  main Path_of args w =
    match latest_version CHANGELOG (files w) with
    | Return v =>
        (Return 0,
         {| files := files w; writable := writable w;
            stdout := stdout w +:+ v +:+ String LF ""; stderr := stderr w |})
    | Raise (ValueError msg) =>
        (Return 1,
         {| files := files w; writable := writable w;
            stdout := stdout w; stderr := stderr w +:+ msg +:+ String LF "" |})
    | Raise LibraryError => (Raise LibraryError, w)
    end.
Proof.
  intros Hflag. rewrite latest_version_eq.
  unfold main, mbind, Prog_bind, lift, mret, Prog_ret, print, print_stderr.
  destruct (validate_changelog CHANGELOG (files w)) as [[[] info]|e] eqn:Hv; cbn [negb].
  - by rewrite Hflag.
  - done.
  - by apply validate_changelog_raises in Hv as [-> _].
Qed.

Lemma X19_witness :
  main id {| args_latest_version := true; args_release_notes_version := Some "1.0.0";
             args_release_notes_output := None |}
    {| files := single_file CHANGELOG doc_example; writable := λ _, true;
       stdout := ""; stderr := "" |}
  = match latest_version CHANGELOG (single_file CHANGELOG doc_example) with
    | Return v =>
        (Return 0,
         {| files := single_file CHANGELOG doc_example; writable := λ _, true;
            stdout := "" +:+ v +:+ String LF ""; stderr := "" |})
    | Raise (ValueError msg) =>
        (Return 1,
         {| files := single_file CHANGELOG doc_example; writable := λ _, true;
            stdout := ""; stderr := "" +:+ msg +:+ String LF "" |})
    | Raise LibraryError =>
        (Raise LibraryError,
         {| files := single_file CHANGELOG doc_example; writable := λ _, true;
            stdout := ""; stderr := "" |})
    end.
Proof.
  apply (X19_main_latest_version_prints_latest_version id
           {| args_latest_version := true; args_release_notes_version := Some "1.0.0";
              args_release_notes_output := None |}
           {| files := single_file CHANGELOG doc_example; writable := λ _, true;
              stdout := ""; stderr := "" |}).
  reflexivity.
Defined.

(** ** [parse_semver] *)

Lemma length_split sep s : length (split sep s) = S (count_char sep s).
Proof.
  induction s as [|c s IH]; [done|]. simpl. case_bool_decide; simpl; [by rewrite IH|].
  destruct (split sep s); simpl in *; lia.
Qed.

(** [int] on a run of digits: the number the run denotes, unless the run is
    longer than the limit. *)
Lemma int_digits_decimal s : ∀ acc,
  all_chars isdecimal s = true →
  int_digits acc s = Some (acc * 10 ^ Z.of_nat (String.length s) + decimal s).
Proof.
  induction s as [|c s IH]; intros acc Hs.
  - simpl. f_equal. lia.
  - simpl in Hs. apply andb_true_iff in Hs as [Hc Hs].
    cbn [int_digits decimal String.length]. rewrite Hc, IH by done. f_equal.
    rewrite Nat2Z.inj_succ, Z.pow_succ_r by lia. lia.
Qed.

Lemma int_decimal s :
  is_digits s = true →
  int s = if (String.length s <=? int_max_str_digits)%nat then Some (decimal s) else None.
Proof.
  unfold is_digits. intros [Hs Hne]%andb_true_iff. destruct s as [|c s]; [done|].
  unfold int. destruct (_ <=? _)%nat; [|done]. by rewrite int_digits_decimal.
Qed.

Lemma parse_semver_digits a b c :
  is_digits a = true → is_digits b = true → is_digits c = true →
  parse_semver (a +:+ "." +:+ b +:+ "." +:+ c)
  = x ← int a; y ← int b; z ← int c; Some (x, y, z).
Proof.
  intros Ha Hb Hc. unfold parse_semver. rewrite !str_app_cons, !str_app_nil_l.
  by rewrite split_digits_dot, split_digits_dot, split_digits by auto using is_digits_all.
Qed.

(** X20. On a version [a.b.c] of three non-empty runs of decimal digits,
    [parse_semver] returns the triple of the numbers that the three runs
    denote when none of the runs has more than [int_max_str_digits] digits,
    4300, and raises otherwise. *)
Theorem X20_parse_semver_reads_three_numbers (a b c : string) :
  is_digits a = true → is_digits b = true → is_digits c = true →
  parse_semver (a +:+ "." +:+ b +:+ "." +:+ c) =
    if bool_decide (String.length a ≤ int_max_str_digits
                    ∧ String.length b ≤ int_max_str_digits
                    ∧ String.length c ≤ int_max_str_digits)%nat
    then Some (decimal a, decimal b, decimal c)
    else None.
Proof.
  intros Ha Hb Hc. rewrite parse_semver_digits, !int_decimal by done.
  destruct (Nat.leb_spec (String.length a) int_max_str_digits),
    (Nat.leb_spec (String.length b) int_max_str_digits),
    (Nat.leb_spec (String.length c) int_max_str_digits);
    simpl; case_bool_decide; try done; lia.
Qed.

Lemma X20_witness :
  parse_semver ("1" +:+ "." +:+ "10" +:+ "." +:+ "0") =
    if bool_decide (String.length "1" ≤ int_max_str_digits
                    ∧ String.length "10" ≤ int_max_str_digits
                    ∧ String.length "0" ≤ int_max_str_digits)%nat
    then Some (decimal "1", decimal "10", decimal "0")
    else None.
Proof.
  apply (X20_parse_semver_reads_three_numbers "1" "10" "0"); reflexivity.
Defined.

(** X21. [parse_semver] raises on every text that does not have exactly two
    dots: the text must split into three parts. *)
Theorem X21_parse_semver_needs_three_parts (version : string) :
  count_char "." version ≠ 2%nat → parse_semver version = None.
Proof.
  intros H. unfold parse_semver. pose proof (length_split "." version) as Hl.
  destruct (split "." version) as [|x [|y [|z [|u l]]]]; try done.
  simpl in Hl. lia.
Qed.

Lemma X21_witness : parse_semver "1.0" = None.
Proof. apply (X21_parse_semver_needs_three_parts "1.0"). vm_compute. lia. Defined.

(** ** Running [main] again *)

Lemma validate_changelog_ext fs1 fs2 path :
  fs1 path = fs2 path → validate_changelog path fs1 = validate_changelog path fs2.
Proof.
  intros H. destruct (fs2 path) as [content|] eqn:E.
  - by rewrite (validate_changelog_eq _ _ _ H), (validate_changelog_eq _ _ _ E).
  - by rewrite (validate_changelog_unreadable _ _ H), (validate_changelog_unreadable _ _ E).
Qed.

Lemma extract_release_notes_ext fs1 fs2 path version :
  fs1 path = fs2 path →
  extract_release_notes path version fs1 = extract_release_notes path version fs2.
Proof.
  intros H. destruct (fs2 path) as [content|] eqn:E.
  - by rewrite (extract_release_notes_eq _ _ _ _ H), (extract_release_notes_eq _ _ _ _ E).
  - unfold extract_release_notes, mbind, IO_bind, read_text. by rewrite H, E.
Qed.

(** X22. A second run of [main] repeats the first, as long as the output is
    not the changelog itself: from the world the first run leaves, [main]
    with the same arguments gives the same status or error and leaves every
    file as the first run left it. *)
Theorem X22_main_can_be_run_again
    (Path_of : string → Path) (args : Namespace) (w w' : World) (r : outcome Z) :
  (∀ output, args_release_notes_output args = Some output → Path_of output ≠ CHANGELOG) →
  main Path_of args w = (r, w') →
  ∃ w'', main Path_of args w' = (r, w'')
    ∧ writable w'' = writable w
    ∧ ∀ p, files w'' p = files w' p.
Proof.
  intros Hout H. main_run H.
  unfold main, mbind, Prog_bind, lift, mret, Prog_ret, print, print_stderr, write_text.
  destruct (validate_changelog CHANGELOG (files w)) as [[[] info]|e] eqn:Hv;
    [main_modes H args|..]; cbn [negb] in H.
  1-3, 5-8: simplify_eq; cbn [files writable stdout stderr]; rewrite Hv; cbn [negb];
    eexists; split; [done|]; by split.
  match type of H with
  | context [extract_release_notes ?p ?v ?f] =>
      destruct (extract_release_notes p v f) as [notes|e1] eqn:Hn
  end.
  2:{ simplify_eq. rewrite Hv. cbn [negb]. rewrite Hn. eexists. split; [done|]. by split. }
  match type of H with
  | context [writable w ?p] => destruct (writable w p) eqn:Hw
  end; cbn [files writable stdout stderr] in H; simplify_eq; cbn [files writable stdout stderr].
  2:{ rewrite Hv. cbn [negb]. rewrite Hn, Hw. eexists. split; [done|]. by split. }
  match goal with
  | |- context [fs_write ?p notes (files w)] =>
      assert (fs_write p notes (files w) CHANGELOG = files w CHANGELOG) as Hsame
  end.
  { unfold fs_write. rewrite bool_decide_eq_false_2; [done|]. intros E.
    by eapply Hout. }
  rewrite (validate_changelog_ext _ _ _ Hsame), Hv. cbn [negb].
  rewrite (extract_release_notes_ext _ _ _ _ Hsame), Hn. cbn [files writable stdout stderr].
  rewrite Hw. eexists. split; [done|]. cbn [files writable]. split; [done|].
  intros p. unfold fs_write. by case_bool_decide.
Qed.

Lemma X22_witness :
  ∃ w'',
    main id
      {| args_latest_version := false; args_release_notes_version := Some "1.0.0";
         args_release_notes_output := Some "notes.md" |}
      {| files := fs_write "notes.md" "Initial release." (single_file CHANGELOG doc_example);
         writable := λ _, true;
         stdout := "Wrote release notes for v1.0.0 to notes.md" +:+ String LF "";
         stderr := "" |}
    = (Return 0, w'')
    ∧ writable w'' = (λ _, true)
    ∧ ∀ p, files w'' p
           = fs_write "notes.md" "Initial release." (single_file CHANGELOG doc_example) p.
Proof.
  apply (X22_main_can_be_run_again id
           {| args_latest_version := false; args_release_notes_version := Some "1.0.0";
              args_release_notes_output := Some "notes.md" |}
           {| files := single_file CHANGELOG doc_example; writable := λ _, true;
              stdout := ""; stderr := "" |}).
  - intros output [= <-]. discriminate.
  - vm_compute. reflexivity.
Defined.
